(** * Sales-call pipeline: classifier, extractor, entity resolver,
      store writer and driver

    A shallow embedding of the classification-and-extraction pipeline:

    - the classifier: [getAllEmails], [countKeywordMatches],
      [classifyByRules], [classifyByLLM], [classifyMeeting];
    - the extractor: [extractSalesCall], [normalizeResult];
    - the pipeline script: [getOrCreateCompany], [getOrCreateTeamMember],
      [getOrCreateProspectContact], [getObjectionId], [getTechnologyId],
      [storeExtraction], [main];
    - the ingestion script: [getEmails], [hasSherlock], [hasExternal],
      [hasExcludedOnly], and the three loops of its [main] (pagination,
      filter, storing);
    - the seed script: [OBJECTION_SEEDS], [TECHNOLOGY_SEEDS], [seed].

    Modelling conventions.

    - JavaScript strings are modelled by [string]; the text is read as
      ASCII, so [toLowerCase] acts on [A-Z], and [trim] and the
      regular-expression class [\s] know the six ASCII white-space
      characters.
    - JavaScript numbers are modelled by [number]: a rational for a finite
      double, the two infinities and NaN.
    - The stored meeting data has the shape of [RawMeetingData]; what the
      language model returns is an arbitrary [value], as [JSON.parse]
      builds it, and [VUndef] stands for the result of reading a property
      that is not there.
    - Effects (the relational store, the clock, the language-model service,
      the console) are threaded through a state-and-exception monad [M];
      a thrown exception keeps the effects performed before it.
    - The relational store keeps its rows in insertion order, enforces the
      [varchar] lengths, [NOT NULL], [integer] and uniqueness constraints
      of the schema on the columns the pipeline writes, and may reject any
      statement for a reason of its own ([db_fault]). *)

From Stdlib Require Import String Ascii List Bool NArith ZArith QArith Lia.
From Stdlib Require Import Qround DecimalString.
Import ListNotations.

Set Warnings "-register-all".

Local Open Scope list_scope.
Local Open Scope string_scope.

(** ** Strings *)

Module Str.

Definition dq : string := String "034"%char EmptyString.
Definition nl : string := String "010"%char EmptyString.

(** [s.length] *)
Fixpoint len (s : string) : N :=
  match s with
  | EmptyString => 0%N
  | String _ s' => N.succ (len s')
  end.

Definition is_upper (c : ascii) : bool :=
  let n := N_of_ascii c in ((65 <=? n) && (n <=? 90))%N.

Definition is_lower (c : ascii) : bool :=
  let n := N_of_ascii c in ((97 <=? n) && (n <=? 122))%N.

Definition lower_char (c : ascii) : ascii :=
  if is_upper c then ascii_of_N (N_of_ascii c + 32) else c.

(** the class [\s], and the characters removed by [trim] *)
Definition is_space (c : ascii) : bool :=
  let n := N_of_ascii c in (((9 <=? n) && (n <=? 13)) || (n =? 32))%N.

(** [s.toLowerCase()] *)
Fixpoint toLowerCase (s : string) : string :=
  match s with
  | EmptyString => EmptyString
  | String c s' => String (lower_char c) (toLowerCase s')
  end.

Fixpoint filter (p : ascii -> bool) (s : string) : string :=
  match s with
  | EmptyString => EmptyString
  | String c s' => if p c then String c (filter p s') else filter p s'
  end.

Fixpoint forallb (p : ascii -> bool) (s : string) : bool :=
  match s with
  | EmptyString => true
  | String c s' => p c && forallb p s'
  end.

Fixpoint rev_onto (s acc : string) : string :=
  match s with
  | EmptyString => acc
  | String c s' => rev_onto s' (String c acc)
  end.

Definition rev (s : string) : string := rev_onto s EmptyString.

(** [s.trimStart()] *)
Fixpoint trimStart (s : string) : string :=
  match s with
  | EmptyString => EmptyString
  | String c s' => if is_space c then trimStart s' else s
  end.

(** [s.trimEnd()] *)
Definition trimEnd (s : string) : string := rev (trimStart (rev s)).

(** [s.trim()] *)
Definition trim (s : string) : string := trimEnd (trimStart s).

(** [s.startsWith(p)] *)
Fixpoint startsWith (s p : string) {struct p} : bool :=
  match p with
  | EmptyString => true
  | String c p' =>
      match s with
      | EmptyString => false
      | String d s' => Ascii.eqb d c && startsWith s' p'
      end
  end.

(** [s.endsWith(p)] *)
Definition endsWith (s p : string) : bool := startsWith (rev s) (rev p).

(** [s.includes(sub)] *)
Fixpoint includes (s sub : string) : bool :=
  startsWith s sub ||
  match s with
  | EmptyString => false
  | String _ s' => includes s' sub
  end.

(** [s.slice(0, n)] for [0 <= n] *)
Fixpoint take (n : N) (s : string) : string :=
  match s with
  | EmptyString => EmptyString
  | String c s' =>
      if (n =? 0)%N then EmptyString else String c (take (N.pred n) s')
  end.

(** [s.slice(n)] for [0 <= n] *)
Fixpoint drop (n : N) (s : string) : string :=
  match s with
  | EmptyString => EmptyString
  | String c s' => if (n =? 0)%N then s else drop (N.pred n) s'
  end.

(** [parts.join(sep)] *)
Fixpoint join (sep : string) (parts : list string) : string :=
  match parts with
  | [] => EmptyString
  | [x] => x
  | x :: rest => x ++ sep ++ join sep rest
  end.

(** [s.split(/\s+/)]: the pieces between the maximal white-space runs;
    a leading or trailing run leaves an empty piece, and the empty
    string splits into one empty piece. *)
Fixpoint split_ws_from (s cur : string) (in_ws : bool) : list string :=
  match s with
  | EmptyString => [rev cur]
  | String c s' =>
      if is_space c then
        if in_ws then split_ws_from s' cur true
        else rev cur :: split_ws_from s' EmptyString true
      else split_ws_from s' (String c cur) false
  end.

Definition split_ws (s : string) : list string :=
  split_ws_from s EmptyString false.

(** [s.replace(/\s+/g, ".")] *)
Fixpoint ws_runs_to_dot_from (s : string) (in_ws : bool) : string :=
  match s with
  | EmptyString => EmptyString
  | String c s' =>
      if is_space c then
        if in_ws then ws_runs_to_dot_from s' true
        else String "."%char (ws_runs_to_dot_from s' true)
      else String c (ws_runs_to_dot_from s' false)
  end.

Definition ws_runs_to_dot (s : string) : string :=
  ws_runs_to_dot_from s false.

(** [s.replace(/[^a-z_]/g, "")] *)
Definition keep_lower_underscore (s : string) : string :=
  filter (fun c => is_lower c || Ascii.eqb c "_"%char) s.

(** [s.replace(/[^a-z.]/g, "")] *)
Definition keep_lower_dot (s : string) : string :=
  filter (fun c => is_lower c || Ascii.eqb c "."%char) s.

(** the truth value of a string: non-empty *)
Definition truthy (s : string) : bool :=
  match s with EmptyString => false | _ => true end.

(** [Array.from(new Set(xs))]: first occurrences, in insertion order *)
Fixpoint dedup_from (seen xs : list string) : list string :=
  match xs with
  | [] => []
  | x :: rest =>
      if existsb (String.eqb x) seen then dedup_from seen rest
      else x :: dedup_from (x :: seen) rest
  end.

Definition dedup (xs : list string) : list string := dedup_from [] xs.

(** decimal rendering of a non-negative integer *)
Definition of_N (n : N) : string := NilEmpty.string_of_uint (N.to_uint n).

End Str.

(** the truth value of an optional string property *)
Definition truthy_opt (o : option string) : bool :=
match o with
| Some s => Str.truthy s
| None => false
end.

(** [o || ""] *)
Definition or_empty (o : option string) : string :=
match o with
| Some s => s
| None => EmptyString
end.

(** ** Numbers and parsed JSON *)

(** A JavaScript number: a finite double (as the rational it denotes),
    an infinity, or NaN. *)
Inductive number : Type :=
| Fin (q : Q)
| PosInf
| NegInf
| NaN.

Definition num (z : Z) : number := Fin (inject_Z z).

(** [a <= b]; false as soon as one side is NaN *)
Definition num_leb (a b : number) : bool :=
  match a, b with
  | NaN, _ | _, NaN => false
  | NegInf, _ => true
  | _, PosInf => true
  | Fin x, Fin y => Qle_bool x y
  | _, _ => false
  end.

(** [Math.max(a, b)] *)
Definition Math_max (a b : number) : number :=
  match a, b with
  | NaN, _ | _, NaN => NaN
  | _, _ => if num_leb a b then b else a
  end.

(** [Math.min(a, b)] *)
Definition Math_min (a b : number) : number :=
  match a, b with
  | NaN, _ | _, NaN => NaN
  | _, _ => if num_leb a b then a else b
  end.

(** [Math.round(x)]: the integer nearest to [x], ties towards +infinity *)
Definition Math_round (x : number) : number :=
  match x with
  | Fin q => Fin (inject_Z (Qfloor (q + (1 # 2))))
  | _ => x
  end.

(** the truth value of a number: neither zero nor NaN *)
Definition num_truthy (x : number) : bool :=
  match x with
  | Fin q => negb (Qeq_bool q 0)
  | NaN => false
  | _ => true
  end.

(** [new Date(x)] for a number [x]: the time value, an integral number of
    milliseconds within 8.64e15 of the epoch, NaN (an invalid date)
    otherwise. *)
Definition Date_of_number (x : number) : number :=
  match x with
  | Fin q =>
      let t := if Qle_bool 0 q then Qfloor q else Qceiling q in
      if (Z.abs t <=? 8640000000000000)%Z then Fin (inject_Z t) else NaN
  | _ => NaN
  end.

(** A value as [JSON.parse] builds it, plus [undefined]. *)
Inductive value : Type :=
| VUndef
| VNull
| VBool (b : bool)
| VNum (n : number)
| VStr (s : string)
| VArr (items : list value)
| VObj (fields : list (string * value)).

(** the truth value of [v] *)
Definition truthy (v : value) : bool :=
  match v with
  | VUndef | VNull => false
  | VBool b => b
  | VNum n => num_truthy n
  | VStr s => Str.truthy s
  | VArr _ | VObj _ => true
  end.

(** [a || b] *)
Definition js_or (a b : value) : value := if truthy a then a else b.

Fixpoint own_property (k : string) (fields : list (string * value)) : value :=
  match fields with
  | [] => VUndef
  | (k', v) :: rest => if String.eqb k k' then v else own_property k rest
  end.

(** What [JSON.parse] can return: no [undefined] and no NaN anywhere. *)
Fixpoint is_json (v : value) : bool :=
  match v with
  | VUndef => false
  | VNum NaN => false
  | VArr items => forallb is_json items
  | VObj fields => forallb (fun kv => is_json (snd kv)) fields
  | _ => true
  end.

(** ** Exceptions *)

Inductive error : Type :=
| TypeError
| ApiError
| DbError
| ParseError.

Inductive result (A : Type) : Type :=
| Ok (a : A)
| Throw (e : error).

Arguments Ok {A} a.
Arguments Throw {A} e.

(** [v.k] for one of the property names the pipeline reads ([call_type],
    [name], [email], [type_key], ...): none of them exists on the String,
    Number, Boolean, Array or Object prototypes, so on anything but an
    object with that own property the read gives [undefined]; on [null]
    and [undefined] it throws. *)
Definition prop (v : value) (k : string) : result value :=
  match v with
  | VUndef | VNull => Throw TypeError
  | VObj fields => Ok (own_property k fields)
  | _ => Ok VUndef
  end.

(** [Array.isArray(v) ? v : []] *)
Definition array_or_empty (v : value) : list value :=
  match v with
  | VArr items => items
  | _ => []
  end.

(** [v.trim()]: a TypeError unless [v] is a string *)
Definition js_trim (v : value) : result string :=
  match v with
  | VStr s => Ok (Str.trim s)
  | _ => Throw TypeError
  end.

(** ** The classifier: data *)

Inductive Classification : Type :=
| sales_call
| partner_call
| internal
| other.

Definition Classification_name (c : Classification) : string :=
  match c with
  | sales_call => "sales_call"
  | partner_call => "partner_call"
  | internal => "internal"
  | other => "other"
  end.

Record Attendee : Type := mkAttendee {
  displayName : string;
  att_email : string;
  att_name : string
}.

Record Summary : Type := mkSummary {
  meeting_type : option string;
  overview : option string;
  keywords : option string;
  short_summary : option string;
  topics_discussed : option string
}.

(** [RawMeetingData], with the three further properties of the stored
    JSON that the driver and the store writer read ([date], [duration],
    [transcript_url]). *)
Record RawMeetingData : Type := mkRawMeetingData {
  title : option string;
  participants : option (list string);
  meeting_attendees : option (list Attendee);
  host_email : option string;
  organizer_email : option string;
  transcript_text : option string;
  summary : option Summary;
  date : option number;
  duration : option number;
  transcript_url : option string
}.

(** the object [{}] *)
Definition empty_data : RawMeetingData :=
  mkRawMeetingData None None None None None None None None None None.

(** [data.summary?.f] *)
Definition summary_field (f : Summary -> option string)
  (data : RawMeetingData) : option string :=
  match summary data with
  | Some s => f s
  | None => None
  end.

Definition SALES_KEYWORDS : list string :=
  [ "audit"; "security audit"; "smart contract"; "retainer"; "lifecycle";
    "pricing"; "proposal"; "scope"; "timeline"; "engagement";
    "quote"; "budget"; "deal"; "contract"; "sow"; "statement of work";
    "penetration test"; "code review"; "security review";
    "sherlock"; "coverage"; "protocol"; "defi" ].

Definition PARTNER_KEYWORDS : list string :=
  [ "partnership"; "vendor"; "integration"; "conference"; "event";
    "sponsor"; "collaborate"; "referral"; "reseller" ].

Definition INTERNAL_KEYWORDS : list string :=
  [ "standup"; "sprint"; "retro"; "retrospective"; "1:1"; "one on one";
    "team sync"; "all hands"; "weekly sync"; "daily standup" ].

(** [process.env.SHERLOCK_EMAIL_DOMAIN || "sherlock.xyz"] *)
Definition domain_or_default (env_domain : option string) : string :=
  if truthy_opt env_domain then or_empty env_domain else "sherlock.xyz".

(** ** The classifier: rule tier *)

Definition push_if (c : bool) (x : string) (acc : list string) : list string :=
  if c then (acc ++ [x])%list else acc.

Definition getAllEmails (data : RawMeetingData) : list string :=
  let emails := [] in
  let emails := match host_email data with
                | Some e => push_if (Str.truthy e) (Str.toLowerCase e) emails
                | None => emails
                end in
  let emails := match organizer_email data with
                | Some e => push_if (Str.truthy e) (Str.toLowerCase e) emails
                | None => emails
                end in
  let emails := match participants data with
                | Some ps =>
                    fold_left
                      (fun acc p =>
                         push_if (Str.truthy p && Str.includes p "@")
                                 (Str.toLowerCase p) acc)
                      ps emails
                | None => emails
                end in
  let emails := match meeting_attendees data with
                | Some ats =>
                    fold_left
                      (fun acc a =>
                         push_if (Str.truthy (att_email a))
                                 (Str.toLowerCase (att_email a)) acc)
                      ats emails
                | None => emails
                end in
  Str.dedup emails.

Definition countKeywordMatches (text : string) (keywords : list string) : nat :=
  let lower := Str.toLowerCase text in
  length (filter (fun kw => Str.includes lower kw) keywords).

Definition push_opt (o : option string) (acc : list string) : list string :=
  match o with
  | Some s => push_if (Str.truthy s) s acc
  | None => acc
  end.

(** [None] is the source's [null]: ambiguous, the LLM tier decides. *)
Definition classifyByRules (SHERLOCK_DOMAIN : string)
  (data : RawMeetingData) : option Classification :=
  let emails := getAllEmails data in
  let at_domain := "@" ++ SHERLOCK_DOMAIN in
  let sherlockEmails := filter (fun e => Str.endsWith e at_domain) emails in
  let externalEmails :=
    filter (fun e => negb (Str.endsWith e at_domain)) emails in
  if (0 <? length sherlockEmails)%nat && (length externalEmails =? 0)%nat
  then Some internal
  else
    let textParts := [] in
    let textParts := push_opt (title data) textParts in
    let textParts := push_opt (summary_field meeting_type data) textParts in
    let textParts := push_opt (summary_field overview data) textParts in
    let textParts := push_opt (summary_field keywords data) textParts in
    let textParts := push_opt (summary_field short_summary data) textParts in
    let textParts :=
      push_opt (summary_field topics_discussed data) textParts in
    let corpus := Str.join " " textParts in
    if negb (Str.truthy (Str.trim corpus)) then None
    else
      let salesScore := countKeywordMatches corpus SALES_KEYWORDS in
      let partnerScore := countKeywordMatches corpus PARTNER_KEYWORDS in
      let internalScore := countKeywordMatches corpus INTERNAL_KEYWORDS in
      if (3 <=? salesScore)%nat && (partnerScore <? salesScore)%nat
         && (internalScore <? salesScore)%nat
      then Some sales_call
      else if (2 <=? partnerScore)%nat && (salesScore <? partnerScore)%nat
      then Some partner_call
      else if (2 <=? internalScore)%nat && (salesScore <? internalScore)%nat
      then Some internal
      else
        let meetingType :=
          Str.toLowerCase
            (if truthy_opt (summary_field meeting_type data)
             then or_empty (summary_field meeting_type data)
             else "") in
        if Str.includes meetingType "sales"
           || Str.includes meetingType "discovery"
           || Str.includes meetingType "pitch"
        then Some sales_call
        else if Str.includes meetingType "internal"
                || Str.includes meetingType "standup"
                || Str.includes meetingType "team"
        then Some internal
        else if (1 <=? salesScore)%nat && (0 <? length externalEmails)%nat
        then Some sales_call
        else None.

(** ** Template literals *)

(** [fields] has an own property [k] *)
Definition has_own (k : string) (fields : list (string * value)) : bool :=
  existsb (fun kv => String.eqb (fst kv) k) fields.

(** Whether [`${v}`] evaluates.  The conversion to a string throws a
    TypeError on an object with an own property [toString]: [JSON.parse]
    cannot make that property a function, and [Object.prototype.valueOf]
    gives the object back.  An array is joined: [null] and [undefined]
    elements give the empty string, and an other element that cannot be
    converted makes the array throw. *)
Fixpoint renders (v : value) : bool :=
  match v with
  | VObj fields => negb (has_own "toString" fields)
  | VArr items => forallb renders items
  | _ => true
  end.

(** the evaluation of [`${v}`], for its effect *)
Definition template (v : value) : result unit :=
  if renders v then Ok tt else Throw TypeError.

(** ** The relational store

    One record per table of the schema, rows in insertion order.  Identifiers
    ([uuid] columns) are opaque tokens, modelled by [N]; [timestamp] columns
    hold a number of milliseconds.  The embeddings table is not touched by
    the pipeline and is left out. *)

Record RawMeeting : Type := mkRawMeeting {
  rm_id : N;
  rm_firefliesId : string;
  rm_title : option string;
  rm_date : option Z;
  rm_duration : option Z;
  rm_rawJson : option RawMeetingData;
  rm_classification : option string;
  rm_processedAt : option Z
}.

Record Company : Type := mkCompany {
  co_id : N;
  co_name : string;
  co_sector : option string;
  co_firstSeenDate : option Z
}.

Record TeamMember : Type := mkTeamMember {
  tm_id : N;
  tm_name : string;
  tm_email : string
}.

Record ProspectContact : Type := mkProspectContact {
  pc_id : N;
  pc_name : string;
  pc_role : option string;
  pc_companyId : option N
}.

Record Objection : Type := mkObjection {
  ob_id : N;
  ob_typeKey : string;
  ob_displayName : string;
  ob_description : option string
}.

Record Technology : Type := mkTechnology {
  te_id : N;
  te_name : string;
  te_category : option string
}.

Record Call : Type := mkCall {
  ca_id : N;
  ca_rawMeetingId : option N;
  ca_callType : option string;
  ca_offeringPitched : option string;
  ca_companyId : option N;
  ca_callOutcome : option string;
  ca_dealSize : option string;
  ca_callQualityScore : option Z;
  ca_qualityRationale : option string;
  ca_transcriptText : option string;
  ca_summaryText : option string;
  ca_firefliesUrl : option string;
  ca_date : option Z;
  ca_duration : option Z
}.

Record CallObjection : Type := mkCallObjection {
  cob_id : N;
  cob_callId : N;
  cob_objectionId : N;
  cob_quote : option string;
  cob_context : option string
}.

Record CallTechnology : Type := mkCallTechnology {
  cte_id : N;
  cte_callId : N;
  cte_technologyId : N
}.

Record CallTeamMember : Type := mkCallTeamMember {
  ctm_id : N;
  ctm_callId : N;
  ctm_teamMemberId : N
}.

Record CallProspectContact : Type := mkCallProspectContact {
  cpc_id : N;
  cpc_callId : N;
  cpc_prospectContactId : N
}.

Record CallFollowUp : Type := mkCallFollowUp {
  cfu_id : N;
  cfu_callId : N;
  cfu_actionText : string;
  cfu_assignedTo : option string
}.

Record ProspectQuestion : Type := mkProspectQuestion {
  pq_id : N;
  pq_callId : N;
  pq_questionText : string
}.

Record KeyQuote : Type := mkKeyQuote {
  kq_id : N;
  kq_callId : N;
  kq_speaker : option string;
  kq_quoteText : string;
  kq_context : option string
}.

Record CounterResponse : Type := mkCounterResponse {
  cr_id : N;
  cr_objectionId : N;
  cr_callId : N;
  cr_responseText : string;
  cr_outcome : option string
}.

Inductive Table : Type :=
| T_rawMeetings
| T_companies
| T_teamMembers
| T_prospectContacts
| T_objections
| T_technologies
| T_calls
| T_callObjections
| T_callTechnologies
| T_callTeamMembers
| T_callProspectContacts
| T_callFollowUps
| T_prospectQuestions
| T_keyQuotes
| T_counterResponses.

Record Store : Type := mkStore {
  t_rawMeetings : list RawMeeting;
  t_companies : list Company;
  t_teamMembers : list TeamMember;
  t_prospectContacts : list ProspectContact;
  t_objections : list Objection;
  t_technologies : list Technology;
  t_calls : list Call;
  t_callObjections : list CallObjection;
  t_callTechnologies : list CallTechnology;
  t_callTeamMembers : list CallTeamMember;
  t_callProspectContacts : list CallProspectContact;
  t_callFollowUps : list CallFollowUp;
  t_prospectQuestions : list ProspectQuestion;
  t_keyQuotes : list KeyQuote;
  t_counterResponses : list CounterResponse
}.

(** The tables the pipeline writes to; the two vocabulary tables
    ([objections], [technologies]) are only ever read. *)

Definition upd_rawMeetings (f : list RawMeeting -> list RawMeeting)
  (s : Store) : Store :=
  mkStore (f (t_rawMeetings s)) (t_companies s) (t_teamMembers s)
    (t_prospectContacts s) (t_objections s) (t_technologies s)
    (t_calls s) (t_callObjections s) (t_callTechnologies s)
    (t_callTeamMembers s) (t_callProspectContacts s) (t_callFollowUps s)
    (t_prospectQuestions s) (t_keyQuotes s) (t_counterResponses s).

Definition upd_companies (f : list Company -> list Company)
  (s : Store) : Store :=
  mkStore (t_rawMeetings s) (f (t_companies s)) (t_teamMembers s)
    (t_prospectContacts s) (t_objections s) (t_technologies s)
    (t_calls s) (t_callObjections s) (t_callTechnologies s)
    (t_callTeamMembers s) (t_callProspectContacts s) (t_callFollowUps s)
    (t_prospectQuestions s) (t_keyQuotes s) (t_counterResponses s).

Definition upd_teamMembers (f : list TeamMember -> list TeamMember)
  (s : Store) : Store :=
  mkStore (t_rawMeetings s) (t_companies s) (f (t_teamMembers s))
    (t_prospectContacts s) (t_objections s) (t_technologies s)
    (t_calls s) (t_callObjections s) (t_callTechnologies s)
    (t_callTeamMembers s) (t_callProspectContacts s) (t_callFollowUps s)
    (t_prospectQuestions s) (t_keyQuotes s) (t_counterResponses s).

Definition upd_prospectContacts (f : list ProspectContact -> list ProspectContact)
  (s : Store) : Store :=
  mkStore (t_rawMeetings s) (t_companies s) (t_teamMembers s)
    (f (t_prospectContacts s)) (t_objections s) (t_technologies s)
    (t_calls s) (t_callObjections s) (t_callTechnologies s)
    (t_callTeamMembers s) (t_callProspectContacts s) (t_callFollowUps s)
    (t_prospectQuestions s) (t_keyQuotes s) (t_counterResponses s).

Definition upd_calls (f : list Call -> list Call)
  (s : Store) : Store :=
  mkStore (t_rawMeetings s) (t_companies s) (t_teamMembers s)
    (t_prospectContacts s) (t_objections s) (t_technologies s)
    (f (t_calls s)) (t_callObjections s) (t_callTechnologies s)
    (t_callTeamMembers s) (t_callProspectContacts s) (t_callFollowUps s)
    (t_prospectQuestions s) (t_keyQuotes s) (t_counterResponses s).

Definition upd_callObjections (f : list CallObjection -> list CallObjection)
  (s : Store) : Store :=
  mkStore (t_rawMeetings s) (t_companies s) (t_teamMembers s)
    (t_prospectContacts s) (t_objections s) (t_technologies s)
    (t_calls s) (f (t_callObjections s)) (t_callTechnologies s)
    (t_callTeamMembers s) (t_callProspectContacts s) (t_callFollowUps s)
    (t_prospectQuestions s) (t_keyQuotes s) (t_counterResponses s).

Definition upd_callTechnologies (f : list CallTechnology -> list CallTechnology)
  (s : Store) : Store :=
  mkStore (t_rawMeetings s) (t_companies s) (t_teamMembers s)
    (t_prospectContacts s) (t_objections s) (t_technologies s)
    (t_calls s) (t_callObjections s) (f (t_callTechnologies s))
    (t_callTeamMembers s) (t_callProspectContacts s) (t_callFollowUps s)
    (t_prospectQuestions s) (t_keyQuotes s) (t_counterResponses s).

Definition upd_callTeamMembers (f : list CallTeamMember -> list CallTeamMember)
  (s : Store) : Store :=
  mkStore (t_rawMeetings s) (t_companies s) (t_teamMembers s)
    (t_prospectContacts s) (t_objections s) (t_technologies s)
    (t_calls s) (t_callObjections s) (t_callTechnologies s)
    (f (t_callTeamMembers s)) (t_callProspectContacts s) (t_callFollowUps s)
    (t_prospectQuestions s) (t_keyQuotes s) (t_counterResponses s).

Definition upd_callProspectContacts (f : list CallProspectContact -> list CallProspectContact)
  (s : Store) : Store :=
  mkStore (t_rawMeetings s) (t_companies s) (t_teamMembers s)
    (t_prospectContacts s) (t_objections s) (t_technologies s)
    (t_calls s) (t_callObjections s) (t_callTechnologies s)
    (t_callTeamMembers s) (f (t_callProspectContacts s)) (t_callFollowUps s)
    (t_prospectQuestions s) (t_keyQuotes s) (t_counterResponses s).

Definition upd_callFollowUps (f : list CallFollowUp -> list CallFollowUp)
  (s : Store) : Store :=
  mkStore (t_rawMeetings s) (t_companies s) (t_teamMembers s)
    (t_prospectContacts s) (t_objections s) (t_technologies s)
    (t_calls s) (t_callObjections s) (t_callTechnologies s)
    (t_callTeamMembers s) (t_callProspectContacts s) (f (t_callFollowUps s))
    (t_prospectQuestions s) (t_keyQuotes s) (t_counterResponses s).

Definition upd_prospectQuestions (f : list ProspectQuestion -> list ProspectQuestion)
  (s : Store) : Store :=
  mkStore (t_rawMeetings s) (t_companies s) (t_teamMembers s)
    (t_prospectContacts s) (t_objections s) (t_technologies s)
    (t_calls s) (t_callObjections s) (t_callTechnologies s)
    (t_callTeamMembers s) (t_callProspectContacts s) (t_callFollowUps s)
    (f (t_prospectQuestions s)) (t_keyQuotes s) (t_counterResponses s).

Definition upd_keyQuotes (f : list KeyQuote -> list KeyQuote)
  (s : Store) : Store :=
  mkStore (t_rawMeetings s) (t_companies s) (t_teamMembers s)
    (t_prospectContacts s) (t_objections s) (t_technologies s)
    (t_calls s) (t_callObjections s) (t_callTechnologies s)
    (t_callTeamMembers s) (t_callProspectContacts s) (t_callFollowUps s)
    (t_prospectQuestions s) (f (t_keyQuotes s)) (t_counterResponses s).

Definition upd_counterResponses (f : list CounterResponse -> list CounterResponse)
  (s : Store) : Store :=
  mkStore (t_rawMeetings s) (t_companies s) (t_teamMembers s)
    (t_prospectContacts s) (t_objections s) (t_technologies s)
    (t_calls s) (t_callObjections s) (t_callTechnologies s)
    (t_callTeamMembers s) (t_callProspectContacts s) (t_callFollowUps s)
    (t_prospectQuestions s) (t_keyQuotes s) (f (t_counterResponses s)).

(** ** The world and the environment *)

(** A request to the language-model service ([client.messages.create]). *)
Record Request : Type := mkRequest {
  model : string;
  max_tokens : N;
  content : string
}.

(** The running counts of [main]. *)
Record Stats : Type := mkStats {
  st_total : nat;
  st_sales_call : nat;
  st_partner_call : nat;
  st_internal : nat;
  st_other : nat;
  st_extracted : nat;
  st_extractionErrors : nat;
  st_classificationLLMCalls : nat
}.

(** What the pipeline writes to the console, one constructor per message. *)
Inductive LogLine : Type :=
| LogBanner
| LogFound (n : nat)
| LogNothingToProcess
| LogMeeting (i total : nat) (title : string)
| LogClassification (c : Classification)
| LogClassificationFailed
| LogSkipTooShort
| LogExtracted (company call_type offering : value) (score : number)
| LogExtractionError
| LogJsonParseError (head : string)
| LogLinkTeamMemberFailed
| LogLinkProspectFailed
| LogSummary (stats : Stats).

(** A statement sent to the store. *)
Inductive Statement : Type :=
| SqlSelect (t : Table)
| SqlInsert (t : Table)
| SqlSetClassification (id : N) (classification : string)
| SqlSetProcessedAt (id : N) (processedAt : Z).

Definition table_of (st : Statement) : Table :=
  match st with
  | SqlSelect t | SqlInsert t => t
  | SqlSetClassification _ _ | SqlSetProcessedAt _ _ => T_rawMeetings
  end.

(** [db]: the store; [now]: the clock, in milliseconds; [next_id]: the
    next identifier the store will draw; [db_log]: the statements sent so
    far; [llm_log]: the requests sent so far; [console]: the output. *)
Record World : Type := mkWorld {
  db : Store;
  now : N;
  next_id : N;
  db_log : list Statement;
  llm_log : list Request;
  console : list LogLine
}.

Definition set_db (f : Store -> Store) (w : World) : World :=
  mkWorld (f (db w)) (now w) (next_id w) (db_log w) (llm_log w) (console w).

Definition set_now (t : N) (w : World) : World :=
  mkWorld (db w) t (next_id w) (db_log w) (llm_log w) (console w).

Definition set_next_id (n : N) (w : World) : World :=
  mkWorld (db w) (now w) n (db_log w) (llm_log w) (console w).

Definition set_db_log (l : list Statement) (w : World) : World :=
  mkWorld (db w) (now w) (next_id w) l (llm_log w) (console w).

Definition set_llm_log (l : list Request) (w : World) : World :=
  mkWorld (db w) (now w) (next_id w) (db_log w) l (console w).

Definition set_console (l : list LogLine) (w : World) : World :=
  mkWorld (db w) (now w) (next_id w) (db_log w) (llm_log w) l.

(** The surroundings of the pipeline, and one constant taken as given.

    - [SHERLOCK_EMAIL_DOMAIN]: the environment variable of that name;
    - [EXTRACTION_PROMPT]: the fixed instruction text of the extractor, a
      constant of some sixty lines; nothing here depends on its wording;
    - [llm_reply n r]: the text of the first content block of the answer to
      the [n]-th request [r], [None] when the call rejects or the answer has
      no text;
    - [llm_latency], [db_latency]: the time a call takes;
    - [JSON_parse]: [JSON.parse], [None] for a SyntaxError;
    - [db_fault n st]: whether the store rejects the [n]-th statement,
      [st], for a reason outside the constraints modelled here (connection
      lost, time-out, ...);
    - [bind_other v]: the text the driver sends for a parameter [v] that is
      neither a string nor [null], [None] when it refuses it. *)
Record Env : Type := mkEnv {
  SHERLOCK_EMAIL_DOMAIN : option string;
  EXTRACTION_PROMPT : string;
  llm_reply : N -> Request -> option string;
  llm_latency : N -> N;
  JSON_parse : string -> option value;
  db_fault : N -> Statement -> bool;
  db_latency : N -> N;
  bind_other : value -> option string
}.

(** ** The monad of the pipeline: state, and exceptions that keep it *)

Definition M (A : Type) : Type := World -> result A * World.

Definition ret {A : Type} (a : A) : M A := fun w => (Ok a, w).

Definition throw {A : Type} (e : error) : M A := fun w => (Throw e, w).

Definition bind {A B : Type} (c : M A) (k : A -> M B) : M B :=
  fun w =>
    match c w with
    | (Ok a, w') => k a w'
    | (Throw e, w') => (Throw e, w')
    end.

(** [try { c } catch (err) { h err }] *)
Definition try_catch {A : Type} (c : M A) (h : error -> M A) : M A :=
  fun w =>
    match c w with
    | (Ok a, w') => (Ok a, w')
    | (Throw e, w') => h e w'
    end.

Definition lift {A : Type} (r : result A) : M A := fun w => (r, w).

Declare Scope pipeline_scope.
Delimit Scope pipeline_scope with pipeline.

Notation "x <- c ;; k" := (bind c (fun x => k))
  (at level 61, c at next level, right associativity) : pipeline_scope.
Notation "c ;; k" := (bind c (fun _ => k))
  (at level 61, right associativity) : pipeline_scope.

Local Open Scope pipeline_scope.

(** [for (const x of xs) { body x }] *)
Fixpoint for_each {A : Type} (xs : list A) (body : A -> M unit) : M unit :=
  match xs with
  | [] => ret tt
  | x :: rest => body x ;; for_each rest body
  end.

Definition console_log (l : LogLine) : M unit :=
  fun w => (Ok tt, set_console (console w ++ [l])%list w).

(** [Date.now()], and the time value of [new Date()] *)
Definition Date_now : M N := fun w => (Ok (now w), w).

(** [await sleep(ms)] *)
Definition sleep (ms : N) : M unit :=
  fun w => (Ok tt, set_now (now w + ms)%N w).

(** the identifier the store draws for a new row ([defaultRandom]) *)
Definition gen_random_uuid : M N :=
  fun w => (Ok (next_id w), set_next_id (N.succ (next_id w)) w).

Definition check (b : bool) : M unit :=
  if b then ret tt else throw DbError.
(** ** The ingestion script: data and filters

    The script that pulls the transcripts and stores them as raw meetings.
    Its console output is left out. *)

Record Sentence : Type := mkSentence {
  speaker_name : string;
  sentence_text : string
}.

(** [FirefliesTranscript], the properties the script and the pipeline
    read: a property the service may leave out is optional, a sentence
    has its speaker and its text, and the summary has the five properties
    of [RawMeetingData]. *)
Record FirefliesTranscript : Type := mkFirefliesTranscript {
  ff_id : string;
  ff_title : option string;
  ff_date : option number;
  ff_duration : option number;
  ff_transcript_url : option string;
  ff_host_email : option string;
  ff_organizer_email : option string;
  ff_participants : option (list string);
  ff_meeting_attendees : option (list Attendee);
  ff_sentences : option (list Sentence);
  ff_summary : option Summary
}.

Module Ingest.

(** [s.split(sep)] for a one-character separator *)
Fixpoint split_on_from (sep : ascii) (s cur : string) : list string :=
  match s with
  | EmptyString => [Str.rev cur]
  | String c s' =>
      if Ascii.eqb c sep then Str.rev cur :: split_on_from sep s' EmptyString
      else split_on_from sep s' (String c cur)
  end.

Definition split_on (sep : ascii) (s : string) : list string :=
  split_on_from sep s EmptyString.

(** [(process.env.EXCLUDED_EMAILS || "").split(",")
       .map((e) => e.trim().toLowerCase()).filter(Boolean)] *)
Definition EXCLUDED_EMAILS (env_excluded : option string) : list string :=
  filter Str.truthy
    (map (fun e => Str.toLowerCase (Str.trim e))
       (split_on ","%char
          (if truthy_opt env_excluded then or_empty env_excluded else ""))).

Definition getEmails (transcript : FirefliesTranscript) : list string :=
  let emails := [] in
  let emails := match ff_host_email transcript with
                | Some e => push_if (Str.truthy e) (Str.toLowerCase e) emails
                | None => emails
                end in
  let emails := match ff_organizer_email transcript with
                | Some e => push_if (Str.truthy e) (Str.toLowerCase e) emails
                | None => emails
                end in
  let emails := match ff_participants transcript with
                | Some ps =>
                    fold_left
                      (fun acc p =>
                         push_if (Str.truthy p && Str.includes p "@")
                                 (Str.toLowerCase p) acc)
                      ps emails
                | None => emails
                end in
  let emails := match ff_meeting_attendees transcript with
                | Some ats =>
                    fold_left
                      (fun acc a =>
                         push_if (Str.truthy (att_email a))
                                 (Str.toLowerCase (att_email a)) acc)
                      ats emails
                | None => emails
                end in
  Str.dedup emails.

(** [xs.includes(x)] *)
Definition mem (x : string) (xs : list string) : bool :=
  existsb (String.eqb x) xs.

Section Filters.

Variable SHERLOCK_DOMAIN : string.
Variable EXCLUDED : list string.

Definition hasSherlock (emails : list string) : bool :=
  existsb (fun e => Str.endsWith e ("@" ++ SHERLOCK_DOMAIN)) emails.

Definition hasExternal (emails : list string) : bool :=
  existsb
    (fun e => negb (Str.endsWith e ("@" ++ SHERLOCK_DOMAIN))
              && negb (mem e EXCLUDED))
    emails.

Definition hasExcludedOnly (emails : list string) : bool :=
  let nonSherlock :=
    filter (fun e => negb (Str.endsWith e ("@" ++ SHERLOCK_DOMAIN))) emails in
  (0 <? length nonSherlock)%nat
  && forallb (fun e => mem e EXCLUDED) nonSherlock.

(** the counts of the filter *)
Record FilterStats : Type := mkFilterStats {
  fs_total : nat;
  fs_noSherlock : nat;
  fs_noExternal : nat;
  fs_excludedOnly : nat;
  fs_passed : nat
}.

(** the body of the filter loop *)
Definition filter_step (acc : FilterStats * list FirefliesTranscript)
  (t : FirefliesTranscript) : FilterStats * list FirefliesTranscript :=
  let (stats, filtered) := acc in
  let emails := getEmails t in
  if negb (hasSherlock emails) then
    (mkFilterStats (fs_total stats) (S (fs_noSherlock stats))
       (fs_noExternal stats) (fs_excludedOnly stats) (fs_passed stats),
     filtered)
  else if negb (hasExternal emails) then
    (mkFilterStats (fs_total stats) (fs_noSherlock stats)
       (S (fs_noExternal stats)) (fs_excludedOnly stats) (fs_passed stats),
     filtered)
  else if hasExcludedOnly emails then
    (mkFilterStats (fs_total stats) (fs_noSherlock stats)
       (fs_noExternal stats) (S (fs_excludedOnly stats)) (fs_passed stats),
     filtered)
  else
    (mkFilterStats (fs_total stats) (fs_noSherlock stats)
       (fs_noExternal stats) (fs_excludedOnly stats) (S (fs_passed stats)),
     (filtered ++ [t])%list).

(** the filter loop over everything that was fetched *)
Definition filter_transcripts (allTranscripts : list FirefliesTranscript)
  : FilterStats * list FirefliesTranscript :=
  fold_left filter_step allTranscripts
    (mkFilterStats (length allTranscripts) 0 0 0 0, []).

End Filters.

(** [sentences?.map((s) => `${s.speaker_name}: ${s.text}`).join("\n") || ""] *)
Definition transcriptText (t : FirefliesTranscript) : string :=
  match ff_sentences t with
  | Some sentences =>
      Str.join Str.nl
        (map (fun s => speaker_name s ++ ": " ++ sentence_text s) sentences)
  | None => ""
  end.

(** the stored JSON, as far as the pipeline reads it: the transcript
    without its sentences, and the transcript text *)
Definition storedJson (t : FirefliesTranscript) : RawMeetingData :=
  mkRawMeetingData (ff_title t) (ff_participants t) (ff_meeting_attendees t)
    (ff_host_email t) (ff_organizer_email t) (Some (transcriptText t))
    (ff_summary t) (ff_date t) (ff_duration t) (ff_transcript_url t).

(** What a call of [fetchTranscripts] gives: a batch, or an exception. *)
Definition Api : Type := nat -> N -> option (list FirefliesTranscript).

Inductive PullOutcome : Type :=
| Pulled (allTranscripts : list FirefliesTranscript) (fetches : nat)
    (waited : N)
| PullFailed (fetches : nat)
| PullRunning.

(** The pagination loop of [main], [fuel] iterations of it: [api n skip]
    is the answer to the [n]-th call, made with [skip]; [waited] is the
    time spent in the delays between the calls, in milliseconds. *)
Fixpoint pull_from (api : Api) (fuel : nat) (fetches : nat) (skip : N)
  (waited : N) (allTranscripts : list FirefliesTranscript) : PullOutcome :=
  match fuel with
  | O => PullRunning
  | S fuel' =>
      match api fetches skip with
      | None => PullFailed (S fetches)
      | Some batch =>
          match batch with
          | [] => Pulled allTranscripts (S fetches) waited
          | _ =>
              let allTranscripts := (allTranscripts ++ batch)%list in
              let skip := (skip + 50)%N in
              if (200 <=? length allTranscripts)%nat
              then Pulled allTranscripts (S fetches) waited
              else pull_from api fuel' (S fetches) skip (waited + 1000)%N
                     allTranscripts
          end
      end
  end.

Definition pull (api : Api) (fuel : nat) : PullOutcome :=
  pull_from api fuel 0 0%N 0%N [].

End Ingest.

(** ** The seed script: the two vocabularies *)

Module Seed.

Definition OBJECTION_SEEDS : list (string * string * string) :=
  [ ("budget_timing", "Budget / Timing",
     "Prospect cites budget constraints or timing issues for not moving forward");
    ("need_internal_buyin", "Need Internal Buy-in",
     "Prospect needs approval from internal stakeholders before committing");
    ("already_have_auditor", "Already Have Auditor",
     "Prospect already works with another security auditor");
    ("scope_concerns", "Scope Concerns",
     "Prospect has concerns about the scope of work, deliverables, or coverage");
    ("timeline_too_long", "Timeline Too Long",
     "Prospect feels the audit timeline is too long for their needs");
    ("not_ready_yet", "Not Ready Yet",
     "Prospect's code or project is not at a stage where an audit makes sense");
    ("comparing_competitors", "Comparing Competitors",
     "Prospect is evaluating multiple audit firms before making a decision");
    ("other", "Other",
     "Objection that does not fit into the canonical categories") ].

Definition TECHNOLOGY_SEEDS : list (string * string) :=
  [ ("Solidity", "language"); ("Vyper", "language"); ("Rust", "language");
    ("Move", "language"); ("Cairo", "language");
    ("Foundry", "framework"); ("Hardhat", "framework");
    ("Truffle", "framework");
    ("Ethereum", "chain"); ("Arbitrum", "chain"); ("Optimism", "chain");
    ("Base", "chain"); ("Polygon", "chain"); ("Avalanche", "chain");
    ("Solana", "chain"); ("BSC", "chain") ].

End Seed.

(** The seed script is the one writer of the vocabulary tables. *)
Definition upd_objections (f : list Objection -> list Objection)
  (s : Store) : Store :=
  mkStore (t_rawMeetings s) (t_companies s) (t_teamMembers s)
    (t_prospectContacts s) (f (t_objections s)) (t_technologies s)
    (t_calls s) (t_callObjections s) (t_callTechnologies s)
    (t_callTeamMembers s) (t_callProspectContacts s) (t_callFollowUps s)
    (t_prospectQuestions s) (t_keyQuotes s) (t_counterResponses s).

Definition upd_technologies (f : list Technology -> list Technology)
  (s : Store) : Store :=
  mkStore (t_rawMeetings s) (t_companies s) (t_teamMembers s)
    (t_prospectContacts s) (t_objections s) (f (t_technologies s))
    (t_calls s) (t_callObjections s) (t_callTechnologies s)
    (t_callTeamMembers s) (t_callProspectContacts s) (t_callFollowUps s)
    (t_prospectQuestions s) (t_keyQuotes s) (t_counterResponses s).


(** ** The extraction result *)

(** [ExtractionResult].  [normalizeResult] only guarantees that the array
    properties are arrays and that the score is a number: the scalar
    properties hold whatever truthy value the model gave, and the array
    elements are not inspected. *)
Record ExtractionResult : Type := mkExtractionResult {
  call_type : value;
  offering_pitched : value;
  company_name : value;
  prospect_names : list value;
  team_members : list value;
  tech_stack : list value;
  call_outcome : value;
  deal_size : value;
  call_quality_score : number;
  quality_rationale : value;
  objections : list value;
  prospect_questions : list value;
  key_quotes : list value;
  follow_up_actions : list value;
  counter_responses : list value
}.

(** [raw.k], inside [normalizeResult], once [raw] is known not to be
    [null] *)
Definition field (raw : value) (k : string) : value :=
  match raw with
  | VObj fields => own_property k fields
  | _ => VUndef
  end.

Definition normalizeResult (raw : value) : result ExtractionResult :=
  match raw with
  | VUndef | VNull => Throw TypeError
  | _ =>
      Ok (mkExtractionResult
            (js_or (field raw "call_type") (VStr "discovery"))
            (js_or (field raw "offering_pitched") (VStr "none"))
            (js_or (field raw "company_name") (VStr "Unknown"))
            (array_or_empty (field raw "prospect_names"))
            (array_or_empty (field raw "team_members"))
            (array_or_empty (field raw "tech_stack"))
            (js_or (field raw "call_outcome") (VStr "neutral"))
            (js_or (field raw "deal_size") VNull)
            (match field raw "call_quality_score" with
             | VNum x => Math_min (num 10) (Math_max (num 1) x)
             | _ => num 5
             end)
            (js_or (field raw "quality_rationale") (VStr ""))
            (array_or_empty (field raw "objections"))
            (array_or_empty (field raw "prospect_questions"))
            (array_or_empty (field raw "key_quotes"))
            (array_or_empty (field raw "follow_up_actions"))
            (array_or_empty (field raw "counter_responses")))
  end.

(** [s.replace(/^```json\s*/i, "")] *)
Definition strip_json_fence (s : string) : string :=
  if Str.startsWith (Str.toLowerCase s) "```json"
  then Str.trimStart (Str.drop 7 s) else s.

(** [s.replace(/^```\s*/i, "")] *)
Definition strip_open_fence (s : string) : string :=
  if Str.startsWith s "```" then Str.trimStart (Str.drop 3 s) else s.

(** [s.replace(/\s*```$/i, "")]: the leftmost match takes the whole
    white-space run in front of the closing fence *)
Definition strip_close_fence (s : string) : string :=
  if Str.endsWith s "```"
  then Str.trimEnd (Str.take (Str.len s - 3) s) else s.

Definition strip_fences (text : string) : string :=
  Str.trim (strip_close_fence (strip_open_fence (strip_json_fence text))).

Definition TRUNCATION_MARKER : string :=
  Str.nl ++ Str.nl ++ "[Transcript truncated]".

(** the [userContent] of [extractSalesCall] *)
Definition userContent (transcript title summary : string) : string :=
  let contextParts := [] in
  let contextParts :=
    push_if (Str.truthy title)
      ("Meeting title: " ++ Str.dq ++ title ++ Str.dq) contextParts in
  let contextParts :=
    push_if (Str.truthy summary)
      ("Meeting summary: " ++ Str.dq ++ summary ++ Str.dq) contextParts in
  let contextParts :=
    (contextParts
       ++ [(Str.nl ++ "Transcript:" ++ Str.nl ++ transcript)%string])%list in
  Str.join Str.nl contextParts.

(** the [truncated] of [extractSalesCall] *)
Definition truncate (userContent : string) : string :=
  if (100000 <? Str.len userContent)%N
  then Str.take 100000 userContent ++ TRUNCATION_MARKER
  else userContent.

Definition valid_token (t : string) : option Classification :=
  if String.eqb t "sales_call" then Some sales_call
  else if String.eqb t "partner_call" then Some partner_call
  else if String.eqb t "internal" then Some internal
  else if String.eqb t "other" then Some other
  else None.

(** what [classifyByLLM] makes of the text of the answer *)
Definition clean_token (text : string) : string :=
  Str.keep_lower_underscore (Str.toLowerCase (Str.trim text)).

Definition category_of_answer (text : string) : Classification :=
  match valid_token (clean_token text) with
  | Some c => c
  | None => other
  end.

(** the prompt of [classifyByLLM] *)
Definition classification_prompt (data : RawMeetingData) : string :=
  let transcript := or_empty (transcript_text data) in
  let first500Words :=
    Str.join " " (firstn 500 (Str.split_ws transcript)) in
  let titleContext :=
    if truthy_opt (title data)
    then "Meeting title: " ++ Str.dq ++ or_empty (title data) ++ Str.dq
         ++ Str.nl
    else "" in
  let overviewContext :=
    if truthy_opt (summary_field overview data)
    then "Overview: " ++ Str.dq ++ or_empty (summary_field overview data)
         ++ Str.dq ++ Str.nl
    else "" in
  "Classify this meeting into exactly one category. Respond with ONLY the category name, nothing else."
  ++ Str.nl ++ Str.nl
  ++ "Categories:" ++ Str.nl
  ++ "- sales_call: Discusses smart contract audits, security retainers, lifecycle security, pricing, proposals, scope, or timelines with a prospect"
  ++ Str.nl
  ++ "- partner_call: Discussion with existing partners, vendors, conferences, or integrations"
  ++ Str.nl
  ++ "- internal: Internal team meeting (standup, sprint, 1:1, etc.)"
  ++ Str.nl
  ++ "- other: Recruiting, legal, admin, or anything else"
  ++ Str.nl ++ Str.nl
  ++ titleContext ++ overviewContext ++ Str.nl
  ++ "Transcript excerpt:" ++ Str.nl
  ++ first500Words ++ Str.nl ++ Str.nl
  ++ "Category:".

Definition HAIKU : string := "claude-haiku-4-5-20251001".

Definition classification_request (data : RawMeetingData) : Request :=
  mkRequest HAIKU 50 (classification_prompt data).


(** ** Sample transcripts

    A few transcripts as the ingestion pulls them, and a store with a
    company, a team member and a contact. *)

Module Pulled.

Definition sentences : list Sentence :=
  [ mkSentence "Alice" "we need an audit of our contracts.";
    mkSentence "Bob" "what is the pricing for a retainer?" ].

(** a sales meeting: one internal and one outside participant *)
Definition sales : FirefliesTranscript :=
  mkFirefliesTranscript "ff-10" (Some "Acme audit pricing proposal")
    (Some (num 1700000000000)) (Some (Fin (61 # 2))) None
    (Some "Jane@Sherlock.xyz") None (Some ["bob@acme.io"]) None
    (Some sentences) None.

(** a meeting of internal participants only *)
Definition standup : FirefliesTranscript :=
  mkFirefliesTranscript "ff-11" (Some "Daily standup")
    None None None
    (Some "jane@sherlock.xyz") (Some "joe@sherlock.xyz") None None
    (Some sentences) None.

(** a meeting without title, summary and sentences, with an outside
    participant *)
Definition bare : FirefliesTranscript :=
  mkFirefliesTranscript "ff-12" None None None None
    (Some "jane@sherlock.xyz") None (Some ["bob@acme.io"]) None
    None None.

(** the service holds three transcripts *)
Definition api : Ingest.Api :=
  fun n skip =>
    match n with
    | O => Some [sales; standup; bare]
    | _ => Some []
    end.

(** a store that knows Acme, Jane and Bob *)
Definition crm : Store :=
  mkStore []
    [ mkCompany 10 "Acme" None None; mkCompany 11 "Other" None None ]
    [ mkTeamMember 20 "Jane" "jane@sherlock.xyz" ]
    [ mkProspectContact 30 "Bob" None (Some 10%N) ]
    [] [] [] [] [] [] [] [] [] [] [].

Definition crm_world : World := mkWorld crm 1000 40 [] [] [].

End Pulled.
(** ** Sample data

    A seeded store, a few meetings and three environments, used to run
    the pipeline on concrete inputs. *)

Module Sample.

Definition seeded (meetings : list RawMeeting) : Store :=
  mkStore meetings [] [] []
    [ mkObjection 100 "budget_timing" "Budget / Timing" None;
      mkObjection 101 "scope_concerns" "Scope Concerns" None ]
    [ mkTechnology 200 "Solidity" (Some "language");
      mkTechnology 201 "Foundry" (Some "framework") ]
    [] [] [] [] [] [] [] [] [].

Definition world (meetings : list RawMeeting) : World :=
  mkWorld (seeded meetings) 1000 1 [] [] [].

Definition no_stats : Stats := mkStats 1 0 0 0 0 0 0 0.

Definition no_summary : option Summary := None.

(** a sales meeting: three sales keywords in the title, one internal and
    one external participant, a transcript of 60 characters *)
Definition sales_data : RawMeetingData :=
  mkRawMeetingData (Some "Acme audit pricing proposal") None None
    (Some "jane@sherlock.xyz") (Some "bob@acme.io")
    (Some "Alice: we need an audit of our contracts. Bob: what pricing?")
    no_summary (Some (num 1700000000000)) (Some (Fin (61 # 2))) None.

Definition sales_meeting : RawMeeting :=
  mkRawMeeting 1 "ff-1" (Some "Acme audit pricing proposal") None None
    (Some sales_data) None None.

(** the same meeting with a transcript of exactly 50 characters *)
Definition fifty : string :=
  "Alice: we need an audit. Bob: what is the pricing?".

Definition fifty_data : RawMeetingData :=
  mkRawMeetingData (Some "Acme audit pricing proposal") None None
    (Some "jane@sherlock.xyz") (Some "bob@acme.io")
    (Some fifty) no_summary None None None.

Definition fifty_meeting : RawMeeting :=
  mkRawMeeting 4 "ff-4" (Some "Acme audit pricing proposal") None None
    (Some fifty_data) None None.

(** the same meeting with a transcript of 12 characters *)
Definition short_data : RawMeetingData :=
  mkRawMeetingData (Some "Acme audit pricing proposal") None None
    (Some "jane@sherlock.xyz") (Some "bob@acme.io")
    (Some "Alice: hello") no_summary None None None.

Definition short_meeting : RawMeeting :=
  mkRawMeeting 5 "ff-5" (Some "Acme audit pricing proposal") None None
    (Some short_data) None None.

(** a meeting the rules cannot place: no title, no summary, an external
    participant *)
Definition vague_data : RawMeetingData :=
  mkRawMeetingData None None None
    (Some "jane@sherlock.xyz") (Some "bob@acme.io")
    (Some "Bob: hi") no_summary None None None.

Definition vague_meeting : RawMeeting :=
  mkRawMeeting 2 "ff-2" None None None (Some vague_data) None None.

(** a meeting already processed *)
Definition old_meeting : RawMeeting :=
  mkRawMeeting 3 "ff-3" (Some "Weekly sync") None None None
    (Some "internal") (Some 500%Z).

(** a meeting of internal participants only *)
Definition internal_data : RawMeetingData :=
  mkRawMeetingData (Some "Acme audit pricing proposal")
    (Some ["Jane@Sherlock.xyz"; "not an address"]) None
    (Some "jane@sherlock.xyz") (Some "joe@sherlock.xyz")
    None no_summary None None None.

(** the opening sentence of the instruction text *)
Definition prompt : string :=
  "You are analyzing a sales call transcript from Sherlock, a smart contract security company. Extract structured data from this transcript.".

Definition fenced_empty_object : string :=
  "```json" ++ Str.nl ++ "{}" ++ Str.nl ++ "```".

(** the document [{"team_members":[null]}] *)
Definition null_member_document : string :=
  "{" ++ Str.dq ++ "team_members" ++ Str.dq ++ ":[null]}".

(** a parser that knows two documents *)
Definition parse (s : string) : option value :=
  if String.eqb s "{}" then Some (VObj [])
  else if String.eqb s null_member_document
       then Some (VObj [("team_members", VArr [VNull])])
       else None.

(** the classification request rejects; the extraction request is answered
    by [answer] *)
Definition reply (answer : string) (n : N) (r : Request) : option string :=
  if (max_tokens r =? 50)%N then None else Some answer.

Definition no_latency (n : N) : N := 0.

Definition no_fault (n : N) (st : Statement) : bool := false.

(** the store rejects every insertion of a call *)
Definition calls_fault (n : N) (st : Statement) : bool :=
  match st with
  | SqlInsert T_calls => true
  | _ => false
  end.

Definition strings_only (v : value) : option string := None.

(** the model answers with an empty object in a fence *)
Definition env_ok : Env :=
  mkEnv None prompt (reply fenced_empty_object) no_latency parse
    no_fault no_latency strings_only.

(** the model answers in prose *)
Definition env_prose : Env :=
  mkEnv None prompt (reply "Sorry, I cannot help with that.") no_latency
    parse no_fault no_latency strings_only.

(** the model answers with a null team member *)
Definition env_null_member : Env :=
  mkEnv None prompt (reply null_member_document) no_latency parse
    no_fault no_latency strings_only.

(** the classification request is answered by [category], the
    extraction request by [answer] *)
Definition says (category answer : string) (n : N) (r : Request)
  : option string :=
  if (max_tokens r =? 50)%N then Some category else Some answer.

(** the model names the category with capitals, a space in front and a
    full stop and a line break behind *)
Definition env_says_sales : Env :=
  mkEnv None prompt (says (" Sales_Call." ++ Str.nl) fenced_empty_object)
    no_latency parse no_fault no_latency strings_only.

(** the model answers the classification request with a sentence *)
Definition env_says_sentence : Env :=
  mkEnv None prompt
    (says "This looks like a sales_call." fenced_empty_object)
    no_latency parse no_fault no_latency strings_only.

(** the store rejects the calls *)
Definition env_calls_fault : Env :=
  mkEnv None prompt (reply fenced_empty_object) no_latency parse
    calls_fault no_latency strings_only.

Fixpoint doubled (k : nat) (s : string) : string :=
  match k with
  | O => s
  | S k' => doubled k' (s ++ s)
  end.

(** a transcript of 131072 characters *)
Definition long_transcript : string := doubled 17 "a".

(** a parsed answer with an out-of-range score and strings outside the
    documented values *)
Definition odd_answer : value :=
  VObj [ ("call_type", VStr "demo");
         ("offering_pitched", VStr "bug bounty");
         ("call_outcome", VStr "ghosted");
         ("company_name", VStr "Acme Protocol");
         ("call_quality_score", VNum (num 12));
         ("tech_stack", VArr [VStr "Solidity"; VStr "Haskell"]) ].

End Sample.

Section Pipeline.

Variable env : Env.

Definition SHERLOCK_DOMAIN : string :=
  domain_or_default (SHERLOCK_EMAIL_DOMAIN env).

(** ** The language-model service *)

(** [(await client.messages.create(r)).content[0].text]: the request is
    recorded, time passes, and the call answers or throws. *)
Definition messages_create (r : Request) : M string :=
  fun w =>
    let n := N.of_nat (length (llm_log w)) in
    let w' :=
      set_now (now w + llm_latency env n)%N
        (set_llm_log (llm_log w ++ [r])%list w) in
    match llm_reply env n r with
    | Some text => (Ok text, w')
    | None => (Throw ApiError, w')
    end.

(** ** The classifier: LLM tier and entry point *)

Definition classifyByLLM (data : RawMeetingData) : M Classification :=
  text <- messages_create (classification_request data) ;;
  ret (category_of_answer text).

Definition classifyMeeting (data : RawMeetingData) : M Classification :=
  match classifyByRules SHERLOCK_DOMAIN data with
  | Some ruleResult => ret ruleResult
  | None => classifyByLLM data
  end.

(** ** The extractor *)

Definition extraction_request (transcript title summary : string) : Request :=
  mkRequest HAIKU 4096
    (EXTRACTION_PROMPT env ++ Str.nl ++ Str.nl
       ++ truncate (userContent transcript title summary)).

Definition extractSalesCall (transcript title summary : string)
  : M ExtractionResult :=
  response <- messages_create (extraction_request transcript title summary) ;;
  let text := Str.trim response in
  let jsonStr := strip_fences text in
  match JSON_parse env jsonStr with
  | Some parsed =>
      match normalizeResult parsed with
      | Ok r => ret r
      | Throw _ =>
          console_log (LogJsonParseError (Str.take 500 text)) ;;
          throw ParseError
      end
  | None =>
      console_log (LogJsonParseError (Str.take 500 text)) ;;
      throw ParseError
  end.

(** ** Talking to the store *)

(** One statement: it is logged, time passes, and the store may reject it. *)
Definition stmt (st : Statement) : M unit :=
  fun w =>
    let n := N.of_nat (length (db_log w)) in
    let w' :=
      set_now (now w + db_latency env n)%N
        (set_db_log (db_log w ++ [st])%list w) in
    if db_fault env n st then (Throw DbError, w') else (Ok tt, w').

Definition read_db : M Store := fun w => (Ok (db w), w).

Definition write_db (f : Store -> Store) : M unit :=
  fun w => (Ok tt, set_db f w).

Definition varchar_ok (limit : option N) (s : string) : bool :=
  match limit with
  | Some n => (Str.len s <=? n)%N
  | None => true
  end.

(** the text a JavaScript value stands for as the parameter of an
    equality test: [None] for [null], which equals nothing, and for a
    value the driver refuses *)
Definition where_text (v : value) : option string :=
  match v with
  | VStr s => Some s
  | VNull => None
  | _ => bind_other env v
  end.

(** binding the parameter of an equality test; [None] is SQL [NULL] *)
Definition where_param (v : value) : M (option string) :=
  match where_text v with
  | Some s => ret (Some s)
  | None =>
      match v with
      | VNull => ret None
      | _ => throw DbError
      end
  end.

(** the text a JavaScript value is written as to a [text] or [varchar]
    column; [None] for [null] and for [undefined], which leave the column
    [NULL], and for a value the driver refuses *)
Definition column_text (v : value) : option string :=
  match v with
  | VStr s => Some s
  | VNull | VUndef => None
  | _ => bind_other env v
  end.

Definition column_param (v : value) : M (option string) :=
  match column_text v with
  | Some s => ret (Some s)
  | None =>
      match v with
      | VNull | VUndef => ret None
      | _ => throw DbError
      end
  end.

(** a nullable [varchar(limit)] or [text] column *)
Definition nullable (limit : option N) (o : option string)
  : M (option string) :=
  match o with
  | Some s => check (varchar_ok limit s) ;; ret (Some s)
  | None => ret None
  end.

(** a [NOT NULL] column *)
Definition not_null (limit : option N) (o : option string) : M string :=
  match o with
  | Some s => check (varchar_ok limit s) ;; ret s
  | None => throw DbError
  end.

Definition INT4_MIN : Z := (-2147483648)%Z.
Definition INT4_MAX : Z := 2147483647%Z.

(** a number written to an [integer] column *)
Definition integer_param (x : number) : M Z :=
  match x with
  | Fin q =>
      let z := Qfloor q in
      check (Qeq_bool q (inject_Z z)
             && (INT4_MIN <=? z)%Z && (z <=? INT4_MAX)%Z) ;;
      ret z
  | _ => throw DbError
  end.

(** a [Date] written to a [timestamp] column: an invalid date cannot be
    serialised *)
Definition timestamp_param (d : number) : M Z :=
  match d with
  | Fin q => ret (Qfloor q)
  | _ => throw DbError
  end.

Definition opt_param {A B : Type} (f : A -> M B) (o : option A)
  : M (option B) :=
  match o with
  | Some a => b <- f a ;; ret (Some b)
  | None => ret None
  end.

(** [o || null] for an optional string property *)
Definition or_null (o : option string) : option string :=
  if truthy_opt o then o else None.

(** ** Lookup / upsert helpers *)

Definition find_company (s : Store) (name : string) : option Company :=
  find (fun c => String.eqb (co_name c) name) (t_companies s).

Definition find_team_member (s : Store) (email : string) : option TeamMember :=
  find (fun m => String.eqb (tm_email m) email) (t_teamMembers s).

Definition find_prospect_contact (s : Store) (name : string)
  : option ProspectContact :=
  find (fun p => String.eqb (pc_name p) name) (t_prospectContacts s).

Definition find_objection (s : Store) (typeKey : string) : option Objection :=
  find (fun o => String.eqb (ob_typeKey o) typeKey) (t_objections s).

Definition find_technology (s : Store) (name : string) : option Technology :=
  find (fun t => String.eqb (te_name t) name) (t_technologies s).

(** [db.insert(companies).values({ name, firstSeenDate }).returning(id)] *)
Definition insert_company (name : string) (firstSeenDate : number) : M N :=
  ts <- timestamp_param firstSeenDate ;;
  stmt (SqlInsert T_companies) ;;
  check (varchar_ok (Some 255%N) name) ;;
  s <- read_db ;;
  check (match find_company s name with Some _ => false | None => true end) ;;
  id <- gen_random_uuid ;;
  write_db (upd_companies
              (fun rows => rows ++ [mkCompany id name None (Some ts)])%list) ;;
  ret id.

(** [date || new Date()] *)
Definition date_or_now (date : option number) : M number :=
  match date with
  | Some d => ret d
  | None => t <- Date_now ;; ret (num (Z.of_N t))
  end.

Definition getOrCreateCompany (name : value) (date : option number) : M N :=
  normalized <- lift (js_trim name) ;;
  if negb (Str.truthy normalized) || String.eqb normalized "Unknown" then
    t <- Date_now ;;
    first <- date_or_now date ;;
    insert_company ("Unknown-" ++ Str.of_N t) first
  else
    stmt (SqlSelect T_companies) ;;
    s <- read_db ;;
    match find_company s normalized with
    | Some c => ret (co_id c)
    | None =>
        first <- date_or_now date ;;
        insert_company normalized first
    end.

(** [db.insert(teamMembers).values({ name, email }).returning(id)] *)
Definition insert_team_member (name email : string) : M N :=
  stmt (SqlInsert T_teamMembers) ;;
  check (varchar_ok (Some 255%N) name) ;;
  check (varchar_ok (Some 255%N) email) ;;
  s <- read_db ;;
  check (match find_team_member s email with
         | Some _ => false
         | None => true
         end) ;;
  id <- gen_random_uuid ;;
  write_db (upd_teamMembers
              (fun rows => rows ++ [mkTeamMember id name email])%list) ;;
  ret id.

(** [(email || "").trim().toLowerCase()] *)
Definition normalizeEmail (email : value) : result string :=
  match js_trim (js_or email (VStr "")) with
  | Ok s => Ok (Str.toLowerCase s)
  | Throw e => Throw e
  end.

(** the [slug] of [getOrCreateTeamMember] *)
Definition slug_of (trimmed_name : string) : string :=
  Str.keep_lower_dot (Str.ws_runs_to_dot (Str.toLowerCase trimmed_name)).

(** the [placeholderEmail] of [getOrCreateTeamMember], from [name.trim()] *)
Definition placeholder_for (trimmed_name : string) : string :=
  let slug := slug_of trimmed_name in
  (if Str.truthy slug then slug else "unknown") ++ "@" ++ SHERLOCK_DOMAIN.


Definition getOrCreateTeamMember (name email : value) : M N :=
  normalizedEmail <- lift (normalizeEmail email) ;;
  if negb (Str.truthy normalizedEmail)
     || negb (Str.includes normalizedEmail "@") then
    trimmed <- lift (js_trim name) ;;
    let placeholder := placeholder_for trimmed in
    stmt (SqlSelect T_teamMembers) ;;
    s <- read_db ;;
    match find_team_member s placeholder with
    | Some m => ret (tm_id m)
    | None =>
        trimmed <- lift (js_trim name) ;;
        insert_team_member
          (if Str.truthy trimmed then trimmed else "Unknown") placeholder
    end
  else
    stmt (SqlSelect T_teamMembers) ;;
    s <- read_db ;;
    match find_team_member s normalizedEmail with
    | Some m => ret (tm_id m)
    | None =>
        trimmed <- lift (js_trim name) ;;
        insert_team_member trimmed normalizedEmail
    end.

Definition getOrCreateProspectContact (name role : value) (companyId : N)
  : M N :=
  trimmed <- lift (js_trim name) ;;
  stmt (SqlSelect T_prospectContacts) ;;
  s <- read_db ;;
  match find_prospect_contact s trimmed with
  | Some p => ret (pc_id p)
  | None =>
      trimmed <- lift (js_trim name) ;;
      role <- column_param (js_or role VNull) ;;
      stmt (SqlInsert T_prospectContacts) ;;
      check (varchar_ok (Some 255%N) trimmed) ;;
      role <- nullable (Some 255%N) role ;;
      id <- gen_random_uuid ;;
      write_db (upd_prospectContacts
                  (fun rows =>
                     rows ++ [mkProspectContact id trimmed role
                                (Some companyId)])%list) ;;
      ret id
  end.

Definition getObjectionId (typeKey : value) : M (option N) :=
  key <- where_param typeKey ;;
  stmt (SqlSelect T_objections) ;;
  s <- read_db ;;
  ret (match key with
       | Some k => option_map ob_id (find_objection s k)
       | None => None
       end).

Definition getTechnologyId (name : value) : M (option N) :=
  key <- where_param name ;;
  stmt (SqlSelect T_technologies) ;;
  s <- read_db ;;
  ret (match key with
       | Some k => option_map te_id (find_technology s k)
       | None => None
       end).

(** ** Store extraction results *)

Definition insert_call (rawMeetingId : N) (rawData : RawMeetingData)
  (extraction : ExtractionResult) (companyId : N)
  (meetingDate duration : option number) : M N :=
  callType <- column_param (call_type extraction) ;;
  offeringPitched <- column_param (offering_pitched extraction) ;;
  callOutcome <- column_param (call_outcome extraction) ;;
  dealSize <- column_param (deal_size extraction) ;;
  qualityRationale <- column_param (quality_rationale extraction) ;;
  date <- opt_param timestamp_param meetingDate ;;
  stmt (SqlInsert T_calls) ;;
  callType <- nullable (Some 50%N) callType ;;
  offeringPitched <- nullable (Some 50%N) offeringPitched ;;
  callOutcome <- nullable (Some 100%N) callOutcome ;;
  dealSize <- nullable (Some 100%N) dealSize ;;
  callQualityScore <- integer_param (call_quality_score extraction) ;;
  firefliesUrl <- nullable (Some 500%N) (or_null (transcript_url rawData)) ;;
  duration <- opt_param integer_param duration ;;
  id <- gen_random_uuid ;;
  write_db
    (upd_calls
       (fun rows =>
          rows ++ [mkCall id (Some rawMeetingId) callType offeringPitched
                     (Some companyId) callOutcome dealSize
                     (Some callQualityScore) qualityRationale
                     (or_null (transcript_text rawData))
                     (if truthy_opt (summary_field overview rawData)
                      then summary_field overview rawData
                      else or_null (summary_field short_summary rawData))
                     firefliesUrl date duration])%list) ;;
  ret id.

(** the body of loop 3, team members *)
Definition link_team_member (callId : N) (tm : value) : M unit :=
  try_catch
    (name <- lift (prop tm "name") ;;
     email <- lift (prop tm "email") ;;
     tmId <- getOrCreateTeamMember name email ;;
     stmt (SqlInsert T_callTeamMembers) ;;
     id <- gen_random_uuid ;;
     write_db (upd_callTeamMembers
                 (fun rows => rows ++ [mkCallTeamMember id callId tmId])%list))
    (fun _ =>
       (* the warning interpolates [tm.name] *)
       name <- lift (prop tm "name") ;;
       lift (template name) ;;
       console_log LogLinkTeamMemberFailed).

(** the body of loop 4, prospect contacts *)
Definition link_prospect (callId companyId : N) (pc : value) : M unit :=
  try_catch
    (name <- lift (prop pc "name") ;;
     role <- lift (prop pc "role") ;;
     pcId <- getOrCreateProspectContact name role companyId ;;
     stmt (SqlInsert T_callProspectContacts) ;;
     id <- gen_random_uuid ;;
     write_db (upd_callProspectContacts
                 (fun rows =>
                    rows ++ [mkCallProspectContact id callId pcId])%list))
    (fun _ =>
       (* the warning interpolates [pc.name] *)
       name <- lift (prop pc "name") ;;
       lift (template name) ;;
       console_log LogLinkProspectFailed).

(** the body of loop 5, technologies *)
Definition link_technology (callId : N) (tech : value) : M unit :=
  try_catch
    (techId <- getTechnologyId tech ;;
     match techId with
     | Some technologyId =>
         stmt (SqlInsert T_callTechnologies) ;;
         id <- gen_random_uuid ;;
         write_db (upd_callTechnologies
                     (fun rows =>
                        rows ++ [mkCallTechnology id callId technologyId])%list)
     | None => ret tt
     end)
    (fun _ => ret tt).

(** the body of loop 6, objections *)
Definition link_objection (callId : N) (obj : value) : M unit :=
  try_catch
    (typeKey <- lift (prop obj "type_key") ;;
     objId <- getObjectionId typeKey ;;
     match objId with
     | Some objectionId =>
         quote <- lift (prop obj "quote") ;;
         context <- lift (prop obj "context") ;;
         quote <- column_param (js_or quote VNull) ;;
         context <- column_param (js_or context VNull) ;;
         stmt (SqlInsert T_callObjections) ;;
         id <- gen_random_uuid ;;
         write_db (upd_callObjections
                     (fun rows =>
                        rows ++ [mkCallObjection id callId objectionId
                                   quote context])%list)
     | None => ret tt
     end)
    (fun _ => ret tt).

(** the body of loop 7, follow-up actions *)
Definition add_follow_up (callId : N) (fu : value) : M unit :=
  try_catch
    (actionText <- lift (prop fu "action_text") ;;
     assignedTo <- lift (prop fu "assigned_to") ;;
     actionText <- column_param actionText ;;
     assignedTo <- column_param (js_or assignedTo VNull) ;;
     stmt (SqlInsert T_callFollowUps) ;;
     actionText <- not_null None actionText ;;
     assignedTo <- nullable (Some 255%N) assignedTo ;;
     id <- gen_random_uuid ;;
     write_db (upd_callFollowUps
                 (fun rows =>
                    rows ++ [mkCallFollowUp id callId actionText
                               assignedTo])%list))
    (fun _ => ret tt).

(** the body of loop 8, prospect questions *)
Definition add_question (callId : N) (q : value) : M unit :=
  try_catch
    (if truthy q then
       trimmed <- lift (js_trim q) ;;
       if Str.truthy trimmed then
         questionText <- lift (js_trim q) ;;
         stmt (SqlInsert T_prospectQuestions) ;;
         id <- gen_random_uuid ;;
         write_db (upd_prospectQuestions
                     (fun rows =>
                        rows ++ [mkProspectQuestion id callId
                                   questionText])%list)
       else ret tt
     else ret tt)
    (fun _ => ret tt).

(** the body of loop 9, key quotes *)
Definition add_key_quote (callId : N) (kq : value) : M unit :=
  try_catch
    (speaker <- lift (prop kq "speaker") ;;
     quoteText <- lift (prop kq "quote_text") ;;
     context <- lift (prop kq "context") ;;
     speaker <- column_param (js_or speaker VNull) ;;
     quoteText <- column_param quoteText ;;
     context <- column_param (js_or context VNull) ;;
     stmt (SqlInsert T_keyQuotes) ;;
     speaker <- nullable (Some 255%N) speaker ;;
     quoteText <- not_null None quoteText ;;
     id <- gen_random_uuid ;;
     write_db (upd_keyQuotes
                 (fun rows =>
                    rows ++ [mkKeyQuote id callId speaker quoteText
                               context])%list))
    (fun _ => ret tt).

(** the body of loop 10, counter responses *)
Definition add_counter_response (callId : N) (cr : value) : M unit :=
  try_catch
    (typeKey <- lift (prop cr "objection_type_key") ;;
     objId <- getObjectionId typeKey ;;
     match objId with
     | Some objectionId =>
         responseText <- lift (prop cr "response_text") ;;
         outcome <- lift (prop cr "outcome") ;;
         responseText <- column_param responseText ;;
         outcome <- column_param (js_or outcome VNull) ;;
         stmt (SqlInsert T_counterResponses) ;;
         responseText <- not_null None responseText ;;
         outcome <- nullable (Some 100%N) outcome ;;
         id <- gen_random_uuid ;;
         write_db (upd_counterResponses
                     (fun rows =>
                        rows ++ [mkCounterResponse id objectionId callId
                                   responseText outcome])%list)
     | None => ret tt
     end)
    (fun _ => ret tt).

(** [x ? f(x) : null] for an optional number *)
Definition if_truthy (f : number -> number) (o : option number)
  : option number :=
  match o with
  | Some x => if num_truthy x then Some (f x) else None
  | None => None
  end.

Definition storeExtraction (rawMeetingId : N) (rawData : RawMeetingData)
  (extraction : ExtractionResult) : M unit :=
  let meetingDate := if_truthy Date_of_number (date rawData) in
  let duration := if_truthy Math_round (duration rawData) in
  companyId <- getOrCreateCompany (company_name extraction) meetingDate ;;
  callId <- insert_call rawMeetingId rawData extraction companyId
              meetingDate duration ;;
  for_each (team_members extraction) (link_team_member callId) ;;
  for_each (prospect_names extraction) (link_prospect callId companyId) ;;
  for_each (tech_stack extraction) (link_technology callId) ;;
  for_each (objections extraction) (link_objection callId) ;;
  for_each (follow_up_actions extraction) (add_follow_up callId) ;;
  for_each (prospect_questions extraction) (add_question callId) ;;
  for_each (key_quotes extraction) (add_key_quote callId) ;;
  for_each (counter_responses extraction) (add_counter_response callId).

(** ** Main pipeline *)

Definition API_DELAY : N := 1500.

Definition MIN_TRANSCRIPT : N := 50.

Definition is_unprocessed (m : RawMeeting) : bool :=
  match rm_processedAt m with
  | None => true
  | Some _ => false
  end.

(** [db.select().from(rawMeetings).where(isNull(rawMeetings.processedAt))] *)
Definition select_unprocessed : M (list RawMeeting) :=
  stmt (SqlSelect T_rawMeetings) ;;
  s <- read_db ;;
  ret (filter is_unprocessed (t_rawMeetings s)).

Definition with_classification (c : string) (m : RawMeeting) : RawMeeting :=
  mkRawMeeting (rm_id m) (rm_firefliesId m) (rm_title m) (rm_date m)
    (rm_duration m) (rm_rawJson m) (Some c) (rm_processedAt m).

Definition with_processedAt (t : Z) (m : RawMeeting) : RawMeeting :=
  mkRawMeeting (rm_id m) (rm_firefliesId m) (rm_title m) (rm_date m)
    (rm_duration m) (rm_rawJson m) (rm_classification m) (Some t).

(** [UPDATE raw_meetings SET ... WHERE id = ...] *)
Definition update_where_id (id : N) (f : RawMeeting -> RawMeeting)
  (rows : list RawMeeting) : list RawMeeting :=
  map (fun m => if (rm_id m =? id)%N then f m else m) rows.

Definition set_classification (id : N) (c : Classification) : M unit :=
  stmt (SqlSetClassification id (Classification_name c)) ;;
  write_db (upd_rawMeetings
              (update_where_id id
                 (with_classification (Classification_name c)))).

Definition mark_processed (id : N) : M unit :=
  t <- Date_now ;;
  stmt (SqlSetProcessedAt id (Z.of_N t)) ;;
  write_db (upd_rawMeetings
              (update_where_id id (with_processedAt (Z.of_N t)))).

(** [stats[classification]++] *)
Definition count_classification (c : Classification) (s : Stats) : Stats :=
  match c with
  | sales_call =>
      mkStats (st_total s) (S (st_sales_call s)) (st_partner_call s)
        (st_internal s) (st_other s) (st_extracted s)
        (st_extractionErrors s) (st_classificationLLMCalls s)
  | partner_call =>
      mkStats (st_total s) (st_sales_call s) (S (st_partner_call s))
        (st_internal s) (st_other s) (st_extracted s)
        (st_extractionErrors s) (st_classificationLLMCalls s)
  | internal =>
      mkStats (st_total s) (st_sales_call s) (st_partner_call s)
        (S (st_internal s)) (st_other s) (st_extracted s)
        (st_extractionErrors s) (st_classificationLLMCalls s)
  | other =>
      mkStats (st_total s) (st_sales_call s) (st_partner_call s)
        (st_internal s) (S (st_other s)) (st_extracted s)
        (st_extractionErrors s) (st_classificationLLMCalls s)
  end.

(** [stats.extracted++] *)
Definition count_extracted (s : Stats) : Stats :=
  mkStats (st_total s) (st_sales_call s) (st_partner_call s)
    (st_internal s) (st_other s) (S (st_extracted s))
    (st_extractionErrors s) (st_classificationLLMCalls s).

(** [stats.extractionErrors++] *)
Definition count_extraction_error (s : Stats) : Stats :=
  mkStats (st_total s) (st_sales_call s) (st_partner_call s)
    (st_internal s) (st_other s) (st_extracted s)
    (S (st_extractionErrors s)) (st_classificationLLMCalls s).

(** [meeting.title || rawData?.title || "Untitled"] *)
Definition title_of (meeting : RawMeeting) : string :=
  if truthy_opt (rm_title meeting) then or_empty (rm_title meeting)
  else
    match rm_rawJson meeting with
    | Some rawData =>
        if truthy_opt (title rawData) then or_empty (title rawData)
        else "Untitled"
    | None => "Untitled"
    end.

(** [rawData?.transcript_text || ""] *)
Definition transcript_of (meeting : RawMeeting) : string :=
  match rm_rawJson meeting with
  | Some rawData => or_empty (transcript_text rawData)
  | None => ""
  end.

(** [rawData?.summary?.overview || ""] *)
Definition overview_of (meeting : RawMeeting) : string :=
  match rm_rawJson meeting with
  | Some rawData => or_empty (summary_field overview rawData)
  | None => ""
  end.

(** Step 1 of the loop body: classify, count, write the classification
    back. *)
Definition classify_step (i total : nat) (meeting : RawMeeting)
  (stats : Stats) : M (Classification * Stats) :=
  console_log (LogMeeting (i + 1) total (title_of meeting)) ;;
  classification <-
    try_catch
      (c <- classifyMeeting
              (match rm_rawJson meeting with
               | Some rawData => rawData
               | None => empty_data
               end) ;;
       console_log (LogClassification c) ;;
       ret c)
      (fun _ => console_log LogClassificationFailed ;; ret other) ;;
  let stats := count_classification classification stats in
  set_classification (rm_id meeting) classification ;;
  ret (classification, stats).

(** the body of the [try] of step 2 *)
Definition extract_and_store (meeting : RawMeeting) (stats : Stats)
  : M Stats :=
  let transcript := transcript_of meeting in
  let overview := overview_of meeting in
  if negb (Str.truthy transcript) || (Str.len transcript <? MIN_TRANSCRIPT)%N
  then
    console_log LogSkipTooShort ;;
    ret stats
  else
    sleep API_DELAY ;;
    extraction <- extractSalesCall transcript (title_of meeting) overview ;;
    (* the message interpolates the three properties *)
    lift (template (company_name extraction)) ;;
    lift (template (call_type extraction)) ;;
    lift (template (offering_pitched extraction)) ;;
    console_log (LogExtracted (company_name extraction)
                   (call_type extraction) (offering_pitched extraction)
                   (call_quality_score extraction)) ;;
    match rm_rawJson meeting with
    | Some rawData => storeExtraction (rm_id meeting) rawData extraction
    | None => throw TypeError
    end ;;
    ret (count_extracted stats).

(** Step 2 of the loop body: extract, only for sales calls. *)
Definition extract_step (meeting : RawMeeting)
  (classification : Classification) (stats : Stats) : M Stats :=
  match classification with
  | sales_call =>
      try_catch (extract_and_store meeting stats)
        (fun _ =>
           console_log LogExtractionError ;;
           ret (count_extraction_error stats))
  | _ => ret stats
  end.

(** the body of the loop of [main] *)
Definition process_meeting (i total : nat) (meeting : RawMeeting)
  (stats : Stats) : M Stats :=
  cs <- classify_step i total meeting stats ;;
  stats <- extract_step meeting (fst cs) (snd cs) ;;
  mark_processed (rm_id meeting) ;;
  ret stats.

Fixpoint process_from (i total : nat) (unprocessed : list RawMeeting)
  (stats : Stats) : M Stats :=
  match unprocessed with
  | [] => ret stats
  | meeting :: rest =>
      stats <- process_meeting i total meeting stats ;;
      process_from (S i) total rest stats
  end.

(** [main]: [None] when there was nothing to process, the final counts
    otherwise; in both cases the process then exits with status 0. *)
Definition main : M (option Stats) :=
  console_log LogBanner ;;
  unprocessed <- select_unprocessed ;;
  console_log (LogFound (length unprocessed)) ;;
  match unprocessed with
  | [] =>
      console_log LogNothingToProcess ;;
      ret None
  | _ =>
      let stats := mkStats (length unprocessed) 0 0 0 0 0 0 0 in
      stats <- process_from 0 (length unprocessed) unprocessed stats ;;
      console_log (LogSummary stats) ;;
      ret (Some stats)
  end.

(** [main().catch(...)]: the exit status of the process *)
Definition run (w : World) : N * World :=
  match main w with
  | (Ok _, w') => (0%N, w')
  | (Throw _, w') => (1%N, w')
  end.

(** ** Vocabulary of the statements about the driver *)

(** [st] sets the processed timestamp of the record [id] *)
Definition is_mark (id : N) (st : Statement) : bool :=
  match st with
  | SqlSetProcessedAt id' _ => (id' =? id)%N
  | _ => false
  end.

(** how many times the log sets the processed timestamp of [id] *)
Definition marks (id : N) (log : list Statement) : nat :=
  length (filter (is_mark id) log).

Definition is_processed (m : RawMeeting) : Prop := rm_processedAt m <> None.

(** the store accepts every statement on [raw_meetings] *)
Definition raw_meetings_reachable : Prop :=
  forall n st, table_of st = T_rawMeetings -> db_fault env n st = false.

(** ** Vocabulary of the statements about runs *)

(** the world after a statement has been sent *)
Definition sent (st : Statement) (w : World) : World :=
  set_now (now w + db_latency env (N.of_nat (length (db_log w))))%N
    (set_db_log (db_log w ++ [st])%list w).

(** the world after a request has been sent *)
Definition asked (r : Request) (w : World) : World :=
  set_now (now w + llm_latency env (N.of_nat (length (llm_log w))))%N
    (set_llm_log (llm_log w ++ [r])%list w).

(** [post c w Q]: running [c] from [w] gives a result and a world that
    satisfy [Q]. *)
Definition post {A : Type} (c : M A) (w : World)
  (Q : result A -> World -> Prop) : Prop :=
  Q (fst (c w)) (snd (c w)).

(** [keeps R c]: every run of [c], normal or not, relates the world
    before to the world after by [R]. *)
Definition keeps (R : World -> World -> Prop) {A : Type} (c : M A) : Prop :=
  forall w, R w (snd (c w)).

(** Computations that only compute: the world is left as it is. *)
Definition pure_op {A : Type} (c : M A) : Prop :=
  forall w, snd (c w) = w.

(** the two vocabulary tables are the same *)
Definition same_vocabulary (w w' : World) : Prop :=
  t_objections (db w') = t_objections (db w)
  /\ t_technologies (db w') = t_technologies (db w).

(** [untouched proj w w']: the vocabulary and the table [proj] are the
    same. *)
Definition untouched {X : Type} (proj : Store -> list X) (w w' : World)
  : Prop :=
  same_vocabulary w w' /\ proj (db w') = proj (db w).

(** [links proj good xs w w']: the vocabulary is the same, and the table
    [proj] has gained rows that are all [good] for some entry of [xs]. *)
Definition links {A X : Type} (proj : Store -> list X)
  (good : Store -> A -> X -> Prop) (xs : list A) (w w' : World) : Prop :=
  same_vocabulary w w'
  /\ exists rows,
      proj (db w') = (proj (db w) ++ rows)%list
      /\ Forall (fun x => exists a, In a xs /\ good (db w) a x) rows.

(** the link row [r] points to the technology that the entry [tech]
    names *)
Definition technology_named (s : Store) (tech : value) (r : CallTechnology)
  : Prop :=
  exists k t,
    where_text tech = Some k
    /\ find_technology s k = Some t
    /\ cte_technologyId r = te_id t.

(** the link row [r] points to the objection that the entry [obj]
    names *)
Definition objection_named (s : Store) (obj : value) (r : CallObjection)
  : Prop :=
  exists key k o,
    prop obj "type_key" = Ok key
    /\ where_text key = Some k
    /\ find_objection s k = Some o
    /\ cob_objectionId r = ob_id o.

(** the counter-response row [r] points to the objection that the entry
    [cr] names *)
Definition objection_countered (s : Store) (cr : value)
  (r : CounterResponse) : Prop :=
  exists key k o,
    prop cr "objection_type_key" = Ok key
    /\ where_text key = Some k
    /\ find_objection s k = Some o
    /\ cr_objectionId r = ob_id o.

(** the three enumerated columns of a Call row hold what the extraction
    result holds *)
Definition call_columns (extraction : ExtractionResult) (c : Call) : Prop :=
  ca_callType c = column_text (call_type extraction)
  /\ ca_offeringPitched c = column_text (offering_pitched extraction)
  /\ ca_callOutcome c = column_text (call_outcome extraction).

(** [call_columns], in the shape [links] expects *)
Definition call_row_of (extraction : ExtractionResult) (s : Store)
  (u : unit) (c : Call) : Prop :=
  call_columns extraction c.

(** no character of [s] is ["@"] *)
Definition no_at (s : string) : bool :=
  Str.forallb (fun c => negb (Ascii.eqb c "@"%char)) s.


(** nothing but the clock, the console and the request log changes *)
Definition quiet (w w' : World) : Prop :=
  db w' = db w /\ db_log w' = db_log w.

(** the table of raw meetings is the same, no processed timestamp has
    been set, and no request has been sent *)
Definition backstage (w w' : World) : Prop :=
  t_rawMeetings (db w') = t_rawMeetings (db w)
  /\ (forall id, marks id (db_log w') = marks id (db_log w))
  /\ llm_log w' = llm_log w.

(** the table of raw meetings is the same and no processed timestamp has
    been set *)
Definition offstage (w w' : World) : Prop :=
  t_rawMeetings (db w') = t_rawMeetings (db w)
  /\ (forall id, marks id (db_log w') = marks id (db_log w)).

(** what a run of the driver over the records [ids] does to a row *)
Definition row_done (ids : list N) (r r' : RawMeeting) : Prop :=
  rm_id r' = rm_id r
  /\ (is_processed r \/ In (rm_id r) ids -> is_processed r').

(** a letter of either case, or ["_"]: the characters that the cleaning
    of the classifier's answer keeps *)
Definition is_letter_or_underscore (ch : ascii) : bool :=
  Str.is_upper ch || Str.is_lower ch || Ascii.eqb ch "_"%char.

(** ** The ingestion script: storing *)

Definition find_raw_meeting (s : Store) (firefliesId : string)
  : option RawMeeting :=
  find (fun m => String.eqb (rm_firefliesId m) firefliesId) (t_rawMeetings s).

(** [db.insert(rawMeetings).values({...}).onConflictDoUpdate({ target:
    rawMeetings.firefliesId, set: { title, date, duration, rawJson } })] *)
Definition upsert_raw_meeting (t : FirefliesTranscript) : M unit :=
  date <- opt_param timestamp_param (if_truthy Date_of_number (ff_date t)) ;;
  stmt (SqlInsert T_rawMeetings) ;;
  check (varchar_ok (Some 255%N) (ff_id t)) ;;
  title <- nullable (Some 500%N) (ff_title t) ;;
  duration <- opt_param integer_param (if_truthy Math_round (ff_duration t)) ;;
  s <- read_db ;;
  match find_raw_meeting s (ff_id t) with
  | Some _ =>
      write_db
        (upd_rawMeetings
           (map (fun m =>
                   if String.eqb (rm_firefliesId m) (ff_id t)
                   then mkRawMeeting (rm_id m) (rm_firefliesId m) title date
                          duration (Some (Ingest.storedJson t))
                          (rm_classification m) (rm_processedAt m)
                   else m)))
  | None =>
      id <- gen_random_uuid ;;
      write_db
        (upd_rawMeetings
           (fun rows =>
              rows ++ [mkRawMeeting id (ff_id t) title date duration
                         (Some (Ingest.storedJson t)) None None])%list)
  end.

(** the storing loop of the ingestion script, from the counts
    [inserted] and [skipped] on *)
Fixpoint store_from (filtered : list FirefliesTranscript)
  (inserted skipped : nat) : M (nat * nat) :=
  match filtered with
  | [] => ret (inserted, skipped)
  | t :: rest =>
      stored <- try_catch (upsert_raw_meeting t ;; ret true)
                  (fun _ => ret false) ;;
      if stored then store_from rest (S inserted) skipped
      else store_from rest inserted (S skipped)
  end.

Definition store_transcripts (filtered : list FirefliesTranscript)
  : M (nat * nat) :=
  store_from filtered 0 0.

(** ** The seed script *)

Definition upsert_objection (seed : string * string * string) : M unit :=
  let '(typeKey, displayName, description) := seed in
  stmt (SqlInsert T_objections) ;;
  check (varchar_ok (Some 100%N) typeKey) ;;
  check (varchar_ok (Some 255%N) displayName) ;;
  s <- read_db ;;
  match find_objection s typeKey with
  | Some _ =>
      write_db
        (upd_objections
           (map (fun o =>
                   if String.eqb (ob_typeKey o) typeKey
                   then mkObjection (ob_id o) (ob_typeKey o) displayName
                          (Some description)
                   else o)))
  | None =>
      id <- gen_random_uuid ;;
      write_db
        (upd_objections
           (fun rows =>
              rows ++ [mkObjection id typeKey displayName
                         (Some description)])%list)
  end.

Definition upsert_technology (seed : string * string) : M unit :=
  let '(name, category) := seed in
  stmt (SqlInsert T_technologies) ;;
  check (varchar_ok (Some 100%N) name) ;;
  check (varchar_ok (Some 100%N) category) ;;
  s <- read_db ;;
  match find_technology s name with
  | Some _ =>
      write_db
        (upd_technologies
           (map (fun t =>
                   if String.eqb (te_name t) name
                   then mkTechnology (te_id t) (te_name t) (Some category)
                   else t)))
  | None =>
      id <- gen_random_uuid ;;
      write_db
        (upd_technologies
           (fun rows =>
              rows ++ [mkTechnology id name (Some category)])%list)
  end.

Definition seed : M unit :=
  for_each Seed.OBJECTION_SEEDS upsert_objection ;;
  for_each Seed.TECHNOLOGY_SEEDS upsert_technology.

(** ** Vocabulary of the statements about the scripts *)

(** an address as [getAllEmails] and [getEmails] collect it: not empty,
    and without an upper-case letter *)
Definition collected (e : string) : Prop :=
  Str.truthy e = true
  /\ Str.forallb (fun c => negb (Str.is_upper c)) e = true.

(** the result of [normalizeResult] on the empty object *)
Definition all_defaults : ExtractionResult :=
  mkExtractionResult (VStr "discovery") (VStr "none") (VStr "Unknown")
    [] [] [] (VStr "neutral") VNull (num 5) (VStr "") [] [] [] [] [].

(** the test a transcript has to pass *)
Definition passes (dom : string) (excluded : list string)
  (t : FirefliesTranscript) : bool :=
  Ingest.hasSherlock dom (Ingest.getEmails t)
  && Ingest.hasExternal dom excluded (Ingest.getEmails t).

(** what the ingestion writes to the [date] column *)
Definition date_column (t : FirefliesTranscript) : option Z :=
  match if_truthy Date_of_number (ff_date t) with
  | Some (Fin q) => Some (Qfloor q)
  | _ => None
  end.

(** what the ingestion writes to the [duration] column *)
Definition duration_column (t : FirefliesTranscript) : option Z :=
  match if_truthy Math_round (ff_duration t) with
  | Some (Fin q) => Some (Qfloor q)
  | _ => None
  end.

(** the row of the transcript [t] *)
Definition raw_meeting_of (id : N) (t : FirefliesTranscript)
  (classification : option string) (processedAt : option Z) : RawMeeting :=
  mkRawMeeting id (ff_id t) (ff_title t) (date_column t) (duration_column t)
    (Some (Ingest.storedJson t)) classification processedAt.

(** the table of raw meetings after the upsert of [t], [id] being the
    identifier a new row gets *)
Definition upserted (t : FirefliesTranscript) (id : N)
  (rows : list RawMeeting) : list RawMeeting :=
  match find (fun m => String.eqb (rm_firefliesId m) (ff_id t)) rows with
  | Some _ =>
      map (fun m =>
             if String.eqb (rm_firefliesId m) (ff_id t)
             then raw_meeting_of (rm_id m) t (rm_classification m)
                    (rm_processedAt m)
             else m)
        rows
  | None => (rows ++ [raw_meeting_of id t None None])%list
  end.

(** the ingestion leaves the identity and the progress of a record
    alone *)
Definition same_progress (r r' : RawMeeting) : Prop :=
  rm_id r' = rm_id r
  /\ rm_firefliesId r' = rm_firefliesId r
  /\ rm_classification r' = rm_classification r
  /\ rm_processedAt r' = rm_processedAt r.

(** a record nothing has been done with *)
Definition is_new (r : RawMeeting) : Prop :=
  rm_classification r = None /\ rm_processedAt r = None.

(** [ingested w w']: nothing but the table of raw meetings differs; its
    rows are still there, with their identity and progress, followed by
    new ones. *)
Definition ingested (w w' : World) : Prop :=
  upd_rawMeetings (fun _ => t_rawMeetings (db w)) (db w') = db w
  /\ exists rows fresh,
      t_rawMeetings (db w') = (rows ++ fresh)%list
      /\ Forall2 same_progress (t_rawMeetings (db w)) rows
      /\ Forall is_new fresh.

(** [INSERT ... ON CONFLICT (key) DO UPDATE] on a table with a unique
    [key]: the rows with the key [k] are rewritten by [refresh]; without
    such a row, [fresh] is added. *)
Definition upsert_rows {Row : Type} (key : Row -> string) (k : string)
  (refresh : Row -> Row) (fresh : Row) (rows : list Row) : list Row :=
  match find (fun r => String.eqb (key r) k) rows with
  | Some _ => map (fun r => if String.eqb (key r) k then refresh r else r) rows
  | None => (rows ++ [fresh])%list
  end.

(** [holds key k good rows]: the table has a row with the key [k], and
    its rows with that key are [good]. *)
Definition holds {Row : Type} (key : Row -> string) (k : string)
  (good : Row -> Prop) (rows : list Row) : Prop :=
  (exists r, In r rows /\ key r = k)
  /\ forall r, In r rows -> key r = k -> good r.

(** the row [o] says what the seed says *)
Definition objection_seeded (seed : string * string * string)
  (o : Objection) : Prop :=
  ob_displayName o = snd (fst seed) /\ ob_description o = Some (snd seed).

Definition technology_seeded (seed : string * string) (t : Technology)
  : Prop :=
  te_category t = Some (snd seed).

(** the store accepts every insertion into the two vocabulary tables *)
Definition vocabulary_reachable : Prop :=
  forall n,
    db_fault env n (SqlInsert T_objections) = false
    /\ db_fault env n (SqlInsert T_technologies) = false.

(** [vocabulary_seeded s]: the two vocabulary tables hold every seed. *)
Definition vocabulary_seeded (s : Store) : Prop :=
  (forall x, In x Seed.OBJECTION_SEEDS ->
             holds ob_typeKey (fst (fst x)) (objection_seeded x)
               (t_objections s))
  /\ (forall x, In x Seed.TECHNOLOGY_SEEDS ->
                holds te_name (fst x) (technology_seeded x)
                  (t_technologies s)).

(** what the seed script makes of a row whose key is taken *)
Definition refresh_objection (seed : string * string * string)
  (o : Objection) : Objection :=
  mkObjection (ob_id o) (ob_typeKey o) (snd (fst seed)) (Some (snd seed)).

Definition refresh_technology (seed : string * string) (t : Technology)
  : Technology :=
  mkTechnology (te_id t) (te_name t) (Some (snd seed)).

(** the row of a seed *)
Definition objection_of (seed : string * string * string) (id : N)
  : Objection :=
  mkObjection id (fst (fst seed)) (snd (fst seed)) (Some (snd seed)).

Definition technology_of (seed : string * string) (id : N) : Technology :=
  mkTechnology id (fst seed) (Some (snd seed)).

(** the seed fits the columns *)
Definition objection_fits (seed : string * string * string) : bool :=
  varchar_ok (Some 100%N) (fst (fst seed))
  && varchar_ok (Some 255%N) (snd (fst seed)).

Definition technology_fits (seed : string * string) : bool :=
  varchar_ok (Some 100%N) (fst seed) && varchar_ok (Some 100%N) (snd seed).

(** an entry whose name can be put in a message: the entry is not
    [null], so that its [name] can be read, and the name converts to a
    string *)
Definition nameable (v : value) : Prop :=
  exists name, prop v "name" = Ok name /\ renders name = true.

(** [c] returns normally, whatever the world *)
Definition never_throws {A : Type} (c : M A) : Prop :=
  forall w, exists a, fst (c w) = Ok a.

(** nothing but the table of companies differs *)
Definition companies_only (w w' : World) : Prop :=
  upd_companies (fun _ => t_companies (db w)) (db w') = db w.

(** the counts after [n] records: every record is in one class, the
    extractions tried are sales calls, and the counter of classifier
    requests has not moved *)
Definition counted (n : nat) (s : Stats) : Prop :=
  (st_sales_call s + st_partner_call s + st_internal s + st_other s = n)%nat
  /\ (st_extracted s + st_extractionErrors s <= st_sales_call s)%nat
  /\ st_classificationLLMCalls s = 0%nat.

(** [asks k c]: a run of [c] sends [k] requests at most *)
Definition asks {A : Type} (k : nat) (c : M A) : Prop :=
  forall w, (length (llm_log (snd (c w))) <= length (llm_log w) + k)%nat.

(** no request is sent *)
Definition silent (w w' : World) : Prop := llm_log w' = llm_log w.

(** the company rows of [w] are still there in [w'], before any other *)
Definition companies_kept (w w' : World) : Prop :=
  exists more,
    t_companies (db w') = (t_companies (db w) ++ more)%list.

(** the lookup of [name] that finds a row in [w] finds that row in [w'] *)
Definition company_persists (name : string) (w w' : World) : Prop :=
  forall c,
    find_company (db w) name = Some c -> find_company (db w') name = Some c.

(** the row still holds what the ingestion stored *)
Definition same_ingestion (r r' : RawMeeting) : Prop :=
  rm_id r' = rm_id r
  /\ rm_firefliesId r' = rm_firefliesId r
  /\ rm_title r' = rm_title r
  /\ rm_date r' = rm_date r
  /\ rm_duration r' = rm_duration r
  /\ rm_rawJson r' = rm_rawJson r.

(** the raw meetings are the same rows, as far as the ingestion goes *)
Definition same_meetings (w w' : World) : Prop :=
  Forall2 same_ingestion (t_rawMeetings (db w)) (t_rawMeetings (db w')).

(** [meeting.rawJson], read as [RawMeetingData] *)
Definition data_of (m : RawMeeting) : RawMeetingData :=
  match rm_rawJson m with
  | Some rawData => rawData
  | None => empty_data
  end.

(** the meeting has no title and no summary text *)
Definition no_text (data : RawMeetingData) : Prop :=
  truthy_opt (title data) = false
  /\ truthy_opt (summary_field meeting_type data) = false
  /\ truthy_opt (summary_field overview data) = false
  /\ truthy_opt (summary_field keywords data) = false
  /\ truthy_opt (summary_field short_summary data) = false
  /\ truthy_opt (summary_field topics_discussed data) = false.

(** [grown proj callOf callId w w']: the table [proj] has gained rows,
    all of the call [callId]. *)
Definition grown {X : Type} (proj : Store -> list X) (callOf : X -> N)
  (callId : N) (w w' : World) : Prop :=
  exists rows,
    proj (db w') = (proj (db w) ++ rows)%list
    /\ Forall (fun r => callOf r = callId) rows.

(** the eight tables that refer to a call have gained rows of the call
    [callId] only *)
Definition hang_on (callId : N) (w w' : World) : Prop :=
  grown t_callTeamMembers ctm_callId callId w w'
  /\ grown t_callProspectContacts cpc_callId callId w w'
  /\ grown t_callTechnologies cte_callId callId w w'
  /\ grown t_callObjections cob_callId callId w w'
  /\ grown t_callFollowUps cfu_callId callId w w'
  /\ grown t_prospectQuestions pq_callId callId w w'
  /\ grown t_keyQuotes kq_callId callId w w'
  /\ grown t_counterResponses cr_callId callId w w'.

(** the table of calls is the same, and the eight tables that refer to a
    call have gained rows of the call [callId] only *)
Definition children_of (callId : N) (w w' : World) : Prop :=
  t_calls (db w') = t_calls (db w) /\ hang_on callId w w'.

(** the table of calls and the eight tables that hang on it are the
    same *)
Definition no_call_written (w w' : World) : Prop :=
  t_calls (db w') = t_calls (db w)
  /\ t_callTeamMembers (db w') = t_callTeamMembers (db w)
  /\ t_callProspectContacts (db w') = t_callProspectContacts (db w)
  /\ t_callTechnologies (db w') = t_callTechnologies (db w)
  /\ t_callObjections (db w') = t_callObjections (db w)
  /\ t_callFollowUps (db w') = t_callFollowUps (db w)
  /\ t_prospectQuestions (db w') = t_prospectQuestions (db w)
  /\ t_keyQuotes (db w') = t_keyQuotes (db w)
  /\ t_counterResponses (db w') = t_counterResponses (db w).

(** the classification of the row is what it was, or one of the four
    category names *)
Definition classified_or_same (r r' : RawMeeting) : Prop :=
  rm_classification r' = rm_classification r
  \/ exists c, rm_classification r' = Some (Classification_name c).

Definition category_names_only (w w' : World) : Prop :=
  Forall2 classified_or_same (t_rawMeetings (db w)) (t_rawMeetings (db w')).

(** * Properties *)

(** ** Runs: what a computation leaves unchanged *)

Lemma bind_run {A B : Type} (c : M A) (k : A -> M B) (w : World) :
  bind c k w =
  match c w with
  | (Ok a, w') => k a w'
  | (Throw e, w') => (Throw e, w')
  end.
Proof. reflexivity. Qed.

Lemma try_catch_run {A : Type} (c : M A) (h : error -> M A) (w : World) :
  try_catch c h w =
  match c w with
  | (Ok a, w') => (Ok a, w')
  | (Throw e, w') => h e w'
  end.
Proof. reflexivity. Qed.

Section Frames.

Variable R : World -> World -> Prop.
Hypothesis R_refl : forall w, R w w.
Hypothesis R_trans : forall a b c, R a b -> R b c -> R a c.

Lemma keeps_ret {A : Type} (a : A) : keeps R (ret a).
Proof. intro w. apply R_refl. Qed.

Lemma keeps_throw {A : Type} (e : error) : keeps R (@throw A e).
Proof. intro w. apply R_refl. Qed.

Lemma keeps_lift {A : Type} (r : result A) : keeps R (lift r).
Proof. intro w. apply R_refl. Qed.

Lemma keeps_check (b : bool) : keeps R (check b).
Proof. destruct b; intro w; apply R_refl. Qed.

Lemma keeps_bind {A B : Type} (c : M A) (k : A -> M B) :
  keeps R c -> (forall a, keeps R (k a)) -> keeps R (bind c k).
Proof.
  intros Hc Hk w. rewrite bind_run.
  specialize (Hc w). destruct (c w) as [[a | e] w1]; simpl in *.
  - eapply R_trans; [exact Hc | apply Hk].
  - exact Hc.
Qed.

Lemma keeps_try_catch {A : Type} (c : M A) (h : error -> M A) :
  keeps R c -> (forall e, keeps R (h e)) -> keeps R (try_catch c h).
Proof.
  intros Hc Hh w. rewrite try_catch_run.
  specialize (Hc w). destruct (c w) as [[a | e] w1]; simpl in *.
  - exact Hc.
  - eapply R_trans; [exact Hc | apply Hh].
Qed.

Lemma keeps_for_each {A : Type} (xs : list A) (body : A -> M unit) :
  (forall x, keeps R (body x)) -> keeps R (for_each xs body).
Proof.
  intro Hb. induction xs as [| x rest IH]; simpl.
  - apply keeps_ret.
  - apply keeps_bind; [apply Hb | intros _; exact IH].
Qed.

Lemma keeps_Date_now : keeps R Date_now.
Proof. intro w. apply R_refl. Qed.

Lemma keeps_read_db : keeps R read_db.
Proof. intro w. apply R_refl. Qed.

End Frames.

Create HintDb pipeline discriminated.

#[local] Hint Unfold
  insert_company date_or_now getOrCreateCompany
  insert_team_member getOrCreateTeamMember getOrCreateProspectContact
  getObjectionId getTechnologyId insert_call link_team_member link_prospect
  link_technology link_objection add_follow_up add_question add_key_quote
  add_counter_response storeExtraction classifyByLLM classifyMeeting
  extractSalesCall select_unprocessed set_classification mark_processed
  classify_step extract_and_store extract_step : pipeline.

Lemma pure_ret {A : Type} (a : A) : pure_op (ret a).
Proof. intro w. reflexivity. Qed.

Lemma pure_throw {A : Type} (e : error) : pure_op (@throw A e).
Proof. intro w. reflexivity. Qed.

Lemma pure_lift {A : Type} (r : result A) : pure_op (lift r).
Proof. intro w. reflexivity. Qed.

Lemma pure_check (b : bool) : pure_op (check b).
Proof. destruct b; intro w; reflexivity. Qed.

Lemma pure_bind {A B : Type} (c : M A) (k : A -> M B) :
  pure_op c -> (forall a, pure_op (k a)) -> pure_op (bind c k).
Proof.
  intros Hc Hk w. rewrite bind_run. specialize (Hc w).
  destruct (c w) as [[a | e] w1]; simpl in *; subst; [apply Hk | reflexivity].
Qed.

Lemma pure_where_param (v : value) : pure_op (where_param v).
Proof.
  intro w. unfold where_param.
  destruct (where_text v); [reflexivity | destruct v; reflexivity].
Qed.

Lemma pure_column_param (v : value) : pure_op (column_param v).
Proof.
  intro w. unfold column_param.
  destruct (column_text v); [reflexivity | destruct v; reflexivity].
Qed.

Lemma pure_nullable (limit : option N) (o : option string) :
  pure_op (nullable limit o).
Proof.
  destruct o; [| apply pure_ret].
  apply pure_bind; [apply pure_check | intro; apply pure_ret].
Qed.

Lemma pure_not_null (limit : option N) (o : option string) :
  pure_op (not_null limit o).
Proof.
  destruct o; [| apply pure_throw].
  apply pure_bind; [apply pure_check | intro; apply pure_ret].
Qed.

Lemma pure_integer_param (x : number) : pure_op (integer_param x).
Proof.
  destruct x; try apply pure_throw.
  apply pure_bind; [apply pure_check | intro; apply pure_ret].
Qed.

Lemma pure_timestamp_param (d : number) : pure_op (timestamp_param d).
Proof. destruct d; try apply pure_throw. apply pure_ret. Qed.

Lemma pure_opt_param {A B : Type} (f : A -> M B) (o : option A) :
  (forall a, pure_op (f a)) -> pure_op (opt_param f o).
Proof.
  intro Hf. destruct o; [| apply pure_ret].
  apply pure_bind; [apply Hf | intro; apply pure_ret].
Qed.

#[local] Hint Resolve pure_ret pure_throw pure_lift pure_check
  pure_where_param pure_column_param pure_nullable pure_not_null
  pure_integer_param pure_timestamp_param pure_opt_param : pipeline.

Lemma keeps_pure (R : World -> World -> Prop) {A : Type} (c : M A) :
  (forall w, R w w) -> pure_op c -> keeps R c.
Proof. intros Hrefl Hc w. rewrite Hc. apply Hrefl. Qed.

Lemma keeps_weaken (R R' : World -> World -> Prop) {A : Type} (c : M A) :
  (forall w w', R w w' -> R' w w') -> keeps R c -> keeps R' c.
Proof. intros H Hc w. apply H, Hc. Qed.

(** One step of a frame proof: peel the head combinator. *)
Ltac frame_step Hrefl Htrans :=
  lazymatch goal with
  | |- keeps _ (bind _ _) => apply (keeps_bind _ Htrans); [ | intro ]
  | |- keeps _ (try_catch _ _) =>
      apply (keeps_try_catch _ Htrans); [ | intro ]
  | |- keeps _ (for_each _ _) =>
      apply (keeps_for_each _ Hrefl Htrans); intro
  | |- keeps _ (ret _) => apply (keeps_ret _ Hrefl)
  | |- keeps _ (throw _) => apply (keeps_throw _ Hrefl)
  | |- keeps _ (lift _) => apply (keeps_lift _ Hrefl)
  | |- keeps _ (check _) => apply (keeps_check _ Hrefl)
  | |- keeps _ (where_param _) =>
      apply (keeps_pure _ _ Hrefl); auto with pipeline
  | |- keeps _ (column_param _) =>
      apply (keeps_pure _ _ Hrefl); auto with pipeline
  | |- keeps _ (nullable _ _) =>
      apply (keeps_pure _ _ Hrefl); auto with pipeline
  | |- keeps _ (not_null _ _) =>
      apply (keeps_pure _ _ Hrefl); auto with pipeline
  | |- keeps _ (integer_param _) =>
      apply (keeps_pure _ _ Hrefl); auto with pipeline
  | |- keeps _ (timestamp_param _) =>
      apply (keeps_pure _ _ Hrefl); auto with pipeline
  | |- keeps _ (opt_param _ _) =>
      apply (keeps_pure _ _ Hrefl); auto with pipeline
  | |- keeps _ Date_now => apply (keeps_Date_now _ Hrefl)
  | |- keeps _ read_db => apply (keeps_read_db _ Hrefl)
  | |- keeps _ (match ?x with _ => _ end) => destruct x
  end.

(** The primitives that change the world: unfold and look. *)
Ltac frame_prim :=
  let w := fresh "w" in
  intro w;
  unfold stmt, write_db, console_log, sleep, gen_random_uuid,
    messages_create;
  repeat match goal with
         | |- context [if ?b then _ else _] => destruct b
         | |- context [match ?x with _ => _ end] => destruct x
         end;
  simpl; try reflexivity; auto.

Ltac frame Hrefl Htrans :=
  autounfold with pipeline;
  repeat (frame_step Hrefl Htrans);
  try frame_prim.

(** ** Runs: what a computation establishes *)

Lemma post_weaken {A : Type} (c : M A) (w : World)
  (Q Q' : result A -> World -> Prop) :
  post c w Q -> (forall r w', Q r w' -> Q' r w') -> post c w Q'.
Proof. unfold post. auto. Qed.

Lemma post_bind {A B : Type} (c : M A) (k : A -> M B) (w : World)
  (Q : result B -> World -> Prop) :
  post c w (fun r w1 =>
              match r with
              | Ok a => post (k a) w1 Q
              | Throw e => Q (Throw e) w1
              end) ->
  post (bind c k) w Q.
Proof.
  unfold post. rewrite bind_run. destruct (c w) as [[a | e] w1]; auto.
Qed.

Lemma post_try_catch {A : Type} (c : M A) (h : error -> M A) (w : World)
  (Q : result A -> World -> Prop) :
  post c w (fun r w1 =>
              match r with
              | Ok a => Q (Ok a) w1
              | Throw e => post (h e) w1 Q
              end) ->
  post (try_catch c h) w Q.
Proof.
  unfold post. rewrite try_catch_run. destruct (c w) as [[a | e] w1]; auto.
Qed.

Lemma post_ret {A : Type} (a : A) (w : World)
  (Q : result A -> World -> Prop) :
  Q (Ok a) w -> post (ret a) w Q.
Proof. auto. Qed.

Lemma post_throw {A : Type} (e : error) (w : World)
  (Q : result A -> World -> Prop) :
  Q (Throw e) w -> post (throw e) w Q.
Proof. auto. Qed.

Lemma post_lift {A : Type} (r : result A) (w : World)
  (Q : result A -> World -> Prop) :
  Q r w -> post (lift r) w Q.
Proof. auto. Qed.

Lemma post_check (b : bool) (w : World) (Q : result unit -> World -> Prop) :
  (b = true -> Q (Ok tt) w) ->
  (b = false -> Q (Throw DbError) w) ->
  post (check b) w Q.
Proof. destruct b; unfold post; simpl; auto. Qed.

Lemma post_stmt (st : Statement) (w : World)
  (Q : result unit -> World -> Prop) :
  (db_fault env (N.of_nat (length (db_log w))) st = false ->
   Q (Ok tt) (sent st w)) ->
  (db_fault env (N.of_nat (length (db_log w))) st = true ->
   Q (Throw DbError) (sent st w)) ->
  post (stmt st) w Q.
Proof.
  unfold post, stmt, sent.
  destruct (db_fault env _ st); simpl; auto.
Qed.

Lemma post_messages_create (r : Request) (w : World)
  (Q : result string -> World -> Prop) :
  (forall text,
      llm_reply env (N.of_nat (length (llm_log w))) r = Some text ->
      Q (Ok text) (asked r w)) ->
  (llm_reply env (N.of_nat (length (llm_log w))) r = None ->
   Q (Throw ApiError) (asked r w)) ->
  post (messages_create r) w Q.
Proof.
  unfold post, messages_create, asked.
  destruct (llm_reply env _ r); simpl; auto.
Qed.

Lemma post_read_db (w : World) (Q : result Store -> World -> Prop) :
  Q (Ok (db w)) w -> post read_db w Q.
Proof. auto. Qed.

Lemma post_write_db (f : Store -> Store) (w : World)
  (Q : result unit -> World -> Prop) :
  Q (Ok tt) (set_db f w) -> post (write_db f) w Q.
Proof. auto. Qed.

Lemma post_gen_random_uuid (w : World) (Q : result N -> World -> Prop) :
  Q (Ok (next_id w)) (set_next_id (N.succ (next_id w)) w) ->
  post gen_random_uuid w Q.
Proof. auto. Qed.

Lemma post_Date_now (w : World) (Q : result N -> World -> Prop) :
  Q (Ok (now w)) w -> post Date_now w Q.
Proof. auto. Qed.

Lemma post_console_log (l : LogLine) (w : World)
  (Q : result unit -> World -> Prop) :
  Q (Ok tt) (set_console (console w ++ [l])%list w) ->
  post (console_log l) w Q.
Proof. auto. Qed.

Lemma post_sleep (ms : N) (w : World) (Q : result unit -> World -> Prop) :
  Q (Ok tt) (set_now (now w + ms)%N w) -> post (sleep ms) w Q.
Proof. auto. Qed.

Lemma post_pure {A : Type} (c : M A) (w : World)
  (Q : result A -> World -> Prop) :
  pure_op c -> (forall r, Q r w) -> post c w Q.
Proof. intros Hc HQ. unfold post. rewrite Hc. apply HQ. Qed.

Lemma post_where_param (v : value) (w : World)
  (Q : result (option string) -> World -> Prop) :
  Q (Ok (where_text v)) w ->
  (where_text v = None -> Q (Throw DbError) w) ->
  post (where_param v) w Q.
Proof.
  unfold post, where_param. intros Hok Hthrow.
  destruct (where_text v) eqn:E; [exact Hok |].
  destruct v; simpl; auto.
Qed.

Lemma post_column_param (v : value) (w : World)
  (Q : result (option string) -> World -> Prop) :
  Q (Ok (column_text v)) w ->
  (column_text v = None -> Q (Throw DbError) w) ->
  post (column_param v) w Q.
Proof.
  unfold post, column_param. intros Hok Hthrow.
  destruct (column_text v) eqn:E; [exact Hok |].
  destruct v; simpl; auto.
Qed.

Lemma post_nullable (limit : option N) (o : option string) (w : World)
  (Q : result (option string) -> World -> Prop) :
  Q (Ok o) w -> Q (Throw DbError) w -> post (nullable limit o) w Q.
Proof.
  unfold post, nullable. intros Hok Hthrow.
  destruct o as [s |]; [| exact Hok].
  rewrite bind_run. destruct (varchar_ok limit s); simpl; assumption.
Qed.

Lemma post_not_null (limit : option N) (o : option string) (w : World)
  (Q : result string -> World -> Prop) :
  (forall s, o = Some s -> Q (Ok s) w) -> Q (Throw DbError) w ->
  post (not_null limit o) w Q.
Proof.
  unfold post, not_null. intros Hok Hthrow.
  destruct o as [s |]; [| exact Hthrow].
  rewrite bind_run. destruct (varchar_ok limit s); simpl; auto.
Qed.

(** a frame is a postcondition that ignores the result *)
Lemma keeps_post (R : World -> World -> Prop) {A : Type} (c : M A)
  (w : World) :
  keeps R c -> post c w (fun _ w' => R w w').
Proof. intro H. apply H. Qed.

(** One step of symbolic execution. *)
Ltac wp_step :=
  lazymatch goal with
  | |- post (bind _ _) _ _ => apply post_bind
  | |- post (try_catch _ _) _ _ => apply post_try_catch
  | |- post (ret _) _ _ => apply post_ret
  | |- post (throw _) _ _ => apply post_throw
  | |- post (lift _) _ _ => apply post_lift
  | |- post (check _) _ _ => apply post_check; intro
  | |- post (stmt _) _ _ => apply post_stmt; intro
  | |- post (messages_create _) _ _ =>
      apply post_messages_create; [intros ? ? | intro]
  | |- post read_db _ _ => apply post_read_db
  | |- post (write_db _) _ _ => apply post_write_db
  | |- post gen_random_uuid _ _ => apply post_gen_random_uuid
  | |- post Date_now _ _ => apply post_Date_now
  | |- post (console_log _) _ _ => apply post_console_log
  | |- post (sleep _) _ _ => apply post_sleep
  | |- post (where_param _) _ _ => apply post_where_param; [| intro]
  | |- post (column_param _) _ _ => apply post_column_param; [| intro]
  | |- post (nullable _ _) _ _ => apply post_nullable
  | |- post (not_null _ _) _ _ => apply post_not_null; [intros ? ? |]
  | |- post (integer_param _) _ _ =>
      apply post_pure; [auto with pipeline | intros [? | ?]]
  | |- post (timestamp_param _) _ _ =>
      apply post_pure; [auto with pipeline | intros [? | ?]]
  | |- post (opt_param _ _) _ _ =>
      apply post_pure; [auto with pipeline | intros [? | ?]]
  | |- post (match ?x with _ => _ end) _ _ => destruct x eqn:?
  | |- match ?x with _ => _ end => destruct x eqn:?
  end;
  cbv beta match.

Ltac wp := autounfold with pipeline; cbv beta match; repeat wp_step.

(** ** The vocabulary tables are read-only *)

Lemma same_vocabulary_refl w : same_vocabulary w w.
Proof. split; reflexivity. Qed.

Lemma same_vocabulary_trans a b c :
  same_vocabulary a b -> same_vocabulary b c -> same_vocabulary a c.
Proof. intros [H1 H2] [H3 H4]. split; congruence. Qed.

Lemma storeExtraction_same_vocabulary rawMeetingId rawData extraction :
  keeps same_vocabulary (storeExtraction rawMeetingId rawData extraction).
Proof.
  frame same_vocabulary_refl same_vocabulary_trans.
  all: split; reflexivity.
Qed.

(** ** Strings *)

Lemma take_drop (n : N) (s : string) : s = Str.take n s ++ Str.drop n s.
Proof.
  revert n. induction s as [| c s IH]; intro n; simpl.
  - reflexivity.
  - destruct (n =? 0)%N; simpl; [reflexivity | now rewrite <- IH].
Qed.

Lemma len_take (n : N) (s : string) :
  (n <= Str.len s)%N -> Str.len (Str.take n s) = n.
Proof.
  revert n. induction s as [| c s IH]; intros n Hn; simpl in *.
  - lia.
  - destruct (N.eqb_spec n 0) as [-> | Hne]; simpl; [reflexivity |].
    rewrite IH by lia. lia.
Qed.

Lemma str_app_assoc (a b c : string) : (a ++ b) ++ c = a ++ (b ++ c).
Proof. induction a as [| x a IH]; simpl; [reflexivity | now rewrite IH]. Qed.

Lemma len_app (s t : string) : Str.len (s ++ t) = (Str.len s + Str.len t)%N.
Proof. induction s as [| c s IH]; simpl; [reflexivity | rewrite IH; lia]. Qed.

Lemma startsWith_app (p s : string) : Str.startsWith (p ++ s) p = true.
Proof.
  induction p as [| c p IH]; simpl; [reflexivity |].
  now rewrite Ascii.eqb_refl.
Qed.

Lemma filter_forallb (p : ascii -> bool) (s : string) :
  Str.forallb p (Str.filter p s) = true.
Proof.
  induction s as [| c s IH]; simpl; [reflexivity |].
  destruct (p c) eqn:E; simpl; [now rewrite E | exact IH].
Qed.

(** ** Lists *)

Lemma filter_all {A : Type} (p : A -> bool) (l : list A) :
  (forall x, In x l -> p x = true) -> filter p l = l.
Proof.
  induction l as [| x l IH]; intro H; simpl; [reflexivity |].
  rewrite (H x (or_introl eq_refl)). f_equal. apply IH.
  intros y Hy. apply H. now right.
Qed.

Lemma filter_none {A : Type} (p : A -> bool) (l : list A) :
  (forall x, In x l -> p x = false) -> filter p l = [].
Proof.
  induction l as [| x l IH]; intro H; simpl; [reflexivity |].
  rewrite (H x (or_introl eq_refl)). apply IH.
  intros y Hy. apply H. now right.
Qed.

(** ** C7: the rule tier on meetings with internal participants only *)

(** C7, amended.  When at least one e-mail address is collected and every
    collected address ends with the internal domain, [classifyByRules]
    returns [internal], whatever the title and the summary say.  (With no
    address at all the guard [sherlockEmails.length > 0] fails and the rule
    tier goes on to the text.) *)
Theorem classifyByRules_all_internal (dom : string) (data : RawMeetingData) :
  getAllEmails data <> [] ->
  (forall e, In e (getAllEmails data) -> Str.endsWith e ("@" ++ dom) = true) ->
  classifyByRules dom data = Some internal.
Proof.
  intros Hne Hall. unfold classifyByRules.
  rewrite (filter_all _ _ Hall).
  rewrite (filter_none (fun e => negb (Str.endsWith e ("@" ++ dom)))).
  - destruct (getAllEmails data) as [| e l]; [contradiction | reflexivity].
  - intros x Hx. now rewrite (Hall x Hx).
Qed.

(** ** C3: the LLM tier behind [classifyMeeting] *)

Lemma valid_token_name (t : string) (c : Classification) :
  valid_token t = Some c -> t = Classification_name c.
Proof.
  unfold valid_token.
  destruct (String.eqb_spec t "sales_call");
    [intro H; injection H as <-; assumption |].
  destruct (String.eqb_spec t "partner_call");
    [intro H; injection H as <-; assumption |].
  destruct (String.eqb_spec t "internal");
    [intro H; injection H as <-; assumption |].
  destruct (String.eqb_spec t "other");
    [intro H; injection H as <-; assumption | discriminate].
Qed.

Lemma valid_token_of_name (c : Classification) :
  valid_token (Classification_name c) = Some c.
Proof. destruct c; reflexivity. Qed.

Lemma category_of_answer_valid (text : string) (c : Classification) :
  clean_token text = Classification_name c -> category_of_answer text = c.
Proof.
  intro H. unfold category_of_answer. now rewrite H, valid_token_of_name.
Qed.

Lemma category_of_answer_invalid (text : string) :
  (forall c, clean_token text <> Classification_name c) ->
  category_of_answer text = other.
Proof.
  intro H. unfold category_of_answer.
  destruct (valid_token (clean_token text)) as [c |] eqn:E; [| reflexivity].
  apply valid_token_name in E. now apply H in E.
Qed.

(** *** The cleaned token, against the answer *)

Lemma str_app_nil_r (s : string) : s ++ "" = s.
Proof. induction s as [| c s IH]; simpl; [reflexivity | now rewrite IH]. Qed.

Lemma rev_onto_twice (s a b : string) :
  Str.rev_onto (Str.rev_onto s a) b = Str.rev_onto a (s ++ b).
Proof.
  revert a b. induction s as [| c s IH]; intros a b; simpl;
    [reflexivity |].
  now rewrite IH.
Qed.

Lemma rev_rev (s : string) : Str.rev (Str.rev s) = s.
Proof.
  unfold Str.rev. rewrite rev_onto_twice. simpl. apply str_app_nil_r.
Qed.

Lemma filter_rev_onto (p : ascii -> bool) (s acc : string) :
  Str.filter p (Str.rev_onto s acc)
  = Str.rev_onto (Str.filter p s) (Str.filter p acc).
Proof.
  revert acc. induction s as [| c s IH]; intro acc; simpl; [reflexivity |].
  rewrite IH. simpl. now destruct (p c).
Qed.

Lemma filter_rev (p : ascii -> bool) (s : string) :
  Str.filter p (Str.rev s) = Str.rev (Str.filter p s).
Proof. unfold Str.rev. now rewrite filter_rev_onto. Qed.

Lemma filter_trimStart (p : ascii -> bool) (s : string) :
  (forall c, Str.is_space c = true -> p c = false) ->
  Str.filter p (Str.trimStart s) = Str.filter p s.
Proof.
  intro Hp. induction s as [| c s IH]; simpl; [reflexivity |].
  destruct (Str.is_space c) eqn:E; [| reflexivity].
  now rewrite IH, (Hp c E).
Qed.

Lemma filter_trim (p : ascii -> bool) (s : string) :
  (forall c, Str.is_space c = true -> p c = false) ->
  Str.filter p (Str.trim s) = Str.filter p s.
Proof.
  intro Hp. unfold Str.trim, Str.trimEnd.
  rewrite filter_rev, (filter_trimStart p _ Hp), filter_rev, rev_rev.
  now apply filter_trimStart.
Qed.

Lemma filter_toLowerCase (p : ascii -> bool) (s : string) :
  Str.filter p (Str.toLowerCase s)
  = Str.toLowerCase (Str.filter (fun c => p (Str.lower_char c)) s).
Proof.
  induction s as [| c s IH]; simpl; [reflexivity |].
  rewrite IH. now destruct (p (Str.lower_char c)).
Qed.

Lemma filter_str_app (p : ascii -> bool) (s t : string) :
  Str.filter p (s ++ t) = Str.filter p s ++ Str.filter p t.
Proof.
  induction s as [| c s IH]; simpl; [reflexivity |].
  rewrite IH. now destruct (p c).
Qed.

Lemma toLowerCase_app (s t : string) :
  Str.toLowerCase (s ++ t) = Str.toLowerCase s ++ Str.toLowerCase t.
Proof. induction s as [| c s IH]; simpl; [reflexivity | now rewrite IH]. Qed.

Lemma filter_nothing (p : ascii -> bool) (s : string) :
  Str.forallb (fun c => negb (p c)) s = true -> Str.filter p s = "".
Proof.
  induction s as [| c s IH]; simpl; [reflexivity |].
  destruct (p c); simpl; [discriminate | exact IH].
Qed.

Lemma lower_char_kept (ch : ascii) :
  Str.is_lower (Str.lower_char ch) || Ascii.eqb (Str.lower_char ch) "_"%char
  = is_letter_or_underscore ch.
Proof. destruct ch as [[] [] [] [] [] [] [] []]; reflexivity. Qed.

Lemma letters_lower (s : string) :
  Str.toLowerCase (Str.filter is_letter_or_underscore s)
  = Str.keep_lower_underscore (Str.toLowerCase s).
Proof.
  unfold Str.keep_lower_underscore. rewrite filter_toLowerCase. f_equal.
  induction s as [| c s IH]; simpl; [reflexivity |].
  now rewrite lower_char_kept, IH.
Qed.

(** the cleaned token is what is left of the answer when everything but
    letters and underscores is dropped and the letters are lower-cased *)
Lemma clean_token_letters (text : string) :
  clean_token text
  = Str.toLowerCase (Str.filter is_letter_or_underscore text).
Proof.
  rewrite letters_lower.
  unfold clean_token, Str.keep_lower_underscore.
  rewrite !filter_toLowerCase, filter_trim; [reflexivity |].
  intros c Hc. destruct c as [[] [] [] [] [] [] [] []];
    try reflexivity; discriminate Hc.
Qed.

Lemma clean_token_app (s t : string) :
  clean_token (s ++ t) = clean_token s ++ clean_token t.
Proof.
  now rewrite !clean_token_letters, filter_str_app, toLowerCase_app.
Qed.

(** C3.  [classifyMeeting] sends at most one request to the model, and
    only when [classifyByRules] returned [null]; a category found by the
    rules is returned with the world untouched.  When the model is asked,
    its answer is trimmed, lower-cased and stripped of everything but
    [a-z] and [_]: the cleaned token is the letters and underscores of
    the answer, in their order, the letters in lower case, and nothing
    else.  The cleaned token gives the category it names, and [other]
    when it names none of the four; so an answer that holds a category
    name, in any case, between characters that are neither letters nor
    underscores gives that category. *)
Theorem classifyMeeting_llm_tier (data : RawMeetingData) (w : World) :
  (forall c, classifyByRules SHERLOCK_DOMAIN data = Some c ->
             classifyMeeting data w = (Ok c, w))
  /\ (classifyByRules SHERLOCK_DOMAIN data = None ->
      llm_log (snd (classifyMeeting data w))
      = (llm_log w ++ [classification_request data])%list)
  /\ (length (llm_log (snd (classifyMeeting data w)))
      <= S (length (llm_log w)))%nat
  /\ (llm_log (snd (classifyMeeting data w)) <> llm_log w ->
      classifyByRules SHERLOCK_DOMAIN data = None)
  /\ (forall text,
        classifyByRules SHERLOCK_DOMAIN data = None ->
        llm_reply env (N.of_nat (length (llm_log w)))
          (classification_request data) = Some text ->
        fst (classifyMeeting data w) = Ok (category_of_answer text)
        /\ Str.forallb (fun ch => Str.is_lower ch || Ascii.eqb ch "_"%char)
             (clean_token text) = true
        /\ (forall c, clean_token text = Classification_name c ->
                      category_of_answer text = c)
        /\ ((forall c, clean_token text <> Classification_name c) ->
            category_of_answer text = other)
        /\ clean_token text
           = Str.toLowerCase (Str.filter is_letter_or_underscore text)
        /\ (forall before name after c,
              text = before ++ name ++ after ->
              Str.filter is_letter_or_underscore before = "" ->
              Str.filter is_letter_or_underscore after = "" ->
              Str.toLowerCase name = Classification_name c ->
              clean_token text = Classification_name c
              /\ category_of_answer text = c)).
Proof.
  unfold classifyMeeting.
  destruct (classifyByRules SHERLOCK_DOMAIN data) as [c0 |] eqn:Hrules.
  - split; [| split; [| split; [| split]]].
    + intros c Hc. now injection Hc as ->.
    + discriminate.
    + simpl. lia.
    + simpl. congruence.
    + discriminate.
  - assert (Hlog : llm_log (snd (classifyByLLM data w))
                   = (llm_log w ++ [classification_request data])%list).
    { unfold classifyByLLM. rewrite bind_run. unfold messages_create.
      destruct (llm_reply env _ _); reflexivity. }
    split; [| split; [| split; [| split]]].
    + discriminate.
    + intros _. exact Hlog.
    + rewrite Hlog, length_app. simpl. lia.
    + reflexivity.
    + intros text _ Hreply.
      split; [| split; [| split; [| split; [| split]]]].
      * unfold classifyByLLM. rewrite bind_run. unfold messages_create.
        rewrite Hreply. reflexivity.
      * apply filter_forallb.
      * apply category_of_answer_valid.
      * apply category_of_answer_invalid.
      * apply clean_token_letters.
      * intros before name after c -> Hbefore Hafter Hname.
        assert (Hclean : clean_token (before ++ name ++ after)
                         = Classification_name c).
        { rewrite !clean_token_app, !clean_token_letters.
          rewrite Hbefore, Hafter. simpl. rewrite str_app_nil_r.
          rewrite letters_lower, Hname.
          now destruct c. }
        split; [exact Hclean | now apply category_of_answer_valid].
Qed.

(** ** C4: the quality score *)

Lemma own_property_json (k : string) (fields : list (string * value)) :
  forallb (fun kv => is_json (snd kv)) fields = true ->
  own_property k fields = VUndef \/ is_json (own_property k fields) = true.
Proof.
  induction fields as [| [k' v] rest IH]; simpl; intro H.
  - now left.
  - apply andb_prop in H as [Hv Hrest].
    destruct (String.eqb k k'); [now right | now apply IH].
Qed.

Lemma field_not_NaN (raw : value) (k : string) :
  is_json raw = true -> field raw k <> VNum NaN.
Proof.
  intros Hj. destruct raw; simpl; try discriminate.
  destruct (own_property_json k fields Hj) as [-> | H]; [discriminate |].
  intro E. rewrite E in H. discriminate.
Qed.

Lemma normalizeResult_score (raw : value) (r : ExtractionResult) :
  normalizeResult raw = Ok r ->
  call_quality_score r =
  match field raw "call_quality_score" with
  | VNum x => Math_min (num 10) (Math_max (num 1) x)
  | _ => num 5
  end.
Proof.
  destruct raw; simpl; intro H; try discriminate;
    injection H as <-; reflexivity.
Qed.

Lemma clamp_low (x : Q) :
  (x < 1)%Q -> Math_min (num 10) (Math_max (num 1) (Fin x)) = num 1.
Proof.
  intro H. unfold Math_max, Math_min, num_leb, num.
  destruct (Qle_bool (inject_Z 1) x) eqn:E.
  - apply Qle_bool_iff in E. exfalso.
    apply (Qlt_irrefl x). eapply Qlt_le_trans; [exact H | exact E].
  - reflexivity.
Qed.

Lemma clamp_high (x : Q) :
  (10 < x)%Q -> Math_min (num 10) (Math_max (num 1) (Fin x)) = num 10.
Proof.
  intro H. unfold Math_max, Math_min, num_leb, num.
  assert (H1 : Qle_bool (inject_Z 1) x = true).
  { apply Qle_bool_iff. apply Qlt_le_weak.
    eapply Qlt_trans; [| exact H]. reflexivity. }
  rewrite H1.
  assert (H10 : Qle_bool (inject_Z 10) x = true).
  { apply Qle_bool_iff. now apply Qlt_le_weak. }
  now rewrite H10.
Qed.

Lemma clamp_mid (x : Q) :
  (1 <= x)%Q -> (x <= 10)%Q ->
  exists q, Math_min (num 10) (Math_max (num 1) (Fin x)) = Fin q
            /\ (q == x)%Q.
Proof.
  intros H1 H10. unfold Math_max, Math_min, num_leb, num.
  assert (E1 : Qle_bool (inject_Z 1) x = true) by now apply Qle_bool_iff.
  rewrite E1.
  destruct (Qle_bool (inject_Z 10) x) eqn:E.
  - apply Qle_bool_iff in E. exists (inject_Z 10). split; [reflexivity |].
    now apply Qle_antisym.
  - exists x. split; reflexivity.
Qed.

Lemma clamp_range (x : number) :
  x <> NaN ->
  exists q, Math_min (num 10) (Math_max (num 1) x) = Fin q
            /\ (1 <= q)%Q /\ (q <= 10)%Q.
Proof.
  intro Hx. destruct x as [x | | |]; [| | | contradiction].
  - destruct (Qlt_le_dec x 1) as [Hlo | Hlo].
    + rewrite (clamp_low x Hlo). exists (inject_Z 1).
      repeat split; discriminate.
    + destruct (Qlt_le_dec 10 x) as [Hhi | Hhi].
      * rewrite (clamp_high x Hhi). exists (inject_Z 10).
        repeat split; discriminate.
      * destruct (clamp_mid x Hlo Hhi) as [q [-> Hq]]. exists q.
        split; [reflexivity |]. rewrite Hq. now split.
  - exists (inject_Z 10). repeat split; discriminate.
  - exists (inject_Z 1). repeat split; discriminate.
Qed.

(** C4.  For a parsed object the normalized [call_quality_score] is a
    finite number between 1 and 10: a numeric score below 1 becomes 1,
    one above 10 becomes 10, one in between is kept, and a missing or
    non-numeric score becomes 5. *)
Theorem normalizeResult_score_clamped (raw : value) (r : ExtractionResult) :
  is_json raw = true ->
  normalizeResult raw = Ok r ->
  (exists q, call_quality_score r = Fin q /\ (1 <= q)%Q /\ (q <= 10)%Q)
  /\ (forall x, field raw "call_quality_score" = VNum (Fin x) ->
        ((x < 1)%Q -> call_quality_score r = num 1)
        /\ ((10 < x)%Q -> call_quality_score r = num 10)
        /\ ((1 <= x)%Q -> (x <= 10)%Q ->
            exists q, call_quality_score r = Fin q /\ (q == x)%Q))
  /\ (field raw "call_quality_score" = VNum PosInf ->
      call_quality_score r = num 10)
  /\ (field raw "call_quality_score" = VNum NegInf ->
      call_quality_score r = num 1)
  /\ ((forall x, field raw "call_quality_score" <> VNum x) ->
      call_quality_score r = num 5).
Proof.
  intros Hj Hr. rewrite (normalizeResult_score raw r Hr).
  pose proof (field_not_NaN raw "call_quality_score" Hj) as Hnan.
  split; [| split; [| split; [| split]]].
  - destruct (field raw "call_quality_score") as [| | b | x | s | l | l];
      try (exists (inject_Z 5); split; [reflexivity | split; discriminate]).
    apply clamp_range. congruence.
  - intros x Hx. rewrite Hx. split; [| split].
    + apply clamp_low.
    + apply clamp_high.
    + apply clamp_mid.
  - intros ->. reflexivity.
  - intros ->. reflexivity.
  - intro H. destruct (field raw "call_quality_score"); try reflexivity.
    now elim (H n).
Qed.

(** ** C8: the request of the extractor *)

Lemma extractSalesCall_request (transcript title summary : string)
  (w : World) :
  llm_log (snd (extractSalesCall transcript title summary w))
  = (llm_log w ++ [extraction_request transcript title summary])%list.
Proof.
  unfold extractSalesCall. rewrite bind_run. unfold messages_create.
  destruct (llm_reply env _ _) as [text |]; [| reflexivity].
  destruct (JSON_parse env _) as [parsed |]; [| reflexivity].
  destruct (normalizeResult parsed); reflexivity.
Qed.

(** C8.  The request [extractSalesCall] sends is the instruction text, a
    blank line, and the context-plus-transcript text, cut to its first
    100000 characters and followed by the truncation marker when it is
    longer than that, unchanged otherwise; the instruction text is left
    whole in front. *)
Theorem extractSalesCall_truncation (transcript title summary : string)
  (w : World) :
  llm_log (snd (extractSalesCall transcript title summary w))
  = (llm_log w ++ [extraction_request transcript title summary])%list
  /\ content (extraction_request transcript title summary)
     = (EXTRACTION_PROMPT env ++ Str.nl ++ Str.nl)
         ++ truncate (userContent transcript title summary)
  /\ Str.startsWith (content (extraction_request transcript title summary))
       (EXTRACTION_PROMPT env ++ Str.nl ++ Str.nl) = true
  /\ ((100000 < Str.len (userContent transcript title summary))%N ->
      truncate (userContent transcript title summary)
      = Str.take 100000 (userContent transcript title summary)
          ++ TRUNCATION_MARKER
      /\ Str.len (Str.take 100000 (userContent transcript title summary))
         = 100000%N
      /\ userContent transcript title summary
         = Str.take 100000 (userContent transcript title summary)
             ++ Str.drop 100000 (userContent transcript title summary))
  /\ ((Str.len (userContent transcript title summary) <= 100000)%N ->
      truncate (userContent transcript title summary)
      = userContent transcript title summary).
Proof.
  assert (Hc : content (extraction_request transcript title summary)
               = (EXTRACTION_PROMPT env ++ Str.nl ++ Str.nl)
                   ++ truncate (userContent transcript title summary)).
  { unfold extraction_request. simpl content.
    now rewrite !str_app_assoc. }
  split; [apply extractSalesCall_request |].
  split; [exact Hc |].
  split; [rewrite Hc; apply startsWith_app |].
  split.
  - intro Hlong. unfold truncate.
    apply N.ltb_lt in Hlong. rewrite Hlong.
    apply N.ltb_lt in Hlong.
    split; [reflexivity |].
    split; [apply len_take; lia | apply take_drop].
  - intro Hshort. unfold truncate.
    destruct (N.ltb_spec 100000 (Str.len (userContent transcript title summary)));
      [lia | reflexivity].
Qed.

(** ** C10: what normalization does to the three enumerated fields *)

Lemma normalizeResult_fields (raw : value) (r : ExtractionResult) :
  normalizeResult raw = Ok r ->
  call_type r = js_or (field raw "call_type") (VStr "discovery")
  /\ offering_pitched r = js_or (field raw "offering_pitched") (VStr "none")
  /\ call_outcome r = js_or (field raw "call_outcome") (VStr "neutral").
Proof.
  destruct raw; simpl; intro H; try discriminate;
    injection H as <-; repeat split.
Qed.

Lemma js_or_string (s : string) (d : value) :
  s <> "" -> js_or (VStr s) d = VStr s.
Proof. destruct s; [contradiction | reflexivity]. Qed.

Lemma js_or_absent (v d : value) :
  v = VUndef \/ v = VStr "" -> js_or v d = d.
Proof. intros [-> | ->]; reflexivity. Qed.

(** ** The store writer, entry by entry *)

Lemma option_map_some {A B : Type} (f : A -> B) (o : option A) (b : B) :
  option_map f o = Some b -> exists a, o = Some a /\ b = f a.
Proof.
  destruct o as [a |]; simpl; [| discriminate].
  intro H. injection H as <-. now exists a.
Qed.

(** One technology entry: no exception leaves the loop body, and the store
    is either left as it is or gains one link to the vocabulary row the
    entry names. *)
Lemma link_technology_run (callId : N) (tech : value) (w : World) :
  post (link_technology callId tech) w
    (fun r w' =>
       r = Ok tt
       /\ (db w' = db w
           \/ exists id k t,
               where_text tech = Some k
               /\ find_technology (db w) k = Some t
               /\ db w' = upd_callTechnologies
                            (fun rows =>
                               rows ++ [mkCallTechnology id callId
                                          (te_id t)])%list (db w))).
Proof.
  wp; (split; [reflexivity |]); try (left; reflexivity).
  right.
  destruct (where_text tech) as [k |] eqn:Hk; [| discriminate].
  match goal with
  | H : option_map _ _ = Some _ |- _ =>
      apply option_map_some in H; destruct H as [t [Ht ->]]
  end.
  eexists _, k, t. repeat split. exact Ht.
Qed.

(** One objection entry. *)
Lemma link_objection_run (callId : N) (obj : value) (w : World) :
  post (link_objection callId obj) w
    (fun r w' =>
       r = Ok tt
       /\ (db w' = db w
           \/ exists id key k o quote context,
               prop obj "type_key" = Ok key
               /\ where_text key = Some k
               /\ find_objection (db w) k = Some o
               /\ db w' = upd_callObjections
                            (fun rows =>
                               rows ++ [mkCallObjection id callId (ob_id o)
                                          quote context])%list (db w))).
Proof.
  wp; (split; [reflexivity |]); try (left; reflexivity).
  right.
  match goal with
  | H : prop obj _ = Ok ?key |- _ =>
      destruct (where_text key) as [k |] eqn:Hk; [| discriminate]
  end.
  match goal with
  | H : option_map _ _ = Some _ |- _ =>
      apply option_map_some in H; destruct H as [o [Ho ->]]
  end.
  eexists _, _, k, o, _, _. repeat split; eassumption.
Qed.

(** One counter-response entry. *)
Lemma add_counter_response_run (callId : N) (cr : value) (w : World) :
  post (add_counter_response callId cr) w
    (fun r w' =>
       r = Ok tt
       /\ (db w' = db w
           \/ exists id key k o response outcome,
               prop cr "objection_type_key" = Ok key
               /\ where_text key = Some k
               /\ find_objection (db w) k = Some o
               /\ db w' = upd_counterResponses
                            (fun rows =>
                               rows ++ [mkCounterResponse id (ob_id o) callId
                                          response outcome])%list (db w))).
Proof.
  wp; (split; [reflexivity |]); try (left; reflexivity).
  right.
  match goal with
  | H : prop cr _ = Ok ?key |- _ =>
      destruct (where_text key) as [k |] eqn:Hk; [| discriminate]
  end.
  match goal with
  | H : option_map _ _ = Some _ |- _ =>
      apply option_map_some in H; destruct H as [o [Ho ->]]
  end.
  eexists _, _, k, o, _, _. repeat split; eassumption.
Qed.

(** ** Link tables: what a run appends *)

Section Links.

Context {A X : Type}.
Variable proj : Store -> list X.
Variable good : Store -> A -> X -> Prop.

Hypothesis good_vocabulary :
  forall s s' a x,
    t_objections s' = t_objections s ->
    t_technologies s' = t_technologies s ->
    good s a x -> good s' a x.

Lemma untouched_refl w : untouched proj w w.
Proof. split; [apply same_vocabulary_refl | reflexivity]. Qed.

Lemma untouched_trans a b c :
  untouched proj a b -> untouched proj b c -> untouched proj a c.
Proof.
  intros [V1 P1] [V2 P2]. split.
  - eapply same_vocabulary_trans; eassumption.
  - congruence.
Qed.

Lemma untouched_links xs w w' :
  untouched proj w w' -> links proj good xs w w'.
Proof.
  intros [V P]. split; [exact V |].
  exists []. rewrite app_nil_r. split; [exact P | constructor].
Qed.

Lemma links_refl xs w : links proj good xs w w.
Proof. apply untouched_links, untouched_refl. Qed.

Lemma links_trans xs a b c :
  links proj good xs a b -> links proj good xs b c ->
  links proj good xs a c.
Proof.
  intros [V1 [r1 [P1 G1]]] [V2 [r2 [P2 G2]]]. split.
  - eapply same_vocabulary_trans; eassumption.
  - exists (r1 ++ r2)%list. split.
    + rewrite P2, P1. now rewrite app_assoc.
    + apply Forall_app. split; [exact G1 |].
      destruct V1 as [Vo Vt].
      eapply Forall_impl; [| exact G2].
      intros x [y [Hin Hg]]. exists y. split; [exact Hin |].
      eapply good_vocabulary; [| | exact Hg]; congruence.
Qed.

Lemma links_incl xs ys w w' :
  incl xs ys -> links proj good xs w w' -> links proj good ys w w'.
Proof.
  intros Hincl [V [rows [P G]]]. split; [exact V |].
  exists rows. split; [exact P |].
  eapply Forall_impl; [| exact G].
  intros x [a [Hin Hg]]. exists a. split; [apply Hincl, Hin | exact Hg].
Qed.

Variable body : A -> M unit.
Hypothesis body_links : forall a, keeps (links proj good [a]) (body a).

Lemma for_each_links xs : keeps (links proj good xs) (for_each xs body).
Proof.
  induction xs as [| x rest IH]; simpl.
  - apply keeps_ret, links_refl.
  - apply (keeps_bind _ (links_trans (x :: rest))).
    + apply (keeps_weaken (links proj good [x])); [| apply body_links].
      intros w w'. apply links_incl.
      intros y [<- | []]. now left.
    + intros _. apply (keeps_weaken (links proj good rest)); [| exact IH].
      intros w w'. apply links_incl. intros y Hy. now right.
Qed.

End Links.

Lemma technology_named_vocabulary s s' tech r :
  t_objections s' = t_objections s ->
  t_technologies s' = t_technologies s ->
  technology_named s tech r -> technology_named s' tech r.
Proof.
  intros _ Ht [k [t [H1 [H2 H3]]]]. exists k, t.
  unfold find_technology in *. rewrite Ht. auto.
Qed.

Lemma objection_named_vocabulary s s' obj r :
  t_objections s' = t_objections s ->
  t_technologies s' = t_technologies s ->
  objection_named s obj r -> objection_named s' obj r.
Proof.
  intros Ho _ [key [k [o [H1 [H2 [H3 H4]]]]]]. exists key, k, o.
  unfold find_objection in *. rewrite Ho. auto.
Qed.

Lemma objection_countered_vocabulary s s' cr r :
  t_objections s' = t_objections s ->
  t_technologies s' = t_technologies s ->
  objection_countered s cr r -> objection_countered s' cr r.
Proof.
  intros Ho _ [key [k [o [H1 [H2 [H3 H4]]]]]]. exists key, k, o.
  unfold find_objection in *. rewrite Ho. auto.
Qed.

Lemma link_technology_links (callId : N) (tech : value) :
  keeps (links t_callTechnologies technology_named [tech])
    (link_technology callId tech).
Proof.
  intro w. pose proof (link_technology_run callId tech w) as H.
  unfold post in H. destruct H as [_ [Hsame | [id [k [t [Hk [Ht Hdb]]]]]]].
  - apply untouched_links. unfold untouched, same_vocabulary.
    rewrite Hsame. auto.
  - split; [unfold same_vocabulary; rewrite Hdb; auto |].
    rewrite Hdb. simpl. eexists. split; [reflexivity |].
    constructor; [| constructor].
    exists tech. split; [now left |]. exists k, t. auto.
Qed.

Lemma link_objection_links (callId : N) (obj : value) :
  keeps (links t_callObjections objection_named [obj])
    (link_objection callId obj).
Proof.
  intro w. pose proof (link_objection_run callId obj w) as H.
  unfold post in H.
  destruct H as [_ [Hsame | [id [key [k [o [q [c [Hp [Hk [Ho Hdb]]]]]]]]]]].
  - apply untouched_links. unfold untouched, same_vocabulary.
    rewrite Hsame. auto.
  - split; [unfold same_vocabulary; rewrite Hdb; auto |].
    rewrite Hdb. simpl. eexists. split; [reflexivity |].
    constructor; [| constructor].
    exists obj. split; [now left |]. exists key, k, o. auto.
Qed.

Lemma add_counter_response_links (callId : N) (cr : value) :
  keeps (links t_counterResponses objection_countered [cr])
    (add_counter_response callId cr).
Proof.
  intro w. pose proof (add_counter_response_run callId cr w) as H.
  unfold post in H.
  destruct H as [_ [Hsame | [id [key [k [o [q [c [Hp [Hk [Ho Hdb]]]]]]]]]]].
  - apply untouched_links. unfold untouched, same_vocabulary.
    rewrite Hsame. auto.
  - split; [unfold same_vocabulary; rewrite Hdb; auto |].
    rewrite Hdb. simpl. eexists. split; [reflexivity |].
    constructor; [| constructor].
    exists cr. split; [now left |]. exists key, k, o. auto.
Qed.

(** split a sequence into its parts, without looking inside them *)
Ltac split_binds Htrans :=
  repeat lazymatch goal with
         | |- keeps _ (bind _ _) => apply (keeps_bind _ Htrans); [| intro]
         end.

(** a part of the writer that leaves the vocabulary and the table [proj]
    alone *)
Ltac untouched_part proj good xs :=
  apply (keeps_weaken (untouched proj));
  [ apply (untouched_links proj good xs)
  | frame (untouched_refl proj) (untouched_trans proj);
    solve [repeat split; reflexivity] ].

Lemma storeExtraction_links_technologies rawMeetingId rawData extraction :
  keeps (links t_callTechnologies technology_named (tech_stack extraction))
    (storeExtraction rawMeetingId rawData extraction).
Proof.
  pose proof (links_trans t_callTechnologies technology_named
                technology_named_vocabulary (tech_stack extraction)) as Ht.
  unfold storeExtraction. split_binds Ht.
  5: { apply for_each_links;
       [exact technology_named_vocabulary | apply link_technology_links]. }
  all: untouched_part t_callTechnologies technology_named
         (tech_stack extraction).
Qed.

Lemma storeExtraction_links_objections rawMeetingId rawData extraction :
  keeps (links t_callObjections objection_named (objections extraction))
    (storeExtraction rawMeetingId rawData extraction).
Proof.
  pose proof (links_trans t_callObjections objection_named
                objection_named_vocabulary (objections extraction)) as Ht.
  unfold storeExtraction. split_binds Ht.
  6: { apply for_each_links;
       [exact objection_named_vocabulary | apply link_objection_links]. }
  all: untouched_part t_callObjections objection_named
         (objections extraction).
Qed.

Lemma storeExtraction_links_counter_responses
  rawMeetingId rawData extraction :
  keeps (links t_counterResponses objection_countered
           (counter_responses extraction))
    (storeExtraction rawMeetingId rawData extraction).
Proof.
  pose proof (links_trans t_counterResponses objection_countered
                objection_countered_vocabulary
                (counter_responses extraction)) as Ht.
  unfold storeExtraction. split_binds Ht.
  10: { apply for_each_links;
        [exact objection_countered_vocabulary
        | apply add_counter_response_links]. }
  all: untouched_part t_counterResponses objection_countered
         (counter_responses extraction).
Qed.

(** ** C5: the closed vocabularies *)

(** C5.  Entry by entry: a technology whose name has no row in
    [technologies], an objection whose [type_key] has no row in
    [objections], and a counter-response whose [objection_type_key] has
    none, each leave the store exactly as it was and let no exception out
    of the loop body.  For the whole of [storeExtraction]: the two
    vocabulary tables are the same afterwards, and every row added to
    [call_technologies], [call_objections] and [counter_responses] points
    to a vocabulary row that some entry of the extraction names. *)
Theorem storeExtraction_closed_vocabulary :
  (forall callId tech w,
      (forall k, where_text tech = Some k ->
                 find_technology (db w) k = None) ->
      fst (link_technology callId tech w) = Ok tt
      /\ db (snd (link_technology callId tech w)) = db w)
  /\ (forall callId obj w,
        (forall key k, prop obj "type_key" = Ok key ->
                       where_text key = Some k ->
                       find_objection (db w) k = None) ->
        fst (link_objection callId obj w) = Ok tt
        /\ db (snd (link_objection callId obj w)) = db w)
  /\ (forall callId cr w,
        (forall key k, prop cr "objection_type_key" = Ok key ->
                       where_text key = Some k ->
                       find_objection (db w) k = None) ->
        fst (add_counter_response callId cr w) = Ok tt
        /\ db (snd (add_counter_response callId cr w)) = db w)
  /\ (forall rawMeetingId rawData extraction w,
        t_objections
          (db (snd (storeExtraction rawMeetingId rawData extraction w)))
        = t_objections (db w)
        /\ t_technologies
             (db (snd (storeExtraction rawMeetingId rawData extraction w)))
           = t_technologies (db w)
        /\ (exists rows,
               t_callTechnologies
                 (db (snd (storeExtraction rawMeetingId rawData
                             extraction w)))
               = (t_callTechnologies (db w) ++ rows)%list
               /\ Forall (fun r => exists tech,
                              In tech (tech_stack extraction)
                              /\ technology_named (db w) tech r) rows)
        /\ (exists rows,
               t_callObjections
                 (db (snd (storeExtraction rawMeetingId rawData
                             extraction w)))
               = (t_callObjections (db w) ++ rows)%list
               /\ Forall (fun r => exists obj,
                              In obj (objections extraction)
                              /\ objection_named (db w) obj r) rows)
        /\ (exists rows,
               t_counterResponses
                 (db (snd (storeExtraction rawMeetingId rawData
                             extraction w)))
               = (t_counterResponses (db w) ++ rows)%list
               /\ Forall (fun r => exists cr,
                              In cr (counter_responses extraction)
                              /\ objection_countered (db w) cr r) rows)).
Proof.
  split; [| split; [| split]].
  - intros callId tech w Hunknown.
    pose proof (link_technology_run callId tech w) as H. unfold post in H.
    destruct H as [Hok [Hsame | [id [k [t [Hk [Ht _]]]]]]].
    + now split.
    + rewrite (Hunknown k Hk) in Ht. discriminate.
  - intros callId obj w Hunknown.
    pose proof (link_objection_run callId obj w) as H. unfold post in H.
    destruct H
      as [Hok [Hsame | [id [key [k [o [q [c [Hp [Hk [Ho _]]]]]]]]]]].
    + now split.
    + rewrite (Hunknown key k Hp Hk) in Ho. discriminate.
  - intros callId cr w Hunknown.
    pose proof (add_counter_response_run callId cr w) as H. unfold post in H.
    destruct H
      as [Hok [Hsame | [id [key [k [o [q [c [Hp [Hk [Ho _]]]]]]]]]]].
    + now split.
    + rewrite (Hunknown key k Hp Hk) in Ho. discriminate.
  - intros rawMeetingId rawData extraction w.
    destruct (storeExtraction_links_technologies rawMeetingId rawData
                extraction w) as [[Vo Vt] Htech].
    destruct (storeExtraction_links_objections rawMeetingId rawData
                extraction w) as [_ Hobj].
    destruct (storeExtraction_links_counter_responses rawMeetingId rawData
                extraction w) as [_ Hcr].
    repeat split; assumption.
Qed.

(** ** The Call row and the rows that hang on it *)

Lemma grown_refl {X : Type} (proj : Store -> list X) (callOf : X -> N)
  (callId : N) (w : World) :
  grown proj callOf callId w w.
Proof. exists []. rewrite app_nil_r. split; [reflexivity | constructor]. Qed.

Lemma grown_trans {X : Type} (proj : Store -> list X) (callOf : X -> N)
  (callId : N) (a b c : World) :
  grown proj callOf callId a b -> grown proj callOf callId b c ->
  grown proj callOf callId a c.
Proof.
  intros [r1 [E1 F1]] [r2 [E2 F2]]. exists (r1 ++ r2)%list. split.
  - now rewrite E2, E1, app_assoc.
  - apply Forall_app. now split.
Qed.

Lemma grown_same {X : Type} (proj : Store -> list X) (callOf : X -> N)
  (callId : N) (w w' : World) :
  proj (db w') = proj (db w) -> grown proj callOf callId w w'.
Proof.
  intro H. exists []. rewrite app_nil_r. split; [exact H | constructor].
Qed.

Lemma grown_from {X : Type} (proj : Store -> list X) (callOf : X -> N)
  (callId : N) (a a' b : World) :
  proj (db a') = proj (db a) ->
  grown proj callOf callId a' b -> grown proj callOf callId a b.
Proof. intros H [rows [E F]]. exists rows. now rewrite <- H. Qed.

Lemma children_of_refl (callId : N) (w : World) : children_of callId w w.
Proof. split; [reflexivity |]. repeat split; apply grown_refl. Qed.

Lemma children_of_trans (callId : N) (a b c : World) :
  children_of callId a b -> children_of callId b c -> children_of callId a c.
Proof.
  intros (H0 & H1 & H2 & H3 & H4 & H5 & H6 & H7 & H8)
         (I0 & I1 & I2 & I3 & I4 & I5 & I6 & I7 & I8).
  split; [congruence |].
  repeat split; eapply grown_trans; eassumption.
Qed.

Lemma no_call_written_refl (w : World) : no_call_written w w.
Proof. repeat split. Qed.

Lemma no_call_written_trans (a b c : World) :
  no_call_written a b -> no_call_written b c -> no_call_written a c.
Proof.
  intros (H0 & H1 & H2 & H3 & H4 & H5 & H6 & H7 & H8)
         (I0 & I1 & I2 & I3 & I4 & I5 & I6 & I7 & I8).
  repeat split; congruence.
Qed.

Lemma no_call_written_children (callId : N) (w w' : World) :
  no_call_written w w' -> children_of callId w w'.
Proof.
  intros (H0 & H1 & H2 & H3 & H4 & H5 & H6 & H7 & H8).
  split; [exact H0 |]. repeat split; now apply grown_same.
Qed.

(** a step that writes one row of the call [callId], or none *)
Ltac children_prim :=
  unfold children_of, hang_on; simpl;
  repeat lazymatch goal with
         | |- _ /\ _ => split
         end;
  try reflexivity;
  first [ apply grown_same; reflexivity
        | eexists; split;
          [reflexivity | constructor; [reflexivity | constructor]] ].

Lemma getOrCreateCompany_no_call (name : value) (date : option number) :
  keeps no_call_written (getOrCreateCompany name date).
Proof.
  frame no_call_written_refl no_call_written_trans.
  all: repeat split.
Qed.

(** the insertion of the Call row: it fails and writes nothing, or it
    returns the identifier of the row it has added *)
Lemma insert_call_result rawMeetingId rawData extraction companyId
  meetingDate duration w :
  post (insert_call rawMeetingId rawData extraction companyId
          meetingDate duration) w
    (fun r w' =>
       ((exists e, r = Throw e) /\ db w' = db w)
       \/ exists c,
           r = Ok (ca_id c)
           /\ ca_rawMeetingId c = Some rawMeetingId
           /\ call_columns extraction c
           /\ db w' = upd_calls (fun rows => rows ++ [c])%list (db w)).
Proof.
  wp; try (left; split; [eexists; reflexivity | reflexivity]).
  right. eexists. split; [| split; [| split]].
  4: reflexivity.
  - reflexivity.
  - reflexivity.
  - repeat split.
Qed.

Lemma storeExtraction_loops_children (callId companyId : N)
  (extraction : ExtractionResult) :
  keeps (children_of callId)
    (for_each (team_members extraction) (link_team_member callId) ;;
     for_each (prospect_names extraction)
       (link_prospect callId companyId) ;;
     for_each (tech_stack extraction) (link_technology callId) ;;
     for_each (objections extraction) (link_objection callId) ;;
     for_each (follow_up_actions extraction) (add_follow_up callId) ;;
     for_each (prospect_questions extraction) (add_question callId) ;;
     for_each (key_quotes extraction) (add_key_quote callId) ;;
     for_each (counter_responses extraction)
       (add_counter_response callId)).
Proof.
  frame (children_of_refl callId) (children_of_trans callId).
  all: children_prim.
Qed.

(** A run of the store writer: it fails before a Call row is written, or
    it has added one Call row, with the columns of the extraction result,
    and the rows that hang on it; in the second case it may still fail. *)
Lemma storeExtraction_run (rawMeetingId : N) (rawData : RawMeetingData)
  (extraction : ExtractionResult) (w : World) :
  post (storeExtraction rawMeetingId rawData extraction) w
    (fun r w' =>
       (no_call_written w w' /\ exists e, r = Throw e)
       \/ exists c,
           t_calls (db w') = (t_calls (db w) ++ [c])%list
           /\ ca_rawMeetingId c = Some rawMeetingId
           /\ call_columns extraction c
           /\ hang_on (ca_id c) w w').
Proof.
  unfold post, storeExtraction. rewrite bind_run.
  pose proof (getOrCreateCompany_no_call (company_name extraction)
                (if_truthy Date_of_number (date rawData)) w) as Hco.
  destruct (getOrCreateCompany _ _ w) as [[companyId | e1] w1];
    simpl in Hco; [| left; split; [exact Hco | now exists e1]].
  rewrite bind_run.
  pose proof (insert_call_result rawMeetingId rawData extraction companyId
                (if_truthy Date_of_number (date rawData))
                (if_truthy Math_round (duration rawData)) w1) as Hcall.
  unfold post in Hcall.
  destruct (insert_call _ _ _ _ _ _ w1) as [r2 w2]; simpl in Hcall.
  destruct Hcall as [[[e2 ->] Hdb] | [c [-> [Hraw [Hcols Hdb]]]]].
  - left. cbv beta iota. simpl. split; [| now exists e2].
    unfold no_call_written in *. rewrite Hdb. exact Hco.
  - right. cbv beta iota.
    pose proof (storeExtraction_loops_children (ca_id c) companyId
                  extraction w2) as Hloops.
    match goal with
    | H : children_of _ _ (snd ?x) |- context [snd ?y] =>
        change y with x; set (w3 := snd x) in *
    end.
    exists c.
    destruct Hloops as (H0 & L1 & L2 & L3 & L4 & L5 & L6 & L7 & L8).
    destruct Hco as (C0 & C1 & C2 & C3 & C4 & C5 & C6 & C7 & C8).
    split; [rewrite H0, Hdb; simpl; now rewrite C0 |].
    split; [exact Hraw |].
    split; [exact Hcols |].
    repeat split;
      (eapply grown_from; [| eassumption]);
      rewrite Hdb; simpl; assumption.
Qed.

(** ** C10: the enumerated fields, from the model to the Call row *)

Lemma insert_call_run rawMeetingId rawData extraction companyId
  meetingDate duration w :
  post (insert_call rawMeetingId rawData extraction companyId
          meetingDate duration) w
    (fun _ w' =>
       db w' = db w
       \/ exists c,
           call_columns extraction c
           /\ ca_rawMeetingId c = Some rawMeetingId
           /\ db w' = upd_calls (fun rows => rows ++ [c])%list (db w)).
Proof.
  wp; try (left; reflexivity).
  right. eexists. split; [| split; [| reflexivity]].
  - repeat split.
  - reflexivity.
Qed.

Lemma call_row_of_vocabulary extraction s s' (u : unit) c :
  t_objections s' = t_objections s ->
  t_technologies s' = t_technologies s ->
  call_row_of extraction s u c -> call_row_of extraction s' u c.
Proof. auto. Qed.

Lemma storeExtraction_call_rows rawMeetingId rawData extraction :
  keeps (links t_calls (call_row_of extraction) [tt])
    (storeExtraction rawMeetingId rawData extraction).
Proof.
  pose proof (links_trans t_calls (call_row_of extraction)
                (call_row_of_vocabulary extraction) [tt]) as Ht.
  unfold storeExtraction. split_binds Ht.
  2: { intro w.
       pose proof (insert_call_run rawMeetingId rawData extraction a
                     (if_truthy Date_of_number (date rawData))
                     (if_truthy Math_round (duration rawData)) w) as H.
       unfold post in H. destruct H as [Hsame | [c [Hc [_ Hdb]]]].
       - apply untouched_links. unfold untouched, same_vocabulary.
         rewrite Hsame. auto.
       - split; [unfold same_vocabulary; rewrite Hdb; auto |].
         rewrite Hdb. simpl. eexists. split; [reflexivity |].
         constructor; [| constructor].
         exists tt. split; [now left | exact Hc]. }
  all: untouched_part t_calls (call_row_of extraction) [tt].
Qed.

(** C10.  Normalization returns a non-empty string in [call_type],
    [offering_pitched] or [call_outcome] as it is, whether or not it is
    one of the documented values; only an absent or empty value gives way
    to the default ("discovery", "none", "neutral").  A run of
    [storeExtraction] that returns normally has added exactly one Call
    row, and that row holds the three strings of the parsed object
    unchanged; and in every run, a failed one too, a Call row that has
    been added holds them. *)
Theorem normalizeResult_enums_pass_through (raw : value)
  (r : ExtractionResult) :
  normalizeResult raw = Ok r ->
  ((forall s, field raw "call_type" = VStr s -> s <> "" ->
              call_type r = VStr s)
   /\ (field raw "call_type" = VUndef \/ field raw "call_type" = VStr "" ->
       call_type r = VStr "discovery"))
  /\ ((forall s, field raw "offering_pitched" = VStr s -> s <> "" ->
                 offering_pitched r = VStr s)
      /\ (field raw "offering_pitched" = VUndef
          \/ field raw "offering_pitched" = VStr "" ->
          offering_pitched r = VStr "none"))
  /\ ((forall s, field raw "call_outcome" = VStr s -> s <> "" ->
                 call_outcome r = VStr s)
      /\ (field raw "call_outcome" = VUndef
          \/ field raw "call_outcome" = VStr "" ->
          call_outcome r = VStr "neutral"))
  /\ (forall rawMeetingId rawData w,
        fst (storeExtraction rawMeetingId rawData r w) = Ok tt ->
        exists c,
          t_calls (db (snd (storeExtraction rawMeetingId rawData r w)))
          = (t_calls (db w) ++ [c])%list
          /\ ca_rawMeetingId c = Some rawMeetingId
          /\ (forall s, field raw "call_type" = VStr s -> s <> "" ->
                        ca_callType c = Some s)
          /\ (forall s, field raw "offering_pitched" = VStr s -> s <> "" ->
                        ca_offeringPitched c = Some s)
          /\ (forall s, field raw "call_outcome" = VStr s -> s <> "" ->
                        ca_callOutcome c = Some s))
  /\ (forall rawMeetingId rawData w,
        exists rows,
          t_calls (db (snd (storeExtraction rawMeetingId rawData r w)))
          = (t_calls (db w) ++ rows)%list
          /\ Forall
               (fun c =>
                  (forall s, call_type r = VStr s ->
                             ca_callType c = Some s)
                  /\ (forall s, offering_pitched r = VStr s ->
                                ca_offeringPitched c = Some s)
                  /\ (forall s, call_outcome r = VStr s ->
                                ca_callOutcome c = Some s))
               rows).
Proof.
  intro Hr.
  destruct (normalizeResult_fields raw r Hr) as [Hct [Hop Hco]].
  split; [| split; [| split; [| split]]].
  - rewrite Hct. split.
    + intros s -> Hs. now apply js_or_string.
    + apply js_or_absent.
  - rewrite Hop. split.
    + intros s -> Hs. now apply js_or_string.
    + apply js_or_absent.
  - rewrite Hco. split.
    + intros s -> Hs. now apply js_or_string.
    + apply js_or_absent.
  - intros rawMeetingId rawData w Hok.
    pose proof (storeExtraction_run rawMeetingId rawData r w) as Hrun.
    unfold post in Hrun. rewrite Hok in Hrun.
    destruct Hrun as [[_ [e He]] | [c (Hcalls & Hraw & (H1 & H2 & H3) & _)]];
      [discriminate |].
    exists c. split; [exact Hcalls |]. split; [exact Hraw |].
    rewrite H1, H2, H3, Hct, Hop, Hco.
    split; [| split]; intros s -> Hs; now rewrite js_or_string.
  - intros rawMeetingId rawData w.
    destruct (storeExtraction_call_rows rawMeetingId rawData r w)
      as [_ [rows [Hrows Hall]]].
    exists rows. split; [exact Hrows |].
    eapply Forall_impl; [| exact Hall].
    intros c [u [_ [H1 [H2 H3]]]].
    rewrite H1, H2, H3.
    repeat split; intros s ->; reflexivity.
Qed.

(** ** C6: placeholder addresses for team members *)

Lemma includes_at (s : string) : Str.includes s "@" = negb (no_at s).
Proof.
  induction s as [| c s IH]; [reflexivity |].
  unfold no_at in *. simpl. rewrite IH.
  destruct (Ascii.eqb c "@"%char); simpl; [reflexivity |].
  now destruct (Str.forallb _ s).
Qed.

Lemma forallb_rev_onto (p : ascii -> bool) (s acc : string) :
  Str.forallb p (Str.rev_onto s acc) = Str.forallb p s && Str.forallb p acc.
Proof.
  revert acc. induction s as [| c s IH]; intro acc; simpl; [reflexivity |].
  rewrite IH. simpl. destruct (p c), (Str.forallb p s); reflexivity.
Qed.

Lemma forallb_rev (p : ascii -> bool) (s : string) :
  Str.forallb p (Str.rev s) = Str.forallb p s.
Proof. unfold Str.rev. rewrite forallb_rev_onto. simpl. apply andb_true_r. Qed.



Lemma lower_char_at (c : ascii) :
  Ascii.eqb (Str.lower_char c) "@"%char = Ascii.eqb c "@"%char.
Proof.
  destruct c as [b0 b1 b2 b3 b4 b5 b6 b7].
  destruct b0, b1, b2, b3, b4, b5, b6, b7; reflexivity.
Qed.

Lemma no_at_toLowerCase (s : string) :
  no_at (Str.toLowerCase s) = no_at s.
Proof.
  unfold no_at. induction s as [| c s IH]; simpl; [reflexivity |].
  now rewrite lower_char_at, IH.
Qed.


Lemma find_app_new {A : Type} (p : A -> bool) (l : list A) (x : A) :
  find p l = None -> p x = true -> find p (l ++ [x]) = Some x.
Proof.
  intros Hl Hx. induction l as [| y l IH]; simpl in *.
  - now rewrite Hx.
  - destruct (p y); [discriminate | now apply IH].
Qed.


Lemma post_eq {A : Type} (c : M A) (w : World) (r : result A) (w' : World) :
  post c w (fun r0 w0 => r0 = r /\ w0 = w') -> c w = (r, w').
Proof.
  unfold post. intros [H1 H2]. rewrite <- H1, <- H2.
  now destruct (c w).
Qed.




(** ** The driver: frames *)

Lemma quiet_refl w : quiet w w.
Proof. split; reflexivity. Qed.

Lemma quiet_trans a b c : quiet a b -> quiet b c -> quiet a c.
Proof. intros [H1 H2] [H3 H4]. split; congruence. Qed.

Lemma classifyMeeting_quiet data : keeps quiet (classifyMeeting data).
Proof. frame quiet_refl quiet_trans. all: split; reflexivity. Qed.

Lemma extractSalesCall_quiet transcript title summary :
  keeps quiet (extractSalesCall transcript title summary).
Proof. frame quiet_refl quiet_trans. all: split; reflexivity. Qed.

Lemma marks_app (id : N) (log : list Statement) (st : Statement) :
  marks id (log ++ [st]) = (marks id log + (if is_mark id st then 1 else 0))%nat.
Proof.
  unfold marks. rewrite filter_app, length_app. simpl.
  now destruct (is_mark id st).
Qed.

Lemma backstage_refl w : backstage w w.
Proof. repeat split. Qed.

Lemma backstage_trans a b c : backstage a b -> backstage b c -> backstage a c.
Proof.
  intros [H1 [H2 H3]] [H4 [H5 H6]]. split; [congruence | split].
  - intro id. now rewrite H5, H2.
  - congruence.
Qed.

Ltac backstage_prim :=
  split; [reflexivity | split; [| reflexivity]];
  intro; unfold sent; simpl; try rewrite marks_app; simpl; lia.

Lemma storeExtraction_backstage rawMeetingId rawData extraction :
  keeps backstage (storeExtraction rawMeetingId rawData extraction).
Proof. frame backstage_refl backstage_trans. all: backstage_prim. Qed.

Lemma post_frame (R : World -> World -> Prop) {A : Type} (c : M A)
  (w : World) (Q : result A -> World -> Prop) :
  keeps R c -> (forall r w', R w w' -> Q r w') -> post c w Q.
Proof. intros Hc HQ. apply HQ, Hc. Qed.

Lemma post_and {A : Type} (c : M A) (w : World)
  (Q1 Q2 : result A -> World -> Prop) :
  post c w Q1 -> post c w Q2 -> post c w (fun r w' => Q1 r w' /\ Q2 r w').
Proof. unfold post. auto. Qed.

(** ** The driver: one record *)

(** Step 1 returns normally, whatever the classifier does. *)
Lemma classify_step_run i total m stats w :
  raw_meetings_reachable ->
  post (classify_step i total m stats) w
    (fun r w' =>
       exists c,
         r = Ok (c, count_classification c stats)
         /\ db w' = upd_rawMeetings
                      (update_where_id (rm_id m)
                         (with_classification (Classification_name c)))
                      (db w)
         /\ (forall id, marks id (db_log w') = marks id (db_log w))).
Proof.
  intro Hraw. unfold classify_step, set_classification.
  repeat wp_step.
  eapply (post_frame quiet); [apply classifyMeeting_quiet |].
  intros r w1 [Hdb Hlog].
  repeat wp_step;
    try (match goal with
         | H : db_fault _ _ _ = true |- _ =>
             rewrite Hraw in H by reflexivity; discriminate
         end);
    (eexists; split; [reflexivity | split]).
  all: try (simpl; rewrite Hdb; reflexivity).
  all: intro id; simpl; rewrite marks_app, Hlog; simpl; lia.
Qed.

(** Step 2 returns normally, whatever the extractor and the store do. *)
Lemma extract_step_total m c stats w :
  post (extract_step m c stats) w (fun r _ => exists stats', r = Ok stats').
Proof.
  unfold post, extract_step.
  destruct c; try (simpl; eauto).
  rewrite try_catch_run.
  destruct (extract_and_store m stats w) as [[s | e] w1]; simpl; eauto.
Qed.

Lemma offstage_refl w : offstage w w.
Proof. split; reflexivity. Qed.

Lemma offstage_trans a b c : offstage a b -> offstage b c -> offstage a c.
Proof.
  intros [H1 H2] [H3 H4]. split; [congruence |].
  intro id. now rewrite H4, H2.
Qed.

Lemma extract_step_offstage m c stats :
  keeps offstage (extract_step m c stats).
Proof.
  frame offstage_refl offstage_trans.
  all: split; [reflexivity |];
    intro; unfold sent; simpl; try rewrite marks_app; simpl; lia.
Qed.

Lemma mark_processed_run id w :
  raw_meetings_reachable ->
  post (mark_processed id) w
    (fun r w' =>
       r = Ok tt
       /\ db w' = upd_rawMeetings
                    (update_where_id id (with_processedAt (Z.of_N (now w))))
                    (db w)
       /\ db_log w' = (db_log w ++ [SqlSetProcessedAt id (Z.of_N (now w))])%list
       /\ llm_log w' = llm_log w
       /\ console w' = console w).
Proof.
  intro Hraw. unfold mark_processed.
  repeat wp_step;
    try (match goal with
         | H : db_fault _ _ _ = true |- _ =>
             rewrite Hraw in H by reflexivity; discriminate
         end).
  repeat split.
Qed.

Lemma row_done_refl rows : Forall2 (row_done []) rows rows.
Proof.
  induction rows as [| r rows IH]; constructor; [| exact IH].
  split; [reflexivity |]. now intros [H | []].
Qed.

Lemma row_done_trans a b x y z :
  Forall2 (row_done a) x y -> Forall2 (row_done b) y z ->
  Forall2 (row_done (a ++ b)) x z.
Proof.
  intro Hxy. revert z. induction Hxy as [| r r' x y [Hid Hp] Hxy IH];
    intros z Hyz; inversion Hyz as [| r0 r'' y0 z0 [Hid' Hp'] Hyz']; subst;
    constructor.
  - split; [congruence |].
    intros [H | H].
    + apply Hp'. left. apply Hp. now left.
    + apply in_app_or in H as [H | H].
      * apply Hp'. left. apply Hp. now right.
      * apply Hp'. right. now rewrite Hid.
  - now apply IH.
Qed.

Lemma rows_after_meeting (id : N) (c : string) (t : Z)
  (rows : list RawMeeting) :
  Forall2 (row_done [id]) rows
    (update_where_id id (with_processedAt t)
       (update_where_id id (with_classification c) rows)).
Proof.
  induction rows as [| r rows IH]; simpl; constructor; [| exact IH].
  destruct (N.eqb_spec (rm_id r) id) as [E | E]; simpl.
  - rewrite E, N.eqb_refl. simpl. split; [now rewrite E |].
    intros _. discriminate.
  - destruct (N.eqb_spec (rm_id r) id) as [E' | _]; [contradiction |].
    split; [reflexivity |].
    intros [H | [H | []]]; [exact H | congruence].
Qed.

(** One record: the loop body returns normally, sets the processed
    timestamp of that record once, and of no other. *)
Lemma process_meeting_run i total m stats w :
  raw_meetings_reachable ->
  post (process_meeting i total m stats) w
    (fun r w' =>
       (exists stats', r = Ok stats')
       /\ Forall2 (row_done [rm_id m])
            (t_rawMeetings (db w)) (t_rawMeetings (db w'))
       /\ (forall id,
              marks id (db_log w')
              = (marks id (db_log w)
                 + (if (rm_id m =? id)%N then 1 else 0))%nat)).
Proof.
  intro Hraw. unfold process_meeting.
  apply post_bind.
  eapply post_weaken; [apply classify_step_run, Hraw |].
  intros r w1 [c [-> [Hdb1 Hm1]]]. cbv beta match.
  apply post_bind.
  eapply post_weaken;
    [apply post_and;
     [apply extract_step_total
     | apply (keeps_post offstage), extract_step_offstage] |].
  intros r w2 [[stats2 ->] [Hrows2 Hm2]]. cbv beta match.
  apply post_bind.
  eapply post_weaken; [apply mark_processed_run, Hraw |].
  intros r w3 [-> [Hdb3 [Hlog3 _]]]. cbv beta match.
  apply post_ret.
  split; [eauto | split].
  - rewrite Hdb3. simpl. rewrite Hrows2, Hdb1. simpl.
    apply rows_after_meeting.
  - intro id. rewrite Hlog3, marks_app, Hm2, Hm1. reflexivity.
Qed.

(** The loop: every record of the list is marked, once per occurrence. *)
Lemma process_from_run unprocessed :
  raw_meetings_reachable ->
  forall i total stats w,
    post (process_from i total unprocessed stats) w
      (fun r w' =>
         (exists stats', r = Ok stats')
         /\ Forall2 (row_done (map rm_id unprocessed))
              (t_rawMeetings (db w)) (t_rawMeetings (db w'))
         /\ (forall id,
                marks id (db_log w')
                = (marks id (db_log w)
                   + count_occ N.eq_dec (map rm_id unprocessed) id)%nat)).
Proof.
  intro Hraw.
  induction unprocessed as [| m rest IH]; intros i total stats w; simpl.
  - apply post_ret. split; [eauto | split].
    + apply row_done_refl.
    + intro id. lia.
  - apply post_bind.
    eapply post_weaken; [apply process_meeting_run, Hraw |].
    intros r w1 [[stats1 ->] [Hrows1 Hm1]]. cbv beta match.
    eapply post_weaken; [apply IH |].
    intros r w2 [Hok [Hrows2 Hm2]].
    split; [exact Hok | split].
    + apply (row_done_trans [rm_id m] (map rm_id rest) _ _ _ Hrows1 Hrows2).
    + intro id. rewrite Hm2, Hm1.
      destruct (N.eq_dec (rm_id m) id) as [E | E].
      * rewrite E, N.eqb_refl. lia.
      * apply N.eqb_neq in E. rewrite E. lia.
Qed.

(** ** C1: every record of the backlog is marked once *)

(** distinct identifiers stay distinct in the backlog *)
Lemma backlog_ids_distinct (rows : list RawMeeting) :
  NoDup (map rm_id rows) ->
  NoDup (map rm_id (filter is_unprocessed rows)).
Proof.
  induction rows as [| m rows IH]; simpl; intro Hrows; [constructor |].
  apply NoDup_cons_iff in Hrows as [Hfresh Hrest].
  destruct (is_unprocessed m); simpl; [| now apply IH].
  apply NoDup_cons_iff. split; [| now apply IH].
  intro Hin. apply Hfresh.
  apply in_map_iff in Hin as [m' [Hid Hin]].
  apply filter_In in Hin as [Hin _].
  rewrite <- Hid. now apply in_map.
Qed.

(** with distinct identifiers, a row is known by its identifier *)
Lemma row_of_id (rows : list RawMeeting) (m m' : RawMeeting) :
  NoDup (map rm_id rows) ->
  In m rows -> In m' rows -> rm_id m = rm_id m' -> m = m'.
Proof.
  induction rows as [| r rows IH]; simpl; intros Hrows Hm Hm' Hid;
    [contradiction |].
  apply NoDup_cons_iff in Hrows as [Hfresh Hrest].
  destruct Hm as [-> | Hm], Hm' as [-> | Hm'].
  - reflexivity.
  - exfalso. apply Hfresh. rewrite Hid. now apply in_map.
  - exfalso. apply Hfresh. rewrite <- Hid. now apply in_map.
  - now apply IH.
Qed.

Lemma row_done_ids ids rows rows' :
  Forall2 (row_done ids) rows rows' -> map rm_id rows' = map rm_id rows.
Proof.
  induction 1 as [| r r' rows rows' [Hid _] _ IH]; simpl;
    [reflexivity | now rewrite Hid, IH].
Qed.

Lemma row_done_all ids rows rows' :
  Forall2 (row_done ids) rows rows' ->
  (forall r, In r rows -> is_processed r \/ In (rm_id r) ids) ->
  Forall is_processed rows'.
Proof.
  induction 1 as [| r r' rows rows' [_ Hp] _ IH]; intro Hall;
    constructor.
  - apply Hp, Hall. now left.
  - apply IH. intros x Hx. apply Hall. now right.
Qed.

Lemma unprocessed_or_processed (m : RawMeeting) :
  is_processed m \/ is_unprocessed m = true.
Proof.
  unfold is_processed, is_unprocessed.
  destruct (rm_processedAt m); [left; discriminate | now right].
Qed.

(** A run of [main]: it returns normally, and marks the records of the
    backlog. *)
Lemma main_run w :
  raw_meetings_reachable ->
  post main w
    (fun r w' =>
       (exists stats, r = Ok stats)
       /\ Forall2
            (row_done
               (map rm_id (filter is_unprocessed (t_rawMeetings (db w)))))
            (t_rawMeetings (db w)) (t_rawMeetings (db w'))
       /\ (forall id,
              marks id (db_log w')
              = (marks id (db_log w)
                 + count_occ N.eq_dec
                     (map rm_id
                        (filter is_unprocessed (t_rawMeetings (db w))))
                     id)%nat)).
Proof.
  intro Hraw. unfold main, select_unprocessed.
  repeat wp_step;
    try (match goal with
         | H : db_fault _ _ _ = true |- _ =>
             rewrite Hraw in H by reflexivity; discriminate
         end).
  - change (filter is_unprocessed (t_rawMeetings (db w)) = []) in Heql.
    rewrite Heql. split; [eauto | split].
    + apply row_done_refl.
    + intro id. simpl. rewrite marks_app. simpl. lia.
  - change (filter is_unprocessed (t_rawMeetings (db w)) = r :: l) in Heql.
    rewrite Heql.
    eapply post_weaken; [apply process_from_run, Hraw |].
    intros r0 w1 [[stats1 ->] [Hrows Hm]]. cbv beta match.
    repeat wp_step. split; [eauto | split].
    + exact Hrows.
    + intro id. simpl. rewrite Hm. simpl. rewrite marks_app. simpl. lia.
Qed.

(** A run of [main] on a store without backlog: one query, and nothing
    else. *)
Lemma main_idle w :
  raw_meetings_reachable ->
  Forall is_processed (t_rawMeetings (db w)) ->
  post main w
    (fun r w' =>
       r = Ok None
       /\ db w' = db w
       /\ llm_log w' = llm_log w
       /\ db_log w' = (db_log w ++ [SqlSelect T_rawMeetings])%list).
Proof.
  intros Hraw Hall. unfold main, select_unprocessed.
  repeat wp_step;
    try (match goal with
         | H : db_fault _ _ _ = true |- _ =>
             rewrite Hraw in H by reflexivity; discriminate
         end).
  - repeat split.
  - exfalso.
    change (filter is_unprocessed (t_rawMeetings (db w)) = r :: l) in Heql.
    assert (Hin : In r (filter is_unprocessed (t_rawMeetings (db w))))
      by (rewrite Heql; now left).
    apply filter_In in Hin as [Hin Hun].
    rewrite Forall_forall in Hall. specialize (Hall r Hin).
    unfold is_processed, is_unprocessed in *.
    destruct (rm_processedAt r); [discriminate | now apply Hall].
Qed.

(** C1.  When the identifiers of the raw meetings are distinct and the
    store accepts the statements on [raw_meetings], one run of [main],
    whatever the language model and the other tables do, returns normally;
    it sets the processed timestamp of every record that had none exactly
    once, and of no other record; afterwards every record has a processed
    timestamp, and a second run selects nothing: it sends its one query,
    no request, and leaves the store as it is. *)
Theorem main_marks_backlog_once (w : World) :
  NoDup (map rm_id (t_rawMeetings (db w))) ->
  raw_meetings_reachable ->
  exists r w1,
    main w = (Ok r, w1)
    /\ (forall m, In m (t_rawMeetings (db w)) -> rm_processedAt m = None ->
          marks (rm_id m) (db_log w1) = S (marks (rm_id m) (db_log w)))
    /\ (forall m, In m (t_rawMeetings (db w)) -> rm_processedAt m <> None ->
          marks (rm_id m) (db_log w1) = marks (rm_id m) (db_log w))
    /\ map rm_id (t_rawMeetings (db w1)) = map rm_id (t_rawMeetings (db w))
    /\ Forall is_processed (t_rawMeetings (db w1))
    /\ exists w2,
        main w1 = (Ok None, w2)
        /\ db w2 = db w1
        /\ llm_log w2 = llm_log w1
        /\ db_log w2 = (db_log w1 ++ [SqlSelect T_rawMeetings])%list.
Proof.
  intros Hnodup Hraw.
  pose proof (main_run w Hraw) as H. unfold post in H.
  destruct (main w) as [r0 w1] eqn:Hmain. simpl in H.
  destruct H as [[r ->] [Hrows Hmarks]].
  set (backlog := filter is_unprocessed (t_rawMeetings (db w))) in *.
  assert (Hall : Forall is_processed (t_rawMeetings (db w1))).
  { apply (row_done_all _ _ _ Hrows). intros x Hx.
    destruct (unprocessed_or_processed x) as [Hp | Hu]; [now left |].
    right. apply in_map. apply filter_In. now split. }
  exists r, w1. split; [reflexivity |].
  split; [| split; [| split; [| split]]].
  - intros m Hin Hnone. rewrite Hmarks.
    assert (Hone : count_occ N.eq_dec (map rm_id backlog) (rm_id m) = 1%nat).
    { apply (proj1 (NoDup_count_occ' N.eq_dec (map rm_id backlog))).
      - now apply backlog_ids_distinct.
      - apply in_map. apply filter_In. split; [exact Hin |].
        unfold is_unprocessed. now rewrite Hnone. }
    rewrite Hone. lia.
  - intros m Hin Hsome. rewrite Hmarks.
    assert (Hzero : count_occ N.eq_dec (map rm_id backlog) (rm_id m) = 0%nat).
    { apply (proj1 (count_occ_not_In N.eq_dec (map rm_id backlog) (rm_id m))).
      intro Hin'. apply in_map_iff in Hin' as [x [Hid Hx]].
      apply filter_In in Hx as [Hx Hun].
      assert (x = m) by
        (apply (row_of_id (t_rawMeetings (db w))); assumption).
      subst x. unfold is_unprocessed in Hun.
      destruct (rm_processedAt m); [discriminate | now apply Hsome]. }
    rewrite Hzero. lia.
  - apply (row_done_ids _ _ _ Hrows).
  - exact Hall.
  - pose proof (main_idle w1 Hraw Hall) as Hidle. unfold post in Hidle.
    destruct (main w1) as [r2 w2]. simpl in Hidle.
    destruct Hidle as [-> [Hdb [Hllm Hlog]]].
    exists w2. repeat split; assumption.
Qed.

(** ** The driver: the extraction step of a sales call *)

Lemma too_short_test (t : string) :
  negb (Str.truthy t) || (Str.len t <? MIN_TRANSCRIPT)%N
  = (Str.len t <? MIN_TRANSCRIPT)%N.
Proof. destruct t; reflexivity. Qed.

Lemma extractSalesCall_parse_failure transcript title summary w text :
  llm_reply env (N.of_nat (length (llm_log w)))
    (extraction_request transcript title summary) = Some text ->
  JSON_parse env (strip_fences (Str.trim text)) = None ->
  fst (extractSalesCall transcript title summary w) = Throw ParseError.
Proof.
  intros Hreply Hparse. unfold extractSalesCall.
  rewrite bind_run. unfold messages_create. rewrite Hreply, Hparse.
  reflexivity.
Qed.

(** Step 2 for a record classified [sales_call]: a transcript of fewer than
    50 characters is skipped; otherwise one request is sent, and a failure
    of the extractor is caught and counted. *)
Lemma extract_step_sales_run m stats w :
  post (extract_step m sales_call stats) w
    (fun r w' =>
       if (Str.len (transcript_of m) <? MIN_TRANSCRIPT)%N then
         r = Ok stats
         /\ db w' = db w /\ db_log w' = db_log w /\ llm_log w' = llm_log w
         /\ console w' = (console w ++ [LogSkipTooShort])%list
       else
         llm_log w'
         = (llm_log w
              ++ [extraction_request (transcript_of m) (title_of m)
                    (overview_of m)])%list
         /\ (forall e w2,
                extractSalesCall (transcript_of m) (title_of m)
                  (overview_of m) (set_now (now w + API_DELAY)%N w)
                = (Throw e, w2) ->
                r = Ok (count_extraction_error stats)
                /\ db w' = db w /\ db_log w' = db_log w
                /\ console w' = (console w2 ++ [LogExtractionError])%list)).
Proof.
  unfold extract_step, extract_and_store.
  apply post_try_catch. rewrite too_short_test.
  destruct (Str.len (transcript_of m) <? MIN_TRANSCRIPT)%N.
  - repeat wp_step. repeat split.
  - apply post_bind, post_sleep. cbv beta match. apply post_bind.
    pose proof (extractSalesCall_request (transcript_of m) (title_of m)
                  (overview_of m) (set_now (now w + API_DELAY)%N w)) as Hreq.
    pose proof (extractSalesCall_quiet (transcript_of m) (title_of m)
                  (overview_of m) (set_now (now w + API_DELAY)%N w))
      as [Hdb Hlog].
    unfold post at 1.
    destruct (extractSalesCall (transcript_of m) (title_of m) (overview_of m)
                (set_now (now w + API_DELAY)%N w)) as [[x | e] w2] eqn:E;
      simpl in Hreq, Hdb, Hlog |- *.
    + repeat wp_step.
      all: try (eapply (post_frame backstage);
                [apply storeExtraction_backstage |];
                intros r1 w3 [_ [_ Hllm]]; repeat wp_step).
      all: split; [simpl in *; congruence | intros ? ? Heq; discriminate Heq].
    + repeat wp_step. split; [exact Hreq |].
      intros e' w2' Heq. injection Heq as <- <-.
      repeat split; assumption.
Qed.

Lemma update_where_id_done id t rows :
  Forall (fun r => rm_id r = id -> is_processed r)
    (update_where_id id (with_processedAt t) rows).
Proof.
  induction rows as [| r rows IH]; simpl; constructor; [| exact IH].
  destruct (N.eqb_spec (rm_id r) id) as [E | E]; simpl.
  - intros _. discriminate.
  - intro E'. contradiction.
Qed.

Lemma classify_step_inv i total m stats w c stats1 w1 :
  raw_meetings_reachable ->
  classify_step i total m stats w = (Ok (c, stats1), w1) ->
  stats1 = count_classification c stats
  /\ db w1 = upd_rawMeetings
               (update_where_id (rm_id m)
                  (with_classification (Classification_name c)))
               (db w).
Proof.
  intros Hraw Hrun.
  pose proof (classify_step_run i total m stats w Hraw) as H.
  unfold post in H. rewrite Hrun in H. simpl in H.
  destruct H as [c' [Heq [Hdb _]]]. injection Heq as <- <-. now split.
Qed.

(** The loop body once step 1 has classified the record: step 2, then the
    mark. *)
Lemma process_meeting_after_classification i total m stats w c stats1 w1 :
  raw_meetings_reachable ->
  classify_step i total m stats w = (Ok (c, stats1), w1) ->
  exists stats2 w2 w',
    extract_step m c stats1 w1 = (Ok stats2, w2)
    /\ process_meeting i total m stats w = (Ok stats2, w')
    /\ db w' = upd_rawMeetings
                 (update_where_id (rm_id m)
                    (with_processedAt (Z.of_N (now w2))))
                 (db w2)
    /\ llm_log w' = llm_log w2
    /\ console w' = console w2.
Proof.
  intros Hraw Hclass.
  pose proof (extract_step_total m c stats1 w1) as Htotal.
  unfold post in Htotal.
  destruct (extract_step m c stats1 w1) as [r2 w2] eqn:Hextract.
  simpl in Htotal. destruct Htotal as [stats2 ->].
  pose proof (mark_processed_run (rm_id m) w2 Hraw) as Hmark.
  unfold post in Hmark.
  destruct (mark_processed (rm_id m) w2) as [r3 w3] eqn:Hm3.
  simpl in Hmark. destruct Hmark as [-> [Hdb [_ [Hllm Hcons]]]].
  exists stats2, w2, w3. split; [reflexivity |].
  split; [| now repeat split].
  unfold process_meeting.
  rewrite bind_run, Hclass. simpl fst. simpl snd.
  rewrite bind_run, Hextract, bind_run, Hm3. reflexivity.
Qed.

(** ** C2: a failure of step 2 *)

(** what the body of the [try] of step 2 does to the table of calls *)
Lemma extract_and_store_calls m stats w :
  post (extract_and_store m stats) w
    (fun _ w' =>
       t_calls (db w') = t_calls (db w)
       \/ exists c,
           t_calls (db w') = (t_calls (db w) ++ [c])%list
           /\ ca_rawMeetingId c = Some (rm_id m)).
Proof.
  unfold extract_and_store.
  destruct (negb (Str.truthy (transcript_of m))
            || (Str.len (transcript_of m) <? MIN_TRANSCRIPT)%N).
  - repeat wp_step. now left.
  - apply post_bind, post_sleep. cbv beta match. apply post_bind.
    eapply (post_frame quiet); [apply extractSalesCall_quiet |].
    intros [extraction | e] w1 [Hdb1 _]; cbv beta match;
      [| left; now rewrite Hdb1].
    simpl in Hdb1.
    do 3 (apply post_bind, post_lift;
          match goal with
          | |- context [template ?v] => destruct (template v) as [[] | ?]
          end; cbv beta match; [| left; now rewrite Hdb1]).
    apply post_bind, post_console_log. cbv beta match. apply post_bind.
    destruct (rm_rawJson m) as [rawData |];
      [| apply post_throw; left; simpl; now rewrite Hdb1].
    eapply post_weaken; [apply storeExtraction_run |].
    intros r w2 Hrun. simpl in Hrun. rewrite Hdb1 in Hrun.
    assert (Hcalls : t_calls (db w2) = t_calls (db w)
                     \/ exists c,
                         t_calls (db w2) = (t_calls (db w) ++ [c])%list
                         /\ ca_rawMeetingId c = Some (rm_id m)).
    { destruct Hrun as [[(H0 & _) _] | [c (Hc & Hraw & _)]];
        [left; simpl in H0; now rewrite H0, Hdb1 | right; now exists c]. }
    destruct r as [[] | e]; cbv beta match; [apply post_ret |]; exact Hcalls.
Qed.

(** C2.  Take a record that step 1 classified [sales_call], and suppose
    the body of the [try] of step 2 fails, wherever it does: the model
    call rejects, its answer does not parse as JSON once the fences are
    stripped, normalization throws, the message about the result cannot
    be put together, or the store writer fails.  Then the loop body
    returns normally: the error is logged and counted once as an
    extraction error and not as an extraction, and the record has its
    processed timestamp.  The table of calls is as it was, or has gained
    one Call row of this record: the store writer failed after it had
    inserted the row.  When it is the extractor that failed, the table
    of calls is as it was. *)
Theorem extraction_failure_is_caught i total m stats w stats1 w1 e w2 :
  raw_meetings_reachable ->
  classify_step i total m stats w = (Ok (sales_call, stats1), w1) ->
  extract_and_store m stats1 w1 = (Throw e, w2) ->
  exists stats' w',
    process_meeting i total m stats w = (Ok stats', w')
    /\ st_extractionErrors stats' = S (st_extractionErrors stats)
    /\ st_extracted stats' = st_extracted stats
    /\ In LogExtractionError (console w')
    /\ Forall (fun r => rm_id r = rm_id m -> is_processed r)
         (t_rawMeetings (db w'))
    /\ (t_calls (db w') = t_calls (db w)
        \/ exists c,
            t_calls (db w') = (t_calls (db w) ++ [c])%list
            /\ ca_rawMeetingId c = Some (rm_id m))
    /\ ((exists e' w2',
            extractSalesCall (transcript_of m) (title_of m) (overview_of m)
              (set_now (now w1 + API_DELAY)%N w1) = (Throw e', w2')) ->
        t_calls (db w') = t_calls (db w)).
Proof.
  intros Hraw Hclass Hfail.
  destruct (classify_step_inv _ _ _ _ _ _ _ _ Hraw Hclass) as [-> Hdb1].
  destruct (process_meeting_after_classification _ _ _ _ _ _ _ _ Hraw Hclass)
    as [stats2 [w3 [w' [Hextract [Hrun [Hdb' [_ Hcons']]]]]]].
  assert (Hstep : extract_step m sales_call
                    (count_classification sales_call stats) w1
                  = (Ok (count_extraction_error
                           (count_classification sales_call stats)),
                     set_console (console w2 ++ [LogExtractionError])%list
                       w2)).
  { unfold extract_step. rewrite try_catch_run, Hfail. reflexivity. }
  rewrite Hstep in Hextract. injection Hextract as <- <-.
  pose proof (extract_and_store_calls m
                (count_classification sales_call stats) w1) as Hcalls.
  unfold post in Hcalls. rewrite Hfail in Hcalls. simpl in Hcalls.
  assert (H1 : t_calls (db w1) = t_calls (db w))
    by (rewrite Hdb1; reflexivity).
  assert (H' : t_calls (db w') = t_calls (db w2))
    by (rewrite Hdb'; reflexivity).
  exists (count_extraction_error (count_classification sales_call stats)), w'.
  split; [exact Hrun |].
  split; [reflexivity |].
  split; [reflexivity |].
  split; [rewrite Hcons'; simpl; apply in_or_app; right; now left |].
  split; [rewrite Hdb'; simpl; apply update_where_id_done |].
  split; [rewrite H', <- H1; exact Hcalls |].
  intros [e' [w2' Hx]].
  pose proof (extract_step_sales_run m
                (count_classification sales_call stats) w1) as Hsales.
  unfold post in Hsales. rewrite Hstep in Hsales. simpl in Hsales.
  destruct (Str.len (transcript_of m) <? MIN_TRANSCRIPT)%N.
  - destruct Hsales as (_ & Hdb & _). rewrite H', <- H1. now rewrite Hdb.
  - destruct Hsales as [_ Hcaught].
    destruct (Hcaught e' w2' Hx) as (_ & Hdb & _).
    rewrite H', <- H1. now rewrite Hdb.
Qed.

(** ** C9: the minimum transcript length *)

(** C9, amended.  For a record that step 1 classified [sales_call]: when
    the transcript has fewer than 50 characters (none at all included) the
    loop body logs the skip, sends no request, counts neither an
    extraction nor an extraction error, leaves the table of calls as it
    was and marks the record processed; when it has 50 characters or more
    the extraction request is sent, once. *)
Theorem short_transcript_is_skipped i total m stats w stats1 w1 :
  raw_meetings_reachable ->
  classify_step i total m stats w = (Ok (sales_call, stats1), w1) ->
  ((Str.len (transcript_of m) < MIN_TRANSCRIPT)%N ->
   exists w',
     process_meeting i total m stats w = (Ok stats1, w')
     /\ llm_log w' = llm_log w1
     /\ In LogSkipTooShort (console w')
     /\ st_extractionErrors stats1 = st_extractionErrors stats
     /\ st_extracted stats1 = st_extracted stats
     /\ t_calls (db w') = t_calls (db w)
     /\ Forall (fun r => rm_id r = rm_id m -> is_processed r)
          (t_rawMeetings (db w')))
  /\ ((MIN_TRANSCRIPT <= Str.len (transcript_of m))%N ->
      llm_log (snd (process_meeting i total m stats w))
      = (llm_log w1
           ++ [extraction_request (transcript_of m) (title_of m)
                 (overview_of m)])%list).
Proof.
  intros Hraw Hclass.
  destruct (classify_step_inv _ _ _ _ _ _ _ _ Hraw Hclass) as [-> Hdb1].
  destruct (process_meeting_after_classification _ _ _ _ _ _ _ _ Hraw Hclass)
    as [stats2 [w3 [w' [Hextract [Hrun [Hdb' [Hllm' Hcons']]]]]]].
  pose proof (extract_step_sales_run m
                (count_classification sales_call stats) w1) as Hstep.
  unfold post in Hstep. rewrite Hextract in Hstep. simpl in Hstep.
  split.
  - intro Hshort.
    destruct (N.ltb_spec (Str.len (transcript_of m)) MIN_TRANSCRIPT)
      as [_ | Hge]; [| lia].
    destruct Hstep as [Hstats [Hdb3 [_ [Hllm3 Hcons3]]]].
    injection Hstats as ->.
    exists w'. split; [exact Hrun |].
    split; [congruence |].
    split; [rewrite Hcons', Hcons3; apply in_or_app; right; now left |].
    split; [reflexivity |].
    split; [reflexivity |].
    split; [rewrite Hdb', Hdb3, Hdb1; reflexivity |].
    rewrite Hdb'. simpl. apply update_where_id_done.
  - intro Hlong.
    destruct (N.ltb_spec (Str.len (transcript_of m)) MIN_TRANSCRIPT)
      as [Hlt | _]; [lia |].
    destruct Hstep as [Hreq _].
    rewrite Hrun. simpl. congruence.
Qed.

(** ** The collected addresses *)

Lemma dedup_from_fresh (seen xs : list string) (x : string) :
  In x (Str.dedup_from seen xs) ->
  In x xs /\ existsb (String.eqb x) seen = false.
Proof.
  revert seen. induction xs as [| y rest IH]; intros seen Hin; simpl in *.
  - contradiction.
  - destruct (existsb (String.eqb y) seen) eqn:Hseen.
    + destruct (IH _ Hin) as [H1 H2]. auto.
    + destruct Hin as [-> | Hin]; [auto |].
      destruct (IH _ Hin) as [H1 H2]. simpl in H2.
      apply orb_false_elim in H2. tauto.
Qed.

Lemma dedup_from_distinct (seen xs : list string) :
  NoDup (Str.dedup_from seen xs).
Proof.
  revert seen. induction xs as [| y rest IH]; intro seen; simpl.
  - constructor.
  - destruct (existsb (String.eqb y) seen); [apply IH |].
    constructor; [| apply IH].
    intro Hin. apply dedup_from_fresh in Hin. destruct Hin as [_ Hin].
    simpl in Hin. rewrite String.eqb_refl in Hin. discriminate.
Qed.

Lemma lower_char_not_upper (c : ascii) :
  Str.is_upper (Str.lower_char c) = false.
Proof.
  destruct c as [[] [] [] [] [] [] [] []]; reflexivity.
Qed.

Lemma toLowerCase_no_upper (s : string) :
  Str.forallb (fun c => negb (Str.is_upper c)) (Str.toLowerCase s) = true.
Proof.
  induction s as [| c s IH]; simpl; [reflexivity |].
  now rewrite lower_char_not_upper, IH.
Qed.

Lemma toLowerCase_truthy (s : string) :
  Str.truthy (Str.toLowerCase s) = Str.truthy s.
Proof. destruct s; reflexivity. Qed.

Lemma push_if_collected (c : bool) (x : string) (acc : list string) :
  (c = true -> Str.truthy x = true) ->
  Forall collected acc ->
  Forall collected (push_if c (Str.toLowerCase x) acc).
Proof.
  intros Hc Hacc. unfold push_if. destruct c; [| exact Hacc].
  apply Forall_app. split; [exact Hacc |].
  constructor; [| constructor].
  split; [rewrite toLowerCase_truthy; auto | apply toLowerCase_no_upper].
Qed.

Lemma fold_push_collected {A : Type} (c : A -> bool) (f : A -> string)
  (xs : list A) (acc : list string) :
  (forall a, c a = true -> Str.truthy (f a) = true) ->
  Forall collected acc ->
  Forall collected
    (fold_left (fun acc a => push_if (c a) (Str.toLowerCase (f a)) acc)
       xs acc).
Proof.
  intro Hc. revert acc. induction xs as [| a rest IH]; intros acc Hacc; simpl.
  - exact Hacc.
  - apply IH. apply push_if_collected; auto.
Qed.

Lemma getAllEmails_collected (data : RawMeetingData) :
  Forall collected (getAllEmails data).
Proof.
  unfold getAllEmails, Str.dedup.
  apply Forall_forall. intros e He.
  apply dedup_from_fresh in He. destruct He as [He _].
  revert e He. apply Forall_forall.
  set (a0 := @nil string).
  assert (H0 : Forall collected a0) by constructor.
  set (a1 := match host_email data with
             | Some e => push_if (Str.truthy e) (Str.toLowerCase e) a0
             | None => a0
             end).
  assert (H1 : Forall collected a1).
  { unfold a1. destruct (host_email data);
      [apply push_if_collected |]; auto. }
  set (a2 := match organizer_email data with
             | Some e => push_if (Str.truthy e) (Str.toLowerCase e) a1
             | None => a1
             end).
  assert (H2 : Forall collected a2).
  { unfold a2. destruct (organizer_email data);
      [apply push_if_collected |]; auto. }
  set (a3 := match participants data with
             | Some ps => fold_left _ ps a2
             | None => a2
             end).
  assert (H3 : Forall collected a3).
  { unfold a3. destruct (participants data); [| exact H2].
    apply (fold_push_collected
             (fun p => Str.truthy p && Str.includes p "@") (fun p => p));
      [| exact H2].
    intros p Hp. now apply andb_true_iff in Hp. }
  destruct (meeting_attendees data); [| exact H3].
  apply (fold_push_collected (fun a => Str.truthy (att_email a)) att_email);
    auto.
Qed.

Lemma dedup_from_member (seen xs : list string) (x : string) :
  In x xs -> existsb (String.eqb x) seen = false ->
  In x (Str.dedup_from seen xs).
Proof.
  revert seen. induction xs as [| y rest IH]; intros seen Hin Hseen;
    simpl in *; [contradiction |].
  destruct (String.eqb_spec x y) as [<- | Hxy].
  - rewrite Hseen. now left.
  - destruct Hin as [Hin | Hin]; [congruence |].
    destruct (existsb (String.eqb y) seen); [now apply IH |].
    right. apply IH; [exact Hin |].
    simpl. rewrite Hseen.
    destruct (String.eqb_spec x y); [contradiction | reflexivity].
Qed.

Lemma push_if_member (c : bool) (y : string) (acc : list string)
  (x : string) :
  In x (push_if c y acc) <-> In x acc \/ (c = true /\ x = y).
Proof.
  unfold push_if. destruct c.
  - rewrite in_app_iff. simpl. intuition congruence.
  - intuition discriminate.
Qed.

Lemma fold_push_member {A : Type} (c : A -> bool) (f : A -> string)
  (xs : list A) (acc : list string) (x : string) :
  In x (fold_left (fun acc a => push_if (c a) (f a) acc) xs acc)
  <-> In x acc \/ exists a, In a xs /\ c a = true /\ x = f a.
Proof.
  revert acc. induction xs as [| a rest IH]; intro acc; simpl.
  - split; [now left | intros [H | [a [[] _]]]; exact H].
  - rewrite IH, push_if_member. split.
    + intros [[H | [Hc Hx]] | [b [Hb Hrest]]].
      * now left.
      * right. exists a. auto.
      * right. exists b. auto.
    + intros [H | [b [[<- | Hb] Hrest]]].
      * left. now left.
      * left. right. tauto.
      * right. now exists b.
Qed.

(** the addresses of the four sources of [data] *)
Lemma getAllEmails_member (data : RawMeetingData) (x : string) :
  In x (getAllEmails data)
  <-> (exists e,
          host_email data = Some e
          /\ Str.truthy e = true /\ x = Str.toLowerCase e)
      \/ (exists e,
             organizer_email data = Some e
             /\ Str.truthy e = true /\ x = Str.toLowerCase e)
      \/ (exists ps p,
             participants data = Some ps
             /\ In p ps
             /\ Str.truthy p = true /\ Str.includes p "@" = true
             /\ x = Str.toLowerCase p)
      \/ (exists ats a,
             meeting_attendees data = Some ats
             /\ In a ats
             /\ Str.truthy (att_email a) = true
             /\ x = Str.toLowerCase (att_email a)).
Proof.
  unfold getAllEmails, Str.dedup.
  set (a1 := match host_email data with
             | Some e => push_if (Str.truthy e) (Str.toLowerCase e) []
             | None => []
             end).
  set (a2 := match organizer_email data with
             | Some e => push_if (Str.truthy e) (Str.toLowerCase e) a1
             | None => a1
             end).
  set (a3 := match participants data with
             | Some ps => fold_left _ ps a2
             | None => a2
             end).
  set (a4 := match meeting_attendees data with
             | Some ats => fold_left _ ats a3
             | None => a3
             end).
  assert (H1 : In x a1
               <-> exists e,
                     host_email data = Some e
                     /\ Str.truthy e = true /\ x = Str.toLowerCase e).
  { unfold a1. destruct (host_email data) as [e |].
    - rewrite push_if_member. simpl. split.
      + intros [[] | [Ht Hx]]. now exists e.
      + intros [e' [He [Ht Hx]]]. injection He as <-. auto.
    - simpl. split; [intros [] | intros [e [He _]]; discriminate]. }
  assert (H2 : In x a2
               <-> In x a1
                   \/ exists e,
                        organizer_email data = Some e
                        /\ Str.truthy e = true /\ x = Str.toLowerCase e).
  { unfold a2. destruct (organizer_email data) as [e |].
    - rewrite push_if_member. split.
      + intros [H | [Ht Hx]]; [now left | right; now exists e].
      + intros [H | [e' [He [Ht Hx]]]]; [now left |].
        injection He as <-. auto.
    - split; [now left | intros [H | [e [He _]]]; [exact H | discriminate]]. }
  assert (H3 : In x a3
               <-> In x a2
                   \/ exists ps p,
                        participants data = Some ps
                        /\ In p ps
                        /\ Str.truthy p = true /\ Str.includes p "@" = true
                        /\ x = Str.toLowerCase p).
  { unfold a3. destruct (participants data) as [ps |].
    - rewrite (fold_push_member
                 (fun p => Str.truthy p && Str.includes p "@")
                 Str.toLowerCase).
      split.
      + intros [H | [p [Hp [Hc Hx]]]]; [now left |].
        apply andb_true_iff in Hc. right. exists ps, p. tauto.
      + intros [H | [ps' [p [Hps [Hp [Ht [Hi Hx]]]]]]]; [now left |].
        injection Hps as <-. right. exists p.
        rewrite Ht, Hi. auto.
    - split; [now left |].
      intros [H | [ps [p [Hps _]]]]; [exact H | discriminate]. }
  assert (H4 : In x a4
               <-> In x a3
                   \/ exists ats a,
                        meeting_attendees data = Some ats
                        /\ In a ats
                        /\ Str.truthy (att_email a) = true
                        /\ x = Str.toLowerCase (att_email a)).
  { unfold a4. destruct (meeting_attendees data) as [ats |].
    - rewrite (fold_push_member
                 (fun a => Str.truthy (att_email a))
                 (fun a => Str.toLowerCase (att_email a))).
      split.
      + intros [H | [a [Ha [Hc Hx]]]]; [now left |].
        right. now exists ats, a.
      + intros [H | [ats' [a [Hats [Ha [Ht Hx]]]]]]; [now left |].
        injection Hats as <-. right. now exists a.
    - split; [now left |].
      intros [H | [ats [a [Hats _]]]]; [exact H | discriminate]. }
  split.
  - intro Hin. apply dedup_from_fresh in Hin. destruct Hin as [Hin _].
    tauto.
  - intro H. apply dedup_from_member; [| reflexivity]. tauto.
Qed.

(** X1.  [getAllEmails] returns the addresses of its four sources, and
    nothing else: the host, the organizer, the participants that hold an
    ["@"] and the attendees' e-mail properties, where they are not
    empty, in lower case.  It returns each address once, and every
    address it returns is non-empty and has no upper-case letter. *)
Theorem getAllEmails_distinct_lowercase (data : RawMeetingData) :
  NoDup (getAllEmails data)
  /\ Forall collected (getAllEmails data)
  /\ forall x,
       In x (getAllEmails data)
       <-> (exists e,
               host_email data = Some e
               /\ Str.truthy e = true /\ x = Str.toLowerCase e)
           \/ (exists e,
                  organizer_email data = Some e
                  /\ Str.truthy e = true /\ x = Str.toLowerCase e)
           \/ (exists ps p,
                  participants data = Some ps
                  /\ In p ps
                  /\ Str.truthy p = true /\ Str.includes p "@" = true
                  /\ x = Str.toLowerCase p)
           \/ (exists ats a,
                  meeting_attendees data = Some ats
                  /\ In a ats
                  /\ Str.truthy (att_email a) = true
                  /\ x = Str.toLowerCase (att_email a)).
Proof.
  split; [apply dedup_from_distinct |].
  split; [apply getAllEmails_collected | apply getAllEmails_member].
Qed.

(** ** The rule tier *)

(** X2.  The rule tier never answers [other]: that category can only come
    from the LLM tier. *)
Theorem classifyByRules_never_other (dom : string) (data : RawMeetingData) :
  classifyByRules dom data <> Some other.
Proof.
  unfold classifyByRules.
  repeat match goal with
         | |- context [if ?b then _ else _] => destruct b
         end;
    discriminate.
Qed.

(** X3.  Without a title and without a summary text the rule tier has
    nothing to count: it answers [internal] or nothing at all, never
    [sales_call] or [partner_call]. *)
Theorem classifyByRules_without_text (dom : string) (data : RawMeetingData) :
  no_text data ->
  classifyByRules dom data = Some internal \/ classifyByRules dom data = None.
Proof.
  intros (H1 & H2 & H3 & H4 & H5 & H6). unfold classifyByRules.
  destruct (_ && _); [now left |].
  assert (Hpush : forall o acc, truthy_opt o = false -> push_opt o acc = acc).
  { intros [s |] acc H; [| reflexivity].
    unfold push_opt. simpl in H. now rewrite H. }
  rewrite !Hpush by assumption. now right.
Qed.

(** ** The extractor on replies that are not objects *)

(** X4.  [normalizeResult] throws on [null] and [undefined] only; a
    boolean, a number, a string or an array is taken for an object without
    properties, and gives the defaults of every field. *)
Theorem normalizeResult_not_an_object (raw : value) :
  (normalizeResult raw = Throw TypeError <-> raw = VNull \/ raw = VUndef)
  /\ ((forall fields, raw <> VObj fields) -> raw <> VNull -> raw <> VUndef ->
      normalizeResult raw = Ok all_defaults).
Proof.
  split.
  - split.
    + destruct raw; simpl; intro H; try discriminate H; auto.
    + intros [-> | ->]; reflexivity.
  - intros Hobj Hnull Hundef.
    destruct raw; try reflexivity; congruence.
Qed.

(** ** The size of a request *)

Lemma len_take_le (n : N) (s : string) : (Str.len (Str.take n s) <= n)%N.
Proof.
  revert n. induction s as [| c s IH]; intro n; simpl; [lia |].
  destruct (N.eqb_spec n 0); simpl; [lia |].
  specialize (IH (N.pred n)). lia.
Qed.

(** X5.  What [extractSalesCall] sends after the instruction text is never
    longer than 100024 characters, however long the transcript. *)
Theorem truncate_bounded (transcript title summary : string) :
  (Str.len (truncate (userContent transcript title summary)) <= 100024)%N
  /\ (Str.len (content (extraction_request transcript title summary))
      <= Str.len (EXTRACTION_PROMPT env) + 100026)%N.
Proof.
  assert (Hb : forall c, (Str.len (truncate c) <= 100024)%N).
  { intro c. unfold truncate.
    destruct (N.ltb_spec 100000 (Str.len c)); [| lia].
    rewrite len_app. pose proof (len_take_le 100000 c).
    change (Str.len TRUNCATION_MARKER) with 24%N. lia. }
  split; [apply Hb |].
  unfold extraction_request. cbn [content].
  rewrite !len_app. specialize (Hb (userContent transcript title summary)).
  change (Str.len Str.nl) with 1%N. lia.
Qed.

(** ** Replies without a fence *)

Lemma lower_char_backtick (c : ascii) :
  Ascii.eqb (Str.lower_char c) "`"%char = Ascii.eqb c "`"%char.
Proof.
  destruct c as [[] [] [] [] [] [] [] []]; reflexivity.
Qed.

Lemma startsWith_lower_fence (s : string) :
  Str.startsWith s "```" = false ->
  Str.startsWith (Str.toLowerCase s) "```json" = false.
Proof.
  destruct s as [| c1 [| c2 [| c3 s]]]; simpl; try reflexivity;
    rewrite ?lower_char_backtick.
  - now destruct (Ascii.eqb c1 "`"%char).
  - destruct (Ascii.eqb c1 "`"%char); [| reflexivity].
    now destruct (Ascii.eqb c2 "`"%char).
  - destruct (Ascii.eqb c1 "`"%char); [| reflexivity].
    destruct (Ascii.eqb c2 "`"%char); [| reflexivity].
    destruct (Ascii.eqb c3 "`"%char); [discriminate | reflexivity].
Qed.

(** X25.  A reply that neither starts nor ends with a fence of three
    backticks is handed to the parser as it is, trimmed. *)
Theorem strip_fences_without_fence (text : string) :
  Str.startsWith text "```" = false ->
  Str.endsWith text "```" = false ->
  strip_fences text = Str.trim text.
Proof.
  intros Hopen Hclose.
  unfold strip_fences, strip_json_fence, strip_open_fence, strip_close_fence.
  now rewrite (startsWith_lower_fence text Hopen), Hopen, Hclose.
Qed.

(** ** The ingestion filter *)

Lemma hasExternal_not_excluded_only (dom : string)
  (excluded emails : list string) :
  Ingest.hasExternal dom excluded emails = true ->
  Ingest.hasExcludedOnly dom excluded emails = false.
Proof.
  unfold Ingest.hasExternal, Ingest.hasExcludedOnly. intro H.
  apply existsb_exists in H. destruct H as [e [Hin He]].
  apply andb_true_iff in He. destruct He as [Hdom Hex].
  apply andb_false_iff. right.
  apply not_true_is_false. intro Hall.
  rewrite forallb_forall in Hall.
  specialize (Hall e). rewrite filter_In in Hall.
  rewrite Hall in Hex by auto. discriminate.
Qed.

Lemma filter_step_run (dom : string) (excluded : list string)
  (stats : Ingest.FilterStats) (filtered : list FirefliesTranscript)
  (t : FirefliesTranscript) :
  let r := Ingest.filter_step dom excluded (stats, filtered) t in
  snd r = (filtered ++ filter (passes dom excluded) [t])%list
  /\ Ingest.fs_total (fst r) = Ingest.fs_total stats
  /\ Ingest.fs_excludedOnly (fst r) = Ingest.fs_excludedOnly stats
  /\ Ingest.fs_passed (fst r)
     = (Ingest.fs_passed stats
        + length (filter (passes dom excluded) [t]))%nat
  /\ (Ingest.fs_noSherlock (fst r) + Ingest.fs_noExternal (fst r)
      + Ingest.fs_passed (fst r)
      = S (Ingest.fs_noSherlock stats + Ingest.fs_noExternal stats
           + Ingest.fs_passed stats))%nat.
Proof.
  unfold Ingest.filter_step, passes. simpl.
  destruct (Ingest.hasSherlock dom (Ingest.getEmails t)); simpl.
  - destruct (Ingest.hasExternal dom excluded (Ingest.getEmails t)) eqn:Hext;
      simpl.
    + rewrite (hasExternal_not_excluded_only _ _ _ Hext). simpl.
      repeat split; lia.
    + rewrite app_nil_r. repeat split; lia.
  - rewrite app_nil_r. repeat split; lia.
Qed.

Lemma filter_from_run (dom : string) (excluded : list string)
  (all : list FirefliesTranscript) (stats : Ingest.FilterStats)
  (filtered : list FirefliesTranscript) :
  let r := fold_left (Ingest.filter_step dom excluded) all (stats, filtered) in
  snd r = (filtered ++ filter (passes dom excluded) all)%list
  /\ Ingest.fs_total (fst r) = Ingest.fs_total stats
  /\ Ingest.fs_excludedOnly (fst r) = Ingest.fs_excludedOnly stats
  /\ Ingest.fs_passed (fst r)
     = (Ingest.fs_passed stats
        + length (filter (passes dom excluded) all))%nat
  /\ (Ingest.fs_noSherlock (fst r) + Ingest.fs_noExternal (fst r)
      + Ingest.fs_passed (fst r)
      = length all + (Ingest.fs_noSherlock stats
                      + Ingest.fs_noExternal stats
                      + Ingest.fs_passed stats))%nat.
Proof.
  revert stats filtered.
  induction all as [| t rest IH]; intros stats filtered.
  - simpl. rewrite app_nil_r. repeat split; lia.
  - cbn [fold_left].
    pose proof (filter_step_run dom excluded stats filtered t) as Hstep.
    destruct (Ingest.filter_step dom excluded (stats, filtered) t)
      as [stats1 filtered1].
    cbn zeta in Hstep. cbn [fst snd] in Hstep.
    destruct Hstep as (H1 & H2 & H3 & H4 & H5).
    specialize (IH stats1 filtered1). cbn zeta in IH |- *.
    destruct IH as (I1 & I2 & I3 & I4 & I5).
    change (t :: rest) with ([t] ++ rest)%list.
    rewrite filter_app, !length_app.
    split; [rewrite I1, H1, app_assoc; reflexivity |].
    repeat split; simpl length in *; lia.
Qed.

(** X6.  The filter keeps exactly the transcripts with an internal and an
    outside address, in their order; its third test never fires, so the
    count of transcripts with excluded addresses only stays at 0, and the
    two other counts and the count of the ones kept add up to the total. *)
Theorem filter_transcripts_keeps_two_sided (dom : string)
  (excluded : list string) (all : list FirefliesTranscript) :
  let stats := fst (Ingest.filter_transcripts dom excluded all) in
  snd (Ingest.filter_transcripts dom excluded all)
  = filter (passes dom excluded) all
  /\ Ingest.fs_excludedOnly stats = 0%nat
  /\ Ingest.fs_passed stats = length (filter (passes dom excluded) all)
  /\ Ingest.fs_total stats = length all
  /\ (Ingest.fs_noSherlock stats + Ingest.fs_noExternal stats
      + Ingest.fs_passed stats = Ingest.fs_total stats)%nat.
Proof.
  unfold Ingest.filter_transcripts.
  pose proof (filter_from_run dom excluded all
                (Ingest.mkFilterStats (length all) 0 0 0 0) []) as H.
  cbn zeta in H |- *. destruct H as (H1 & H2 & H3 & H4 & H5).
  simpl in H1, H2, H3, H4, H5.
  repeat split; try assumption; lia.
Qed.

(** ** From the ingestion filter to the rule tier *)

Lemma getAllEmails_storedJson (t : FirefliesTranscript) :
  getAllEmails (Ingest.storedJson t) = Ingest.getEmails t.
Proof. reflexivity. Qed.

(** X7.  A transcript that passed the filter is never classified by its
    participants alone: [getAllEmails] finds in the stored JSON the
    addresses the filter saw, one of them from outside, so without a
    title and a summary text the rule tier leaves the meeting to the LLM
    tier. *)
Theorem passed_transcript_is_not_all_internal (dom : string)
  (excluded : list string) (all : list FirefliesTranscript)
  (t : FirefliesTranscript) :
  In t (snd (Ingest.filter_transcripts dom excluded all)) ->
  no_text (Ingest.storedJson t) ->
  getAllEmails (Ingest.storedJson t) = Ingest.getEmails t
  /\ filter (fun e => negb (Str.endsWith e ("@" ++ dom)))
       (getAllEmails (Ingest.storedJson t)) <> []
  /\ classifyByRules dom (Ingest.storedJson t) = None.
Proof.
  intros Hin (H1 & H2 & H3 & H4 & H5 & H6).
  unfold Ingest.filter_transcripts in Hin.
  destruct (filter_from_run dom excluded all
              (Ingest.mkFilterStats (length all) 0 0 0 0) []) as [Hf _].
  rewrite Hf in Hin. apply filter_In in Hin. destruct Hin as [_ Hp].
  unfold passes in Hp. apply andb_true_iff in Hp. destruct Hp as [_ Hext].
  split; [reflexivity |].
  assert (Hne : filter (fun e => negb (Str.endsWith e ("@" ++ dom)))
                  (getAllEmails (Ingest.storedJson t)) <> []).
  { rewrite getAllEmails_storedJson.
    unfold Ingest.hasExternal in Hext. apply existsb_exists in Hext.
    destruct Hext as [e [He Hout]]. apply andb_true_iff in Hout.
    intro Hnil.
    assert (Hin : In e (filter (fun e => negb (Str.endsWith e ("@" ++ dom)))
                          (Ingest.getEmails t))).
    { apply filter_In. tauto. }
    rewrite Hnil in Hin. contradiction. }
  split; [exact Hne |].
  unfold classifyByRules.
  destruct (filter (fun e => negb (Str.endsWith e ("@" ++ dom)))
              (getAllEmails (Ingest.storedJson t))) as [| e l];
    [congruence |].
  rewrite andb_false_r.
  assert (Hpush : forall o acc, truthy_opt o = false -> push_opt o acc = acc).
  { intros [s |] acc H; [| reflexivity].
    unfold push_opt. simpl in H. now rewrite H. }
  rewrite !Hpush by assumption. reflexivity.
Qed.

(** ** The excluded addresses *)

Lemma filter_truthy_collected (xs : list string) :
  Forall collected
    (filter Str.truthy (map (fun e => Str.toLowerCase (Str.trim e)) xs)).
Proof.
  induction xs as [| x xs IH]; simpl; [constructor |].
  destruct (Str.truthy (Str.toLowerCase (Str.trim x))) eqn:E; [| exact IH].
  constructor; [| exact IH].
  split; [exact E | apply toLowerCase_no_upper].
Qed.

(** X26.  The excluded addresses the ingestion compares with are not
    empty and have no upper-case letter, like the addresses [getEmails]
    collects, so that the exclusion does not depend on the case of either
    side; without the environment variable there are none. *)
Theorem EXCLUDED_EMAILS_collected (env_excluded : option string) :
  Forall collected (Ingest.EXCLUDED_EMAILS env_excluded)
  /\ (forall t, Forall collected (Ingest.getEmails t))
  /\ (truthy_opt env_excluded = false ->
      Ingest.EXCLUDED_EMAILS env_excluded = []).
Proof.
  split; [apply filter_truthy_collected |].
  split.
  - intro t. rewrite <- getAllEmails_storedJson.
    apply getAllEmails_collected.
  - intro H. unfold Ingest.EXCLUDED_EMAILS. now rewrite H.
Qed.

(** ** The pagination loop *)

(** what a finished run of the loop looks like, [fetches] calls in *)
Lemma pull_from_run (api : Ingest.Api) (fuel fetches : nat)
  (all : list FirefliesTranscript) :
  (fetches <= length all)%nat ->
  (length all < 200)%nat ->
  (200 <= fuel + length all)%nat ->
  match Ingest.pull_from api fuel fetches (50 * N.of_nat fetches)
          (1000 * N.of_nat fetches) all with
  | Ingest.Pulled all' n waited =>
      (fetches < n <= 200)%nat
      /\ waited = (1000 * N.of_nat (n - 1))%N
      /\ (n - 1 <= length all')%nat
      /\ (exists more, all' = all ++ more)%list
      /\ ((200 <= length all')%nat
          \/ api (n - 1)%nat (50 * N.of_nat (n - 1))%N = Some [])
  | Ingest.PullFailed n =>
      (fetches < n <= 200)%nat
      /\ api (n - 1)%nat (50 * N.of_nat (n - 1))%N = None
  | Ingest.PullRunning => False
  end.
Proof.
  revert fetches all.
  induction fuel as [| fuel IH]; intros fetches all Hle Hlt Hfuel;
    [simpl in Hfuel; lia |].
  cbn [Ingest.pull_from].
  destruct (api fetches (50 * N.of_nat fetches)%N) as [batch |] eqn:Hapi.
  - destruct batch as [| t batch].
    + replace (S fetches - 1)%nat with fetches by lia.
      split; [lia |]. split; [reflexivity |]. split; [lia |].
      split; [exists []; now rewrite app_nil_r | now right].
    + cbv zeta.
      assert (Hlen : length (all ++ t :: batch)
                     = (length all + S (length batch))%nat)
        by now rewrite length_app.
      destruct (Nat.leb_spec 200 (length (all ++ t :: batch)))
        as [Hfull | Hmore].
      * replace (S fetches - 1)%nat with fetches by lia.
        split; [lia |]. split; [reflexivity |]. split; [lia |].
        split; [now exists (t :: batch) | now left].
      * replace (50 * N.of_nat fetches + 50)%N
          with (50 * N.of_nat (S fetches))%N by lia.
        replace (1000 * N.of_nat fetches + 1000)%N
          with (1000 * N.of_nat (S fetches))%N by lia.
        specialize (IH (S fetches) (all ++ t :: batch)%list).
        destruct (Ingest.pull_from api fuel (S fetches) _ _ _)
          as [all' n waited | n |].
        -- destruct IH as (H1 & H2 & H3 & [more H4] & H5); try lia.
           split; [lia |]. split; [exact H2 |]. split; [exact H3 |].
           split; [| exact H5].
           exists ((t :: batch) ++ more)%list.
           now rewrite H4, <- app_assoc.
        -- destruct IH as (H1 & H2); try lia.
           split; [lia | exact H2].
        -- apply IH; lia.
  - replace (S fetches - 1)%nat with fetches by lia.
    split; [lia | exact Hapi].
Qed.

Lemma pull_from_fuel (api : Ingest.Api) (fuel fuel' fetches : nat)
  (skip waited : N) (all : list FirefliesTranscript) :
  (200 <= fuel + length all)%nat ->
  (200 <= fuel' + length all)%nat ->
  (length all < 200)%nat ->
  Ingest.pull_from api fuel fetches skip waited all
  = Ingest.pull_from api fuel' fetches skip waited all.
Proof.
  revert fuel' fetches skip waited all.
  induction fuel as [| fuel IH]; intros fuel' fetches skip waited all H1 H2 H3;
    [simpl in H1; lia |].
  destruct fuel' as [| fuel']; [simpl in H2; lia |].
  cbn [Ingest.pull_from].
  destruct (api fetches skip) as [[| t batch] |]; try reflexivity.
  cbv zeta.
  destruct (Nat.leb_spec 200 (length (all ++ t :: batch))) as [Hfull | Hmore];
    [reflexivity |].
  assert (Hlen : length (all ++ t :: batch)
                 = (length all + S (length batch))%nat)
    by now rewrite length_app.
  apply IH; lia.
Qed.

(** X8.  The pagination loop ends: 200 iterations are always enough, and
    no more than 200 calls are made.  It ends with a failed call, with an
    empty batch, or with 200 transcripts or more; the calls are one
    second apart, and each but the last brought at least one
    transcript. *)
Theorem pull_terminates (api : Ingest.Api) (fuel : nat) :
  (200 <= fuel)%nat ->
  Ingest.pull api fuel = Ingest.pull api 200
  /\ match Ingest.pull api fuel with
     | Ingest.Pulled all n waited =>
         (1 <= n <= 200)%nat
         /\ waited = (1000 * N.of_nat (n - 1))%N
         /\ (n - 1 <= length all)%nat
         /\ ((200 <= length all)%nat
             \/ api (n - 1)%nat (50 * N.of_nat (n - 1))%N = Some [])
     | Ingest.PullFailed n =>
         (1 <= n <= 200)%nat
         /\ api (n - 1)%nat (50 * N.of_nat (n - 1))%N = None
     | Ingest.PullRunning => False
     end.
Proof.
  intro Hfuel. unfold Ingest.pull. split.
  - apply pull_from_fuel; simpl; lia.
  - pose proof (pull_from_run api fuel 0 []) as H.
    change (50 * N.of_nat 0)%N with 0%N in H.
    change (1000 * N.of_nat 0)%N with 0%N in H.
    destruct (Ingest.pull_from api fuel 0 0 0 []) as [all n waited | n |].
    + destruct H as (H1 & H2 & H3 & _ & H5); simpl; try lia.
      split; [lia |]. split; [exact H2 |]. split; [exact H3 | exact H5].
    + destruct H as (H1 & H2); simpl; try lia.
      split; [lia | exact H2].
    + apply H; simpl; lia.
Qed.

(** ** The ingestion script: storing *)

Lemma post_opt_timestamp (o : option number) (w : World)
  (Q : result (option Z) -> World -> Prop) :
  Q (Ok match o with
        | Some (Fin q) => Some (Qfloor q)
        | _ => None
        end) w ->
  Q (Throw DbError) w ->
  post (opt_param timestamp_param o) w Q.
Proof.
  intros Hok Hthrow. unfold post.
  destruct o as [[q | | |] |]; simpl; assumption.
Qed.

Lemma post_opt_integer (o : option number) (w : World)
  (Q : result (option Z) -> World -> Prop) :
  Q (Ok match o with
        | Some (Fin q) => Some (Qfloor q)
        | _ => None
        end) w ->
  Q (Throw DbError) w ->
  post (opt_param integer_param o) w Q.
Proof.
  intros Hok Hthrow. unfold post.
  destruct o as [[q | | |] |]; simpl; try assumption.
  unfold opt_param, integer_param. rewrite !bind_run.
  destruct (Qeq_bool q (inject_Z (Qfloor q)) && (INT4_MIN <=? Qfloor q)%Z
            && (Qfloor q <=? INT4_MAX)%Z); simpl; assumption.
Qed.

(** One upsert: it fails and leaves the store as it is, or it writes the
    row of the transcript. *)
Lemma upsert_raw_meeting_run (t : FirefliesTranscript) (w : World) :
  post (upsert_raw_meeting t) w
    (fun r w' =>
       ((exists e, r = Throw e) /\ db w' = db w)
       \/ (r = Ok tt
           /\ db w' = upd_rawMeetings (upserted t (next_id w)) (db w))).
Proof.
  unfold upsert_raw_meeting.
  apply post_bind, post_opt_timestamp;
    [| left; split; [eexists; reflexivity | reflexivity]].
  cbv beta match.
  apply post_bind, post_stmt; intros _; cbv beta match;
    [| left; split; [eexists; reflexivity | reflexivity]].
  apply post_bind, post_check; intros _; cbv beta match;
    [| left; split; [eexists; reflexivity | reflexivity]].
  apply post_bind, post_nullable; cbv beta match;
    [| left; split; [eexists; reflexivity | reflexivity]].
  apply post_bind, post_opt_integer; cbv beta match;
    [| left; split; [eexists; reflexivity | reflexivity]].
  apply post_bind, post_read_db. cbv beta match.
  unfold find_raw_meeting. simpl db.
  destruct (find _ (t_rawMeetings (db w))) eqn:Hfind.
  - apply post_write_db. right. split; [reflexivity |].
    unfold upd_rawMeetings, upserted. simpl. rewrite Hfind.
    f_equal. apply map_ext. intro m.
    destruct (String.eqb_spec (rm_firefliesId m) (ff_id t)) as [E | E];
      [rewrite E |]; reflexivity.
  - apply post_bind, post_gen_random_uuid. cbv beta match.
    apply post_write_db. right. split; [reflexivity |].
    unfold upd_rawMeetings, upserted. simpl. rewrite Hfind. reflexivity.
Qed.

Lemma same_progress_refl (rows : list RawMeeting) :
  Forall2 same_progress rows rows.
Proof.
  induction rows as [| r rows IH]; constructor; [| exact IH].
  repeat split.
Qed.

Lemma same_progress_trans (x y z : list RawMeeting) :
  Forall2 same_progress x y -> Forall2 same_progress y z ->
  Forall2 same_progress x z.
Proof.
  intro Hxy. revert z.
  induction Hxy as [| r r' x y (H1 & H2 & H3 & H4) Hxy IH]; intros z Hyz;
    inversion Hyz as [| r0 r'' y0 z0 (I1 & I2 & I3 & I4) Hyz']; subst;
    constructor.
  - repeat split; congruence.
  - now apply IH.
Qed.

(** the row an upsert rewrites keeps its identity and progress *)
Lemma refreshed_rows (t : FirefliesTranscript) (rows : list RawMeeting) :
  Forall2 same_progress rows
    (map (fun m =>
            if String.eqb (rm_firefliesId m) (ff_id t)
            then raw_meeting_of (rm_id m) t (rm_classification m)
                   (rm_processedAt m)
            else m)
       rows).
Proof.
  induction rows as [| r rows IH]; simpl; constructor; [| exact IH].
  destruct (String.eqb_spec (rm_firefliesId r) (ff_id t)) as [E | E];
    repeat split; simpl; congruence.
Qed.

Lemma upserted_progress (t : FirefliesTranscript) (id : N)
  (rows : list RawMeeting) :
  exists rows' fresh,
    upserted t id rows = (rows' ++ fresh)%list
    /\ Forall2 same_progress rows rows'
    /\ Forall is_new fresh.
Proof.
  unfold upserted. destruct (find _ rows).
  - eexists. exists []. rewrite app_nil_r.
    split; [reflexivity | split; [apply refreshed_rows | constructor]].
  - exists rows, [raw_meeting_of id t None None].
    split; [reflexivity | split; [apply same_progress_refl |]].
    constructor; [split; reflexivity | constructor].
Qed.

Lemma ingested_refl (w : World) : ingested w w.
Proof.
  split.
  - destruct (db w); reflexivity.
  - exists (t_rawMeetings (db w)), []. rewrite app_nil_r.
    split; [reflexivity | split; [apply same_progress_refl | constructor]].
Qed.

Lemma same_progress_new (x y : list RawMeeting) :
  Forall2 same_progress x y -> Forall is_new x -> Forall is_new y.
Proof.
  induction 1 as [| r r' x y (H1 & H2 & H3 & H4) _ IH]; intro Hx;
    [constructor |].
  inversion Hx as [| ? ? [N1 N2] Hx']; subst.
  constructor; [split; congruence | now apply IH].
Qed.

Lemma ingested_trans (a b c : World) :
  ingested a b -> ingested b c -> ingested a c.
Proof.
  intros [Hab (r1 & f1 & E1 & P1 & N1)] [Hbc (r2 & f2 & E2 & P2 & N2)].
  split.
  - rewrite <- Hab, <- Hbc. destruct (db c); reflexivity.
  - rewrite E1 in P2. apply Forall2_app_inv_l in P2.
    destruct P2 as (r2a & r2b & Pa & Pb & ->).
    exists r2a, (r2b ++ f2)%list.
    split; [now rewrite E2, app_assoc |].
    split; [eapply same_progress_trans; eassumption |].
    apply Forall_app. split; [| exact N2].
    eapply same_progress_new; eassumption.
Qed.

Lemma upsert_raw_meeting_ingested (t : FirefliesTranscript) :
  keeps ingested (upsert_raw_meeting t).
Proof.
  intro w. pose proof (upsert_raw_meeting_run t w) as H. unfold post in H.
  destruct H as [[_ Hdb] | [_ Hdb]].
  - unfold ingested. rewrite Hdb. apply ingested_refl.
  - unfold ingested. rewrite Hdb. split.
    + destruct (db w); reflexivity.
    + simpl. apply upserted_progress.
Qed.

Lemma store_from_run (filtered : list FirefliesTranscript) :
  forall inserted skipped w,
    post (store_from filtered inserted skipped) w
      (fun r w' =>
         (exists i s,
             r = Ok (i, s)
             /\ (i + s = inserted + skipped + length filtered)%nat)
         /\ ingested w w').
Proof.
  induction filtered as [| t rest IH]; intros inserted skipped w;
    cbn [store_from].
  - apply post_ret. split; [| apply ingested_refl].
    exists inserted, skipped. split; [reflexivity | simpl; lia].
  - apply post_bind, post_try_catch, post_bind.
    eapply post_weaken;
      [apply (keeps_post ingested), upsert_raw_meeting_ingested |].
    intros r w1 Hw1.
    destruct r as [[] | e]; cbv beta match.
    + apply post_ret. cbv beta match.
      eapply post_weaken; [apply IH |].
      intros r w2 [(i & s & -> & Hsum) Hw2].
      split; [| eapply ingested_trans; eassumption].
      exists i, s. split; [reflexivity | simpl; lia].
    + apply post_ret. cbv beta match.
      eapply post_weaken; [apply IH |].
      intros r w2 [(i & s & -> & Hsum) Hw2].
      split; [| eapply ingested_trans; eassumption].
      exists i, s. split; [reflexivity | simpl; lia].
Qed.

(** X9.  The storing loop of the ingestion always returns, every
    transcript counted as stored or as an error; it changes no table but
    the raw meetings, and there it leaves every row in place with its
    identifier, its transcript identifier, its classification and its
    processed timestamp, so that pulling a transcript again never sends a
    processed meeting back to the backlog; the rows it adds are
    unclassified and unprocessed. *)
Theorem store_transcripts_keeps_progress
  (filtered : list FirefliesTranscript) (w : World) :
  (exists inserted skipped,
      fst (store_transcripts filtered w) = Ok (inserted, skipped)
      /\ (inserted + skipped = length filtered)%nat)
  /\ ingested w (snd (store_transcripts filtered w))
  /\ Forall2 (fun r r' => is_unprocessed r' = is_unprocessed r)
       (t_rawMeetings (db w))
       (firstn (length (t_rawMeetings (db w)))
          (t_rawMeetings (db (snd (store_transcripts filtered w))))).
Proof.
  pose proof (store_from_run filtered 0 0 w) as H. unfold post in H.
  fold (store_transcripts filtered) in H.
  destruct H as [(i & s & Hr & Hsum) Hing].
  split; [exists i, s; split; [exact Hr | simpl in Hsum; lia] |].
  split; [exact Hing |].
  destruct Hing as [_ (rows & fresh & E & P & _)].
  rewrite E.
  rewrite (Forall2_length P), firstn_app, Nat.sub_diag, firstn_all.
  simpl. rewrite app_nil_r.
  clear E. induction P as [| r r' x y (H1 & H2 & H3 & H4) _ IH];
    constructor; [| exact IH].
  unfold is_unprocessed. now rewrite H4.
Qed.

Lemma find_none_map_id (t : FirefliesTranscript) (rows : list RawMeeting) :
  find (fun m => String.eqb (rm_firefliesId m) (ff_id t)) rows = None ->
  map (fun m =>
         if String.eqb (rm_firefliesId m) (ff_id t)
         then raw_meeting_of (rm_id m) t (rm_classification m)
                (rm_processedAt m)
         else m)
    rows = rows.
Proof.
  induction rows as [| r rows IH]; simpl; [reflexivity |].
  destruct (String.eqb (rm_firefliesId r) (ff_id t)); [discriminate |].
  intro H. now rewrite IH.
Qed.

Lemma find_refreshed (t : FirefliesTranscript) (rows : list RawMeeting)
  (r : RawMeeting) :
  find (fun m => String.eqb (rm_firefliesId m) (ff_id t)) rows = Some r ->
  find (fun m => String.eqb (rm_firefliesId m) (ff_id t))
    (map (fun m =>
            if String.eqb (rm_firefliesId m) (ff_id t)
            then raw_meeting_of (rm_id m) t (rm_classification m)
                   (rm_processedAt m)
            else m)
       rows)
  = Some (raw_meeting_of (rm_id r) t (rm_classification r)
            (rm_processedAt r)).
Proof.
  induction rows as [| m rows IH]; simpl; [discriminate |].
  destruct (String.eqb (rm_firefliesId m) (ff_id t)) eqn:E; simpl.
  - rewrite String.eqb_refl. intro H. now injection H as ->.
  - rewrite E. exact IH.
Qed.

(** after the upsert the row of the transcript is there *)
Lemma upserted_find (t : FirefliesTranscript) (id : N)
  (rows : list RawMeeting) :
  exists rid c p,
    find (fun m => String.eqb (rm_firefliesId m) (ff_id t))
      (upserted t id rows)
    = Some (raw_meeting_of rid t c p).
Proof.
  unfold upserted.
  destruct (find _ rows) as [r |] eqn:Hfind.
  - exists (rm_id r), (rm_classification r), (rm_processedAt r).
    now apply find_refreshed.
  - exists id, None, None.
    apply find_app_new; [exact Hfind | simpl; apply String.eqb_refl].
Qed.

(** a second upsert of the same transcript changes nothing *)
Lemma upserted_twice (t : FirefliesTranscript) (id id' : N)
  (rows : list RawMeeting) :
  upserted t id' (upserted t id rows) = upserted t id rows.
Proof.
  destruct (upserted_find t id rows) as (rid & c & p & Hfound).
  unfold upserted at 1. rewrite Hfound.
  unfold upserted.
  destruct (find _ rows) as [r |] eqn:Hfind.
  - rewrite map_map. apply map_ext. intro m.
    destruct (String.eqb (rm_firefliesId m) (ff_id t)) eqn:E; simpl.
    + now rewrite String.eqb_refl.
    + now rewrite E.
  - rewrite map_app, (find_none_map_id t rows Hfind). simpl.
    now rewrite String.eqb_refl.
Qed.

(** X10.  The upsert is keyed on the transcript identifier: once it has
    succeeded the row of the transcript holds the stored JSON, and storing
    the same transcript again, at any later time, leaves the store as it
    is. *)
Theorem upsert_raw_meeting_idempotent (t : FirefliesTranscript)
  (w w2 : World) :
  fst (upsert_raw_meeting t w) = Ok tt ->
  db w2 = db (snd (upsert_raw_meeting t w)) ->
  (exists r,
      find_raw_meeting (db w2) (ff_id t) = Some r
      /\ rm_rawJson r = Some (Ingest.storedJson t)
      /\ rm_title r = ff_title t)
  /\ db (snd (upsert_raw_meeting t w2)) = db w2.
Proof.
  intros Hok Hdb.
  pose proof (upsert_raw_meeting_run t w) as H. unfold post in H.
  destruct H as [[[e He] _] | [_ H1]]; [congruence |].
  rewrite H1 in Hdb. split.
  - unfold find_raw_meeting. rewrite Hdb. simpl.
    destruct (upserted_find t (next_id w) (t_rawMeetings (db w)))
      as (rid & c & p & Hfound).
    rewrite Hfound. eexists. split; [reflexivity | split; reflexivity].
  - pose proof (upsert_raw_meeting_run t w2) as H2. unfold post in H2.
    destruct H2 as [[_ H2] | [_ H2]]; [exact H2 |].
    rewrite H2, Hdb. unfold upd_rawMeetings. simpl.
    now rewrite upserted_twice.
Qed.





(** ** The seed script *)

Section Keyed.

Context {Row : Type}.
Variable key : Row -> string.
Variable ident : Row -> N.
Variable k : string.
Variable refresh : Row -> Row.
Variable fresh : Row.
Variable good : Row -> Prop.

Hypothesis refresh_key : forall r, key (refresh r) = key r.
Hypothesis refresh_ident : forall r, ident (refresh r) = ident r.
Hypothesis fresh_key : key fresh = k.
Hypothesis refresh_good : forall r, good (refresh r).
Hypothesis fresh_good : good fresh.
Hypothesis good_fixed : forall r, good r -> refresh r = r.

Lemma holds_find (rows : list Row) :
  holds key k good rows ->
  exists r, find (fun r => String.eqb (key r) k) rows = Some r /\ good r.
Proof.
  intros [[r [Hin Hr]] Hgood].
  destruct (find (fun r => String.eqb (key r) k) rows) as [r0 |] eqn:Hfind.
  - apply find_some in Hfind. destruct Hfind as [Hin0 Hk].
    apply String.eqb_eq in Hk. exists r0. auto.
  - apply (find_none _ _ Hfind) in Hin.
    rewrite Hr, String.eqb_refl in Hin. discriminate.
Qed.

Lemma upsert_rows_holds (rows : list Row) :
  holds key k good (upsert_rows key k refresh fresh rows).
Proof.
  unfold upsert_rows.
  destruct (find (fun r => String.eqb (key r) k) rows) as [r0 |] eqn:Hfind.
  - apply find_some in Hfind. destruct Hfind as [Hin0 Hk].
    split.
    + exists (refresh r0). split.
      * apply in_map_iff. exists r0. now rewrite Hk.
      * rewrite refresh_key. now apply String.eqb_eq.
    + intros r Hin Hr. apply in_map_iff in Hin.
      destruct Hin as [r1 [<- Hin]].
      destruct (String.eqb_spec (key r1) k) as [E | E];
        [apply refresh_good | contradiction].
  - split.
    + exists fresh. split; [apply in_or_app; right; now left | exact fresh_key].
    + intros r Hin Hr. apply in_app_or in Hin.
      destruct Hin as [Hin | [<- | []]].
      * apply (find_none _ _ Hfind) in Hin.
        rewrite Hr, String.eqb_refl in Hin. discriminate.
      * exact fresh_good.
Qed.

Lemma upsert_rows_other (k' : string) (good' : Row -> Prop)
  (rows : list Row) :
  k' <> k ->
  holds key k' good' rows ->
  holds key k' good' (upsert_rows key k refresh fresh rows).
Proof.
  intros Hk [[r [Hin Hr]] Hgood]. unfold upsert_rows.
  destruct (find (fun r => String.eqb (key r) k) rows).
  - split.
    + exists r. split; [| exact Hr].
      apply in_map_iff. exists r. split; [| exact Hin].
      destruct (String.eqb_spec (key r) k); [congruence | reflexivity].
    + intros r1 Hin1 Hr1. apply in_map_iff in Hin1.
      destruct Hin1 as [r2 [<- Hin2]].
      destruct (String.eqb_spec (key r2) k) as [E | E].
      * rewrite refresh_key in Hr1. congruence.
      * now apply Hgood.
  - split.
    + exists r. split; [apply in_or_app; now left | exact Hr].
    + intros r1 Hin1 Hr1. apply in_app_or in Hin1.
      destruct Hin1 as [Hin1 | [<- | []]]; [now apply Hgood | congruence].
Qed.

Lemma upsert_rows_fixed (rows : list Row) :
  holds key k good rows ->
  upsert_rows key k refresh fresh rows = rows.
Proof.
  intro H. destruct (holds_find rows H) as [r0 [Hfind _]].
  unfold upsert_rows. rewrite Hfind.
  destruct H as [_ Hgood].
  clear Hfind. induction rows as [| r rows IH]; simpl; [reflexivity |].
  rewrite IH by (intros; apply Hgood; simpl; auto).
  destruct (String.eqb_spec (key r) k) as [E | E]; [| reflexivity].
  rewrite good_fixed; [reflexivity |]. apply Hgood; simpl; auto.
Qed.

Lemma upsert_rows_prefix (rows : list Row) :
  exists more,
    map (fun r => (ident r, key r)) (upsert_rows key k refresh fresh rows)
    = (map (fun r => (ident r, key r)) rows ++ more)%list.
Proof.
  unfold upsert_rows.
  destruct (find (fun r => String.eqb (key r) k) rows).
  - exists []. rewrite app_nil_r, map_map. apply map_ext. intro x.
    destruct (String.eqb (key x) k); [| reflexivity].
    now rewrite refresh_key, refresh_ident.
  - eexists. now rewrite map_app.
Qed.

End Keyed.

(** a table that only got longer, the identifier and the key of every
    row kept, still resolves a key it resolved to the same identifier *)
Lemma find_in_prefix {Row : Type} (key : Row -> string) (ident : Row -> N)
  (k : string) (rows rows' : list Row) (more : list (N * string))
  (r : Row) :
  map (fun r => (ident r, key r)) rows'
  = (map (fun r => (ident r, key r)) rows ++ more)%list ->
  find (fun r => String.eqb (key r) k) rows = Some r ->
  exists r',
    find (fun r => String.eqb (key r) k) rows' = Some r'
    /\ ident r' = ident r.
Proof.
  revert rows'. induction rows as [| r0 rows IH]; intros rows' Hmap Hfind;
    [discriminate |].
  destruct rows' as [| r0' rows']; [discriminate |].
  simpl in Hmap. injection Hmap as Hid Hkey Hmap.
  simpl in Hfind |- *. rewrite Hkey.
  destruct (String.eqb (key r0) k).
  - injection Hfind as <-. now exists r0'.
  - now apply IH.
Qed.

Lemma upsert_objection_run (x : string * string * string) (w : World) :
  post (upsert_objection x) w
    (fun r w' =>
       (r = Ok tt
        /\ db w' = upd_objections
                     (upsert_rows ob_typeKey (fst (fst x))
                        (refresh_objection x) (objection_of x (next_id w)))
                     (db w))
       \/ ((exists e, r = Throw e)
           /\ db w' = db w
           /\ (db_fault env (N.of_nat (length (db_log w)))
                 (SqlInsert T_objections) = true
               \/ objection_fits x = false))).
Proof.
  destruct x as [[typeKey displayName] description].
  unfold upsert_objection, objection_fits. cbn [fst snd].
  apply post_bind, post_stmt; intros Hf; cbv beta match;
    [| right; split; [eexists; reflexivity | split; [reflexivity | now left]]].
  apply post_bind, post_check; intros H1; cbv beta match;
    [| right; split; [eexists; reflexivity
                     | split; [reflexivity | right; now rewrite H1]]].
  apply post_bind, post_check; intros H2; cbv beta match;
    [| right; split; [eexists; reflexivity
                     | split; [reflexivity
                              | right; rewrite H2; apply andb_false_r]]].
  apply post_bind, post_read_db. cbv beta match.
  unfold find_objection. simpl db.
  destruct (find _ (t_objections (db w))) eqn:Hfind.
  - apply post_write_db. left. split; [reflexivity |].
    unfold upd_objections, upsert_rows. simpl. now rewrite Hfind.
  - apply post_bind, post_gen_random_uuid. cbv beta match.
    apply post_write_db. left. split; [reflexivity |].
    unfold upd_objections, upsert_rows. simpl. now rewrite Hfind.
Qed.

Lemma upsert_technology_run (x : string * string) (w : World) :
  post (upsert_technology x) w
    (fun r w' =>
       (r = Ok tt
        /\ db w' = upd_technologies
                     (upsert_rows te_name (fst x)
                        (refresh_technology x) (technology_of x (next_id w)))
                     (db w))
       \/ ((exists e, r = Throw e)
           /\ db w' = db w
           /\ (db_fault env (N.of_nat (length (db_log w)))
                 (SqlInsert T_technologies) = true
               \/ technology_fits x = false))).
Proof.
  destruct x as [name category].
  unfold upsert_technology, technology_fits. cbn [fst snd].
  apply post_bind, post_stmt; intros Hf; cbv beta match;
    [| right; split; [eexists; reflexivity | split; [reflexivity | now left]]].
  apply post_bind, post_check; intros H1; cbv beta match;
    [| right; split; [eexists; reflexivity
                     | split; [reflexivity | right; now rewrite H1]]].
  apply post_bind, post_check; intros H2; cbv beta match;
    [| right; split; [eexists; reflexivity
                     | split; [reflexivity
                              | right; rewrite H2; apply andb_false_r]]].
  apply post_bind, post_read_db. cbv beta match.
  unfold find_technology. simpl db.
  destruct (find _ (t_technologies (db w))) eqn:Hfind.
  - apply post_write_db. left. split; [reflexivity |].
    unfold upd_technologies, upsert_rows. simpl. now rewrite Hfind.
  - apply post_bind, post_gen_random_uuid. cbv beta match.
    apply post_write_db. left. split; [reflexivity |].
    unfold upd_technologies, upsert_rows. simpl. now rewrite Hfind.
Qed.

(** The loop over the seeds of one table. *)
Section SeedTable.

Context {Row S : Type}.
Variable proj : Store -> list Row.
Variable upd : (list Row -> list Row) -> Store -> Store.
Variable key : Row -> string.
Variable ident : Row -> N.
Variable skey : S -> string.
Variable refresh : S -> Row -> Row.
Variable row_of : S -> N -> Row.
Variable good : S -> Row -> Prop.
Variable fits : S -> bool.
Variable table : Table.
Variable body : S -> M unit.

Hypothesis proj_upd : forall f s, proj (upd f s) = f (proj s).
Hypothesis upd_proj : forall s, upd (fun _ => proj s) s = s.
Hypothesis upd_upd :
  forall rows f s, upd (fun _ => rows) (upd f s) = upd (fun _ => rows) s.
Hypothesis upd_fixed :
  forall f s, f (proj s) = proj s -> upd f s = s.
Hypothesis refresh_key : forall x r, key (refresh x r) = key r.
Hypothesis refresh_ident : forall x r, ident (refresh x r) = ident r.
Hypothesis row_of_key : forall x id, key (row_of x id) = skey x.
Hypothesis refresh_good : forall x r, good x (refresh x r).
Hypothesis row_of_good : forall x id, good x (row_of x id).
Hypothesis good_fixed : forall x r, good x r -> refresh x r = r.
Hypothesis body_run :
  forall x w,
    post (body x) w
      (fun r w' =>
         (r = Ok tt
          /\ db w' = upd (upsert_rows key (skey x) (refresh x)
                            (row_of x (next_id w)))
                       (db w))
         \/ ((exists e, r = Throw e)
             /\ db w' = db w
             /\ (db_fault env (N.of_nat (length (db_log w)))
                   (SqlInsert table) = true
                 \/ fits x = false))).

Lemma seed_loop_run (xs : list S) :
  (forall n, db_fault env n (SqlInsert table) = false) ->
  Forall (fun x => fits x = true) xs ->
  NoDup (map skey xs) ->
  forall w,
    post (for_each xs body) w
      (fun r w' =>
         r = Ok tt
         /\ (forall x, In x xs -> holds key (skey x) (good x) (proj (db w')))
         /\ (forall k' good',
                ~ In k' (map skey xs) ->
                holds key k' good' (proj (db w)) ->
                holds key k' good' (proj (db w')))
         /\ (exists more,
                map (fun r => (ident r, key r)) (proj (db w'))
                = (map (fun r => (ident r, key r)) (proj (db w))
                     ++ more)%list)
         /\ upd (fun _ => proj (db w)) (db w') = db w).
Proof.
  intros Hreach Hfits Hkeys.
  induction xs as [| x rest IH]; intro w; cbn [for_each].
  - apply post_ret. split; [reflexivity |].
    split; [intros x [] |]. split; [auto |].
    split; [exists []; now rewrite app_nil_r | apply upd_proj].
  - inversion Hfits as [| ? ? Hx Hrest]; subst.
    inversion Hkeys as [| ? ? Hnew Hkeys']; subst.
    apply post_bind.
    eapply post_weaken; [apply body_run |].
    intros r w1 [[-> Hdb1] | [_ [_ [Hf | Hf]]]];
      [| rewrite Hreach in Hf; discriminate | congruence].
    cbv beta match.
    eapply post_weaken; [apply (IH Hrest Hkeys') |].
    intros r w2 (-> & Hall & Hother & [more Hpre] & Hframe).
    assert (Hp1 : proj (db w1)
                  = upsert_rows key (skey x) (refresh x)
                      (row_of x (next_id w)) (proj (db w)))
      by (rewrite Hdb1; apply proj_upd).
    split; [reflexivity |]. split; [| split; [| split]].
    + intros y [<- | Hy]; [| now apply Hall].
      apply Hother; [exact Hnew |].
      rewrite Hp1. apply upsert_rows_holds; auto.
    + intros k' good' Hk' Hholds. simpl in Hk'.
      apply Hother; [tauto |].
      rewrite Hp1. apply upsert_rows_other; auto.
    + destruct (upsert_rows_prefix key ident (skey x) (refresh x)
                  (row_of x (next_id w)) (refresh_key x) (refresh_ident x)
                  (proj (db w))) as [more1 Hpre1].
      exists (more1 ++ more)%list.
      now rewrite Hpre, Hp1, Hpre1, app_assoc.
    + rewrite <- (upd_upd (proj (db w)) (fun _ => proj (db w1)) (db w2)).
      rewrite Hframe, Hdb1, upd_upd. apply upd_proj.
Qed.

Lemma seed_loop_fixed (xs : list S) :
  forall w,
    (forall x, In x xs -> holds key (skey x) (good x) (proj (db w))) ->
    db (snd (for_each xs body w)) = db w.
Proof.
  induction xs as [| x rest IH]; intros w Hall; cbn [for_each];
    [reflexivity |].
  rewrite bind_run. pose proof (body_run x w) as H. unfold post in H.
  destruct (body x w) as [[[] | e] w1]; simpl in H |- *.
  - assert (Hdb : db w1 = db w).
    { destruct H as [[_ ->] | [_ [-> _]]]; [| reflexivity].
      apply upd_fixed.
      apply (upsert_rows_fixed key (skey x) (refresh x) _ (good x));
        [apply good_fixed | apply Hall; now left]. }
    rewrite IH; [exact Hdb |].
    intros y Hy. rewrite Hdb. apply Hall. now right.
  - destruct H as [[H _] | [_ [-> _]]]; [discriminate | reflexivity].
Qed.

End SeedTable.

Lemma seed_objections_run (w : World) :
  vocabulary_reachable ->
  post (for_each Seed.OBJECTION_SEEDS upsert_objection) w
    (fun r w' =>
       r = Ok tt
       /\ (forall x, In x Seed.OBJECTION_SEEDS ->
                     holds ob_typeKey (fst (fst x)) (objection_seeded x)
                       (t_objections (db w')))
       /\ (forall k' good',
              ~ In k' (map (fun x => fst (fst x)) Seed.OBJECTION_SEEDS) ->
              holds ob_typeKey k' good' (t_objections (db w)) ->
              holds ob_typeKey k' good' (t_objections (db w')))
       /\ (exists more,
              map (fun r => (ob_id r, ob_typeKey r)) (t_objections (db w'))
              = (map (fun r => (ob_id r, ob_typeKey r)) (t_objections (db w))
                   ++ more)%list)
       /\ upd_objections (fun _ => t_objections (db w)) (db w') = db w).
Proof.
  intro Hreach.
  refine (seed_loop_run t_objections upd_objections ob_typeKey ob_id
            (fun x => fst (fst x)) refresh_objection objection_of
            objection_seeded objection_fits T_objections upsert_objection
            _ _ _ _ _ _ _ _ _ Seed.OBJECTION_SEEDS _ _ _ w).
  - reflexivity.
  - intros []; reflexivity.
  - reflexivity.
  - reflexivity.
  - reflexivity.
  - reflexivity.
  - split; reflexivity.
  - split; reflexivity.
  - apply upsert_objection_run.
  - intro n. apply Hreach.
  - repeat constructor.
  - repeat constructor; simpl; intuition discriminate.
Qed.

Lemma seed_technologies_run (w : World) :
  vocabulary_reachable ->
  post (for_each Seed.TECHNOLOGY_SEEDS upsert_technology) w
    (fun r w' =>
       r = Ok tt
       /\ (forall x, In x Seed.TECHNOLOGY_SEEDS ->
                     holds te_name (fst x) (technology_seeded x)
                       (t_technologies (db w')))
       /\ (forall k' good',
              ~ In k' (map fst Seed.TECHNOLOGY_SEEDS) ->
              holds te_name k' good' (t_technologies (db w)) ->
              holds te_name k' good' (t_technologies (db w')))
       /\ (exists more,
              map (fun r => (te_id r, te_name r)) (t_technologies (db w'))
              = (map (fun r => (te_id r, te_name r)) (t_technologies (db w))
                   ++ more)%list)
       /\ upd_technologies (fun _ => t_technologies (db w)) (db w') = db w).
Proof.
  intro Hreach.
  refine (seed_loop_run t_technologies upd_technologies te_name te_id
            fst refresh_technology technology_of
            technology_seeded technology_fits T_technologies
            upsert_technology
            _ _ _ _ _ _ _ _ _ Seed.TECHNOLOGY_SEEDS _ _ _ w).
  - reflexivity.
  - intros []; reflexivity.
  - reflexivity.
  - reflexivity.
  - reflexivity.
  - reflexivity.
  - reflexivity.
  - reflexivity.
  - apply upsert_technology_run.
  - intro n. apply Hreach.
  - repeat constructor.
  - repeat constructor; simpl; intuition discriminate.
Qed.

Lemma seed_objections_fixed (w : World) :
  (forall x, In x Seed.OBJECTION_SEEDS ->
             holds ob_typeKey (fst (fst x)) (objection_seeded x)
               (t_objections (db w))) ->
  db (snd (for_each Seed.OBJECTION_SEEDS upsert_objection w)) = db w.
Proof.
  refine (seed_loop_fixed t_objections upd_objections ob_typeKey
            (fun x => fst (fst x)) refresh_objection objection_of
            objection_seeded objection_fits T_objections upsert_objection
            _ _ _ Seed.OBJECTION_SEEDS w).
  - intros f [] H. simpl in *. unfold upd_objections. simpl. now rewrite H.
  - intros x [] [H1 H2]. simpl in *. unfold refresh_objection. simpl.
    now rewrite H1, H2.
  - apply upsert_objection_run.
Qed.

Lemma seed_technologies_fixed (w : World) :
  (forall x, In x Seed.TECHNOLOGY_SEEDS ->
             holds te_name (fst x) (technology_seeded x)
               (t_technologies (db w))) ->
  db (snd (for_each Seed.TECHNOLOGY_SEEDS upsert_technology w)) = db w.
Proof.
  refine (seed_loop_fixed t_technologies upd_technologies te_name
            fst refresh_technology technology_of
            technology_seeded technology_fits T_technologies
            upsert_technology
            _ _ _ Seed.TECHNOLOGY_SEEDS w).
  - intros f [] H. simpl in *. unfold upd_technologies. simpl. now rewrite H.
  - intros x [] H. unfold technology_seeded in H. simpl in *.
    unfold refresh_technology. simpl. now rewrite H.
  - apply upsert_technology_run.
Qed.

(** A run of the seed script on a store that takes the insertions. *)
Lemma seed_run (w : World) :
  vocabulary_reachable ->
  post seed w
    (fun r w' =>
       r = Ok tt
       /\ vocabulary_seeded (db w')
       /\ (exists more,
              map (fun r => (ob_id r, ob_typeKey r)) (t_objections (db w'))
              = (map (fun r => (ob_id r, ob_typeKey r)) (t_objections (db w))
                   ++ more)%list)
       /\ (exists more,
              map (fun r => (te_id r, te_name r)) (t_technologies (db w'))
              = (map (fun r => (te_id r, te_name r)) (t_technologies (db w))
                   ++ more)%list)
       /\ upd_objections (fun _ => t_objections (db w))
            (upd_technologies (fun _ => t_technologies (db w)) (db w'))
          = db w).
Proof.
  intro Hreach. unfold seed. apply post_bind.
  eapply post_weaken; [apply seed_objections_run, Hreach |].
  intros r w1 (-> & Hobj & _ & Hpre1 & Hframe1). cbv beta match.
  eapply post_weaken; [apply seed_technologies_run, Hreach |].
  intros r w2 (-> & Htech & _ & Hpre2 & Hframe2).
  assert (Ho : t_objections (db w2) = t_objections (db w1))
    by (rewrite <- Hframe2; reflexivity).
  assert (Ht : t_technologies (db w1) = t_technologies (db w))
    by (rewrite <- Hframe1; reflexivity).
  split; [reflexivity |].
  split; [split; [intros x Hx; rewrite Ho; now apply Hobj | exact Htech] |].
  split; [now rewrite Ho |].
  split; [now rewrite <- Ht |].
  rewrite <- Ht, Hframe2. exact Hframe1.
Qed.

(** X12.  On a store that takes the insertions the seed script succeeds,
    and afterwards every canonical objection key and every technology
    name resolves to a row that says what the seed says.  A key that
    resolved before resolves to the same identifier, so the links of
    earlier calls stay valid, and no other table is touched. *)
Theorem seed_installs_vocabulary (w : World) :
  vocabulary_reachable ->
  fst (seed w) = Ok tt
  /\ (forall x, In x Seed.OBJECTION_SEEDS ->
        exists o,
          find_objection (db (snd (seed w))) (fst (fst x)) = Some o
          /\ ob_displayName o = snd (fst x)
          /\ ob_description o = Some (snd x))
  /\ (forall x, In x Seed.TECHNOLOGY_SEEDS ->
        exists t,
          find_technology (db (snd (seed w))) (fst x) = Some t
          /\ te_category t = Some (snd x))
  /\ (forall k o, find_objection (db w) k = Some o ->
        exists o',
          find_objection (db (snd (seed w))) k = Some o'
          /\ ob_id o' = ob_id o)
  /\ (forall n t, find_technology (db w) n = Some t ->
        exists t',
          find_technology (db (snd (seed w))) n = Some t'
          /\ te_id t' = te_id t)
  /\ upd_objections (fun _ => t_objections (db w))
       (upd_technologies (fun _ => t_technologies (db w))
          (db (snd (seed w))))
     = db w.
Proof.
  intro Hreach. pose proof (seed_run w Hreach) as H. unfold post in H.
  destruct H as (Hok & [Hobj Htech] & [m1 Hpre1] & [m2 Hpre2] & Hframe).
  split; [exact Hok |].
  split; [| split; [| split; [| split; [| exact Hframe]]]].
  - intros x Hx.
    destruct (holds_find ob_typeKey (fst (fst x)) (objection_seeded x) _
                (Hobj x Hx)) as [o [Hfind [H1 H2]]].
    exists o. auto.
  - intros x Hx.
    destruct (holds_find te_name (fst x) (technology_seeded x) _
                (Htech x Hx)) as [t [Hfind H1]].
    exists t. auto.
  - intros k o Hfind.
    exact (find_in_prefix ob_typeKey ob_id k _ _ _ o Hpre1 Hfind).
  - intros n t Hfind.
    exact (find_in_prefix te_name te_id n _ _ _ t Hpre2 Hfind).
Qed.

(** X13.  Seeding is repeatable: on a store that holds every seed the
    script changes nothing, whether its statements get through or not;
    and a store that took a first run holds every seed. *)
Theorem seed_twice_is_seed_once (w : World) :
  (vocabulary_seeded (db w) -> db (snd (seed w)) = db w)
  /\ (vocabulary_reachable ->
      vocabulary_seeded (db (snd (seed w)))
      /\ forall w2, db w2 = db (snd (seed w)) -> db (snd (seed w2)) = db w2).
Proof.
  assert (Hfixed : forall w0,
             vocabulary_seeded (db w0) -> db (snd (seed w0)) = db w0).
  { intros w0 [Hobj Htech]. unfold seed. rewrite bind_run.
    pose proof (seed_objections_fixed w0 Hobj) as H1.
    destruct (for_each Seed.OBJECTION_SEEDS upsert_objection w0)
      as [[[] | e] w1]; cbn [snd] in H1; cbv beta iota; [| exact H1].
    rewrite seed_technologies_fixed; [exact H1 |].
    intros x Hx. rewrite H1. now apply Htech. }
  split; [apply Hfixed |].
  intro Hreach. pose proof (seed_run w Hreach) as H. unfold post in H.
  destruct H as (_ & Hseeded & _).
  split; [exact Hseeded |].
  intros w2 Hdb. apply Hfixed. now rewrite Hdb.
Qed.

(** ** Resolving companies, team members and contacts *)

Lemma forallb_trimStart_spaces (p : ascii -> bool) (s : string) :
  (forall c, Str.is_space c = true -> p c = true) ->
  Str.forallb p (Str.trimStart s) = Str.forallb p s.
Proof.
  intro Hp. induction s as [| c s IH]; simpl; [reflexivity |].
  destruct (Str.is_space c) eqn:E; [| reflexivity].
  now rewrite IH, (Hp c E).
Qed.

Lemma forallb_trim_spaces (p : ascii -> bool) (s : string) :
  (forall c, Str.is_space c = true -> p c = true) ->
  Str.forallb p (Str.trim s) = Str.forallb p s.
Proof.
  intro Hp. unfold Str.trim, Str.trimEnd.
  now rewrite forallb_rev, forallb_trimStart_spaces, forallb_rev,
    forallb_trimStart_spaces.
Qed.

(** trimming and lower-casing neither adds nor removes an ["@"] *)
Lemma includes_at_normalized (e : string) :
  Str.includes (Str.toLowerCase (Str.trim e)) "@" = Str.includes e "@".
Proof.
  rewrite !includes_at, no_at_toLowerCase. unfold no_at.
  rewrite forallb_trim_spaces; [reflexivity |].
  intros c Hc. destruct (Ascii.eqb_spec c "@"%char) as [-> |];
    [discriminate | reflexivity].
Qed.

(** X14.  A prospect contact is looked up by the trimmed name alone: when
    a contact of that name exists, under whatever company, its identifier
    is returned for every company and every role, and nothing is
    written. *)
Theorem getOrCreateProspectContact_by_name_only (name : string)
  (role : value) (companyId : N) (w : World) (p : ProspectContact) :
  find_prospect_contact (db w) (Str.trim name) = Some p ->
  db_fault env (N.of_nat (length (db_log w))) (SqlSelect T_prospectContacts)
  = false ->
  getOrCreateProspectContact (VStr name) role companyId w
  = (Ok (pc_id p), sent (SqlSelect T_prospectContacts) w).
Proof.
  intros Hfind Hfault. apply post_eq. unfold getOrCreateProspectContact.
  apply post_bind, post_lift. simpl js_trim. cbv beta match.
  apply post_bind, post_stmt; intro Hf; [| congruence]. cbv beta match.
  apply post_bind, post_read_db. cbv beta match.
  change (db (sent (SqlSelect T_prospectContacts) w)) with (db w).
  rewrite Hfind. apply post_ret. split; reflexivity.
Qed.

(** X15.  A team member with an address is looked up by the trimmed,
    lower-cased address alone: when a member with that address exists its
    identifier is returned whatever the name is, even when the name is
    not a string, and nothing is written. *)
Theorem getOrCreateTeamMember_by_address_only (name : value)
  (email : string) (w : World) (m : TeamMember) :
  Str.includes email "@" = true ->
  find_team_member (db w) (Str.toLowerCase (Str.trim email)) = Some m ->
  db_fault env (N.of_nat (length (db_log w))) (SqlSelect T_teamMembers)
  = false ->
  getOrCreateTeamMember name (VStr email) w
  = (Ok (tm_id m), sent (SqlSelect T_teamMembers) w).
Proof.
  intros Hat Hfind Hfault.
  assert (Htruthy : Str.truthy email = true)
    by (destruct email; [discriminate | reflexivity]).
  assert (Hne : normalizeEmail (VStr email)
                = Ok (Str.toLowerCase (Str.trim email))).
  { unfold normalizeEmail, js_or. simpl truthy. now rewrite Htruthy. }
  assert (Hat' : Str.includes (Str.toLowerCase (Str.trim email)) "@" = true)
    by now rewrite includes_at_normalized.
  assert (Hnonempty : Str.truthy (Str.toLowerCase (Str.trim email)) = true)
    by (destruct (Str.toLowerCase (Str.trim email));
        [discriminate | reflexivity]).
  apply post_eq. unfold getOrCreateTeamMember.
  apply post_bind, post_lift. rewrite Hne. cbv beta match.
  rewrite Hat', Hnonempty. simpl negb. cbv beta iota.
  apply post_bind, post_stmt; intro Hf; [| congruence]. cbv beta match.
  apply post_bind, post_read_db. cbv beta match.
  change (db (sent (SqlSelect T_teamMembers) w)) with (db w).
  rewrite Hfind. apply post_ret. split; reflexivity.
Qed.

(** X16.  A call without a usable company name never resolves to an
    existing company, not even to one named ["Unknown"]: no lookup is
    made, and a normal return means that a new row named after the clock
    has been added, which requires that no row of that name was there. *)
Theorem getOrCreateCompany_unknown_is_new (name : string)
  (date : option number) (w : World) :
  Str.trim name = "" \/ Str.trim name = "Unknown" ->
  post (getOrCreateCompany (VStr name) date) w
    (fun r w' =>
       ~ In (SqlSelect T_companies)
           (skipn (length (db_log w)) (db_log w'))
       /\ forall id, r = Ok id ->
            id = next_id w
            /\ find_company (db w) ("Unknown-" ++ Str.of_N (now w)) = None
            /\ exists ts,
                t_companies (db w')
                = (t_companies (db w)
                     ++ [mkCompany id ("Unknown-" ++ Str.of_N (now w)) None
                           (Some ts)])%list).
Proof.
  intro Hname. unfold getOrCreateCompany.
  apply post_bind, post_lift. simpl js_trim. cbv beta match.
  assert (Hcond : negb (Str.truthy (Str.trim name))
                  || String.eqb (Str.trim name) "Unknown" = true)
    by (destruct Hname as [-> | ->]; reflexivity).
  rewrite Hcond.
  assert (Hlog0 : forall l : list Statement,
             skipn (length l) l = []) by (intro l; apply skipn_all).
  assert (Hlog1 : forall (l : list Statement) st,
             skipn (length l) (l ++ [st]) = [st]).
  { intros l st. rewrite skipn_app, skipn_all, Nat.sub_diag. reflexivity. }
  unfold insert_company, date_or_now.
  wp; (split; [| intros id Hid; try discriminate Hid]).
  all: try (simpl db_log; rewrite ?Hlog0, ?Hlog1; simpl;
            intuition discriminate).
  all: injection Hid as <-; simpl;
    (split; [reflexivity |]);
    (split; [| eexists; reflexivity]).
  all: match goal with
       | H : match find_company ?s ?n with _ => _ end = true |- _ =>
           change s with (db w) in H;
           destruct (find_company (db w) n) eqn:E;
           [discriminate | exact E]
       end.
Qed.

(** a named company: a normal return gives the identity of the row of
    that name *)
Lemma getOrCreateCompany_named_run (name : string) (date : option number)
  (w : World) :
  negb (Str.truthy (Str.trim name)) || String.eqb (Str.trim name) "Unknown"
  = false ->
  post (getOrCreateCompany (VStr name) date) w
    (fun r w' =>
       forall id, r = Ok id ->
         exists c,
           find_company (db w') (Str.trim name) = Some c /\ co_id c = id).
Proof.
  intro Hcond. unfold getOrCreateCompany.
  apply post_bind, post_lift. simpl js_trim. cbv beta match.
  rewrite Hcond. unfold insert_company, date_or_now.
  wp; intros id Hid; try discriminate Hid.
  all: injection Hid as <-.
  all: try (eexists; split; [eassumption | reflexivity]).
  all: eexists; split;
    [ unfold find_company in *; simpl in *;
      apply find_app_new; [eassumption | apply String.eqb_refl]
    | reflexivity ].
Qed.

Lemma companies_kept_refl (w : World) : companies_kept w w.
Proof. exists []. now rewrite app_nil_r. Qed.

Lemma companies_kept_trans (a b c : World) :
  companies_kept a b -> companies_kept b c -> companies_kept a c.
Proof.
  intros [m1 E1] [m2 E2]. exists (m1 ++ m2)%list.
  now rewrite E2, E1, app_assoc.
Qed.

Lemma find_app_found {X : Type} (p : X -> bool) (rows more : list X)
  (x : X) :
  find p rows = Some x -> find p (rows ++ more)%list = Some x.
Proof.
  induction rows as [| r rows IH]; simpl; [discriminate |].
  destruct (p r); auto.
Qed.

Lemma companies_kept_persists (name : string) (w w' : World) :
  companies_kept w w' -> company_persists name w w'.
Proof.
  intros [more E] c. unfold find_company. rewrite E.
  apply find_app_found.
Qed.

(** the store writer only adds companies, behind the ones there are *)
Lemma storeExtraction_companies_kept (rawMeetingId : N)
  (rawData : RawMeetingData) (extraction : ExtractionResult) :
  keeps companies_kept (storeExtraction rawMeetingId rawData extraction).
Proof.
  frame companies_kept_refl companies_kept_trans.
  all: unfold companies_kept; simpl.
  all: first [ exists []; now rewrite app_nil_r
             | eexists; reflexivity ].
Qed.

(** X17.  Companies are shared by their trimmed name: once a call with a
    usable name has returned an identifier, a later call whose name trims
    to the same text returns that identifier after one lookup, and writes
    nothing.  The later call may run in any store in which the lookup
    still finds the row of the first call, whatever else has been
    written since. *)
Theorem getOrCreateCompany_round_trip (name name2 : string)
  (date date2 : option number) (w w1 w2 : World) (id : N) :
  Str.trim name <> "" ->
  Str.trim name <> "Unknown" ->
  getOrCreateCompany (VStr name) date w = (Ok id, w1) ->
  Str.trim name2 = Str.trim name ->
  company_persists (Str.trim name) w1 w2 ->
  db_fault env (N.of_nat (length (db_log w2))) (SqlSelect T_companies)
  = false ->
  getOrCreateCompany (VStr name2) date2 w2
  = (Ok id, sent (SqlSelect T_companies) w2).
Proof.
  intros Hne Hunk Hrun Htrim Hkept Hfault.
  assert (Hcond : negb (Str.truthy (Str.trim name))
                  || String.eqb (Str.trim name) "Unknown" = false).
  { apply orb_false_iff. split.
    - destruct (Str.trim name); [congruence | reflexivity].
    - now apply String.eqb_neq. }
  pose proof (getOrCreateCompany_named_run name date w Hcond) as H.
  unfold post in H. rewrite Hrun in H.
  destruct (H id eq_refl) as [c [Hfind Hid]]. simpl in Hfind.
  apply post_eq. unfold getOrCreateCompany.
  apply post_bind, post_lift. simpl js_trim. cbv beta match.
  rewrite Htrim, Hcond.
  apply post_bind, post_stmt; intro Hf; [| congruence]. cbv beta match.
  apply post_bind, post_read_db. cbv beta match.
  change (db (sent (SqlSelect T_companies) w2)) with (db w2).
  rewrite (Hkept c Hfind). apply post_ret. now rewrite Hid.
Qed.

(** ** Where the store writer can fail *)

Lemma never_throws_bind {A B : Type} (c : M A) (k : A -> M B) :
  never_throws c -> (forall a, never_throws (k a)) ->
  never_throws (bind c k).
Proof.
  intros Hc Hk w. rewrite bind_run. destruct (Hc w) as [a Ha].
  destruct (c w) as [[a' | e] w1]; simpl in Ha; [apply Hk | discriminate].
Qed.

Lemma never_throws_caught {A : Type} (c : M A) (h : error -> M A) :
  (forall e, never_throws (h e)) -> never_throws (try_catch c h).
Proof.
  intros Hh w. rewrite try_catch_run.
  destruct (c w) as [[a | e] w1]; [now exists a | apply Hh].
Qed.

Lemma never_throws_for_each {A : Type} (xs : list A) (body : A -> M unit) :
  Forall (fun x => never_throws (body x)) xs ->
  never_throws (for_each xs body).
Proof.
  induction 1 as [| x rest Hx _ IH]; simpl.
  - intro w. now exists tt.
  - apply never_throws_bind; [exact Hx | intros _; exact IH].
Qed.

Lemma never_throws_ret {A : Type} (a : A) : never_throws (ret a).
Proof. intro w. now exists a. Qed.

Lemma link_team_member_total (callId : N) (tm : value) :
  nameable tm -> never_throws (link_team_member callId tm).
Proof.
  intros [name [Hname Hrenders]].
  apply never_throws_caught. intros e w.
  rewrite !bind_run. unfold lift, template. rewrite Hname, Hrenders.
  now exists tt.
Qed.

Lemma link_prospect_total (callId companyId : N) (pc : value) :
  nameable pc -> never_throws (link_prospect callId companyId pc).
Proof.
  intros [name [Hname Hrenders]].
  apply never_throws_caught. intros e w.
  rewrite !bind_run. unfold lift, template. rewrite Hname, Hrenders.
  now exists tt.
Qed.

Lemma companies_only_refl (w : World) : companies_only w w.
Proof. unfold companies_only. destruct (db w); reflexivity. Qed.

Lemma companies_only_trans (a b c : World) :
  companies_only a b -> companies_only b c -> companies_only a c.
Proof.
  unfold companies_only. intros H1 H2. rewrite <- H1, <- H2.
  destruct (db c); reflexivity.
Qed.

Lemma getOrCreateCompany_companies_only (name : value)
  (date : option number) :
  keeps companies_only (getOrCreateCompany name date).
Proof.
  frame companies_only_refl companies_only_trans.
  all: unfold companies_only; simpl; destruct (db w); reflexivity.
Qed.

(** a failed insertion of the Call row leaves the store as it is *)
Lemma insert_call_failure rawMeetingId rawData extraction companyId
  meetingDate duration w :
  post (insert_call rawMeetingId rawData extraction companyId
          meetingDate duration) w
    (fun r w' => forall e, r = Throw e -> db w' = db w).
Proof.
  unfold insert_call.
  wp; intros err He; try discriminate He; reflexivity.
Qed.

(** X18.  When every entry of the team members and of the prospect
    names is an entry whose name can be put in a warning (the entry is
    not [null], and its name is absent, a string, a number, or any other
    value that converts to a string), the store writer can fail in two
    places only: resolving the company and inserting the Call row.  So a
    failure of the store writer leaves no Call row and no row that hangs
    on one behind; at most a company has been added. *)
Theorem storeExtraction_fails_before_call (rawMeetingId : N)
  (rawData : RawMeetingData) (extraction : ExtractionResult) (w : World)
  (e : error) :
  Forall nameable (team_members extraction) ->
  Forall nameable (prospect_names extraction) ->
  fst (storeExtraction rawMeetingId rawData extraction w) = Throw e ->
  companies_only w (snd (storeExtraction rawMeetingId rawData extraction w)).
Proof.
  intros Htm Hpc. unfold storeExtraction. rewrite bind_run.
  pose proof (getOrCreateCompany_companies_only (company_name extraction)
                (if_truthy Date_of_number (date rawData)) w) as Hco.
  destruct (getOrCreateCompany _ _ w) as [[companyId | e1] w1];
    simpl in Hco; [| intros _; exact Hco].
  rewrite bind_run.
  pose proof (insert_call_failure rawMeetingId rawData extraction companyId
                (if_truthy Date_of_number (date rawData))
                (if_truthy Math_round (duration rawData)) w1) as Hcall.
  unfold post in Hcall.
  destruct (insert_call _ _ _ _ _ _ w1) as [[callId | e2] w2];
    simpl in Hcall.
  - intro Hthrow. exfalso.
    assert (Hrest : never_throws
              (for_each (team_members extraction) (link_team_member callId) ;;
               for_each (prospect_names extraction)
                 (link_prospect callId companyId) ;;
               for_each (tech_stack extraction) (link_technology callId) ;;
               for_each (objections extraction) (link_objection callId) ;;
               for_each (follow_up_actions extraction)
                 (add_follow_up callId) ;;
               for_each (prospect_questions extraction)
                 (add_question callId) ;;
               for_each (key_quotes extraction) (add_key_quote callId) ;;
               for_each (counter_responses extraction)
                 (add_counter_response callId))).
    { repeat (apply never_throws_bind; [| intros _]);
        apply never_throws_for_each.
      - eapply Forall_impl; [| exact Htm].
        intros tm. apply link_team_member_total.
      - eapply Forall_impl; [| exact Hpc].
        intros pc. apply link_prospect_total.
      - apply Forall_forall. intros x _.
        apply never_throws_caught. intro. apply never_throws_ret.
      - apply Forall_forall. intros x _.
        apply never_throws_caught. intro. apply never_throws_ret.
      - apply Forall_forall. intros x _.
        apply never_throws_caught. intro. apply never_throws_ret.
      - apply Forall_forall. intros x _.
        apply never_throws_caught. intro. apply never_throws_ret.
      - apply Forall_forall. intros x _.
        apply never_throws_caught. intro. apply never_throws_ret.
      - apply Forall_forall. intros x _.
        apply never_throws_caught. intro. apply never_throws_ret. }
    destruct (Hrest w2) as [a Ha]. cbv beta iota in Hthrow.
    rewrite Ha in Hthrow. discriminate.
  - intros _. cbv beta iota. simpl snd.
    unfold companies_only. rewrite (Hcall e2 eq_refl). exact Hco.
Qed.

(** ** The rows that hang on a call *)

(** X27.  Whatever the extraction result holds, the rows [storeExtraction]
    writes hang together: it leaves the table of calls and the eight
    tables that refer to a call as they are, or it adds exactly one Call
    row, for the given raw meeting, and every row added to one of the
    eight tables refers to that Call row. *)
Theorem storeExtraction_rows_hang_on_call (rawMeetingId : N)
  (rawData : RawMeetingData) (extraction : ExtractionResult) (w : World) :
  no_call_written w
    (snd (storeExtraction rawMeetingId rawData extraction w))
  \/ exists c,
      t_calls (db (snd (storeExtraction rawMeetingId rawData extraction w)))
      = (t_calls (db w) ++ [c])%list
      /\ ca_rawMeetingId c = Some rawMeetingId
      /\ hang_on (ca_id c) w
           (snd (storeExtraction rawMeetingId rawData extraction w)).
Proof.
  pose proof (storeExtraction_run rawMeetingId rawData extraction w) as H.
  unfold post in H.
  destruct H as [[Hsame _] | [c (Hcalls & Hraw & _ & Hhang)]].
  - now left.
  - right. now exists c.
Qed.

(** ** The counts of the driver *)

Lemma post_any {A : Type} (c : M A) (w : World)
  (Q : result A -> World -> Prop) :
  (forall r w', Q r w') -> post c w Q.
Proof. intro H. apply H. Qed.

Lemma classify_step_counts i total m stats w :
  post (classify_step i total m stats) w
    (fun r _ =>
       forall c s1, r = Ok (c, s1) -> s1 = count_classification c stats).
Proof.
  unfold classify_step, set_classification.
  apply post_bind, post_console_log. cbv beta match.
  apply post_bind, post_any. intros [c |e] w1; cbv beta match.
  - wp; intros c' s1 Hres; [now injection Hres as <- <- | discriminate].
  - intros c' s1 Hres. discriminate.
Qed.

Lemma extract_step_counts m c stats w :
  post (extract_step m c stats) w
    (fun r _ =>
       forall s2, r = Ok s2 ->
         s2 = stats
         \/ (c = sales_call
             /\ (s2 = count_extracted stats
                 \/ s2 = count_extraction_error stats))).
Proof.
  unfold extract_step.
  destruct c;
    try (apply post_ret; intros s2 Hres; injection Hres as <-; now left).
  apply post_try_catch. unfold extract_and_store.
  destruct (negb (Str.truthy (transcript_of m))
            || (Str.len (transcript_of m) <? MIN_TRANSCRIPT)%N).
  - wp. intros s2 Hres. injection Hres as <-. now left.
  - apply post_bind, post_sleep. cbv beta match.
    apply post_bind, post_any. intros [extraction | e] w1; cbv beta match.
    + do 3 (apply post_bind, post_any; intros [[] | ?] ?; cbv beta match;
            [| wp; intros s2 Hres; injection Hres as <-; right; auto]).
      apply post_bind, post_console_log. cbv beta match.
      apply post_bind, post_any. intros [[] | e] w2; cbv beta match.
      * apply post_ret. intros s2 Hres. injection Hres as <-. right. auto.
      * wp. intros s2 Hres. injection Hres as <-. right. auto.
    + wp. intros s2 Hres. injection Hres as <-. right. auto.
Qed.

Lemma count_classification_counted c n stats :
  counted n stats -> counted (S n) (count_classification c stats).
Proof.
  intros (H1 & H2 & H3). destruct c; unfold counted; simpl; repeat split; lia.
Qed.

Lemma process_meeting_counts i total m stats w :
  post (process_meeting i total m stats) w
    (fun r _ =>
       forall s', r = Ok s' ->
         st_total s' = st_total stats
         /\ forall n, counted n stats -> counted (S n) s').
Proof.
  unfold process_meeting. apply post_bind.
  eapply post_weaken; [apply classify_step_counts |].
  intros [[c s1] | e] w1 H1; cbv beta match;
    [| intros s' Hres; discriminate].
  specialize (H1 c s1 eq_refl). subst s1. cbn [fst snd].
  apply post_bind.
  eapply post_weaken; [apply extract_step_counts |].
  intros [s2 | e] w2 H2; cbv beta match; [| intros s' Hres; discriminate].
  specialize (H2 s2 eq_refl).
  apply post_bind, post_any. intros [[] | e] w3; cbv beta match;
    [| intros s' Hres; discriminate].
  apply post_ret. intros s' Hres. injection Hres as <-.
  destruct H2 as [-> | [-> [-> | ->]]].
  - split; [now destruct c |]. intros n. apply count_classification_counted.
  - split; [reflexivity |]. intros n (H1 & H2 & H3).
    unfold counted; simpl; repeat split; simpl in *; lia.
  - split; [reflexivity |]. intros n (H1 & H2 & H3).
    unfold counted; simpl; repeat split; simpl in *; lia.
Qed.

Lemma process_from_counts unprocessed :
  forall i total stats w,
    post (process_from i total unprocessed stats) w
      (fun r _ =>
         forall s', r = Ok s' ->
           st_total s' = st_total stats
           /\ forall n, counted n stats ->
                        counted (length unprocessed + n) s').
Proof.
  induction unprocessed as [| m rest IH]; intros i total stats w;
    cbn [process_from].
  - apply post_ret. intros s' Hres. injection Hres as <-. auto.
  - apply post_bind.
    eapply post_weaken; [apply process_meeting_counts |].
    intros [s1 | e] w1 H1; cbv beta match; [| intros s' Hres; discriminate].
    destruct (H1 s1 eq_refl) as [Ht1 Hc1].
    eapply post_weaken; [apply IH |].
    intros r w2 H2 s' Hr. destruct (H2 s' Hr) as [Ht2 Hc2].
    split; [congruence |].
    intros n Hn. simpl length.
    replace (S (length rest) + n)%nat with (length rest + S n)%nat by lia.
    auto.
Qed.

(** X19.  The counts [main] reports add up: the total is the size of the
    backlog, every record is counted in exactly one of the four classes,
    the extractions that succeeded and the ones that failed are together
    no more than the sales calls, and the count of classifier requests is
    never incremented: it is 0 whatever the classifier did. *)
Theorem main_counts_add_up (w : World) (stats : Stats) :
  fst (main w) = Ok (Some stats) ->
  st_total stats = length (filter is_unprocessed (t_rawMeetings (db w)))
  /\ (0 < st_total stats)%nat
  /\ (st_sales_call stats + st_partner_call stats + st_internal stats
      + st_other stats = st_total stats)%nat
  /\ (st_extracted stats + st_extractionErrors stats
      <= st_sales_call stats)%nat
  /\ st_classificationLLMCalls stats = 0%nat.
Proof.
  assert (H : post main w
                (fun r _ =>
                   forall s, r = Ok (Some s) ->
                     st_total s
                     = length (filter is_unprocessed (t_rawMeetings (db w)))
                     /\ (0 < st_total s)%nat
                     /\ counted (st_total s) s)).
  { unfold main, select_unprocessed.
    apply post_bind, post_console_log. cbv beta match.
    apply post_bind, post_bind, post_stmt; intros _; cbv beta match;
      [| intros s Hres; discriminate].
    apply post_bind, post_read_db. cbv beta match.
    apply post_ret. cbv beta match.
    change (db (sent (SqlSelect T_rawMeetings)
                  (set_console (console w ++ [LogBanner]) w)))
      with (db w).
    set (backlog := filter is_unprocessed (t_rawMeetings (db w))).
    apply post_bind, post_console_log. cbv beta match.
    destruct backlog as [| m rest] eqn:Hb.
    - wp. intros s Hres. discriminate.
    - apply post_bind.
      eapply post_weaken; [apply process_from_counts |].
      intros [s1 | e] w1 H1; cbv beta match; [| intros s Hres; discriminate].
      destruct (H1 s1 eq_refl) as [Ht Hc].
      wp. intros s Hres. injection Hres as <-.
      simpl st_total in Ht. rewrite Ht.
      split; [reflexivity |]. split; [simpl; lia |].
      specialize (Hc 0%nat). rewrite Nat.add_0_r in Hc. apply Hc.
      unfold counted. simpl. repeat split; lia. }
  intro Hmain. unfold post in H.
  destruct (H stats Hmain) as (H1 & H2 & H3 & H4 & H5). auto.
Qed.

(** ** The requests of a run *)

Lemma asks_bind {A B : Type} (a b : nat) (c : M A) (k : A -> M B) :
  asks a c -> (forall x, asks b (k x)) -> asks (a + b) (bind c k).
Proof.
  intros Hc Hk w. rewrite bind_run. specialize (Hc w).
  destruct (c w) as [[x | e] w1]; simpl in *.
  - specialize (Hk x w1). lia.
  - lia.
Qed.

Lemma asks_try_catch {A : Type} (a b : nat) (c : M A) (h : error -> M A) :
  asks a c -> (forall e, asks b (h e)) -> asks (a + b) (try_catch c h).
Proof.
  intros Hc Hh w. rewrite try_catch_run. specialize (Hc w).
  destruct (c w) as [[x | e] w1]; simpl in *.
  - lia.
  - specialize (Hh e w1). lia.
Qed.

Lemma asks_silent {A : Type} (c : M A) : keeps silent c -> asks 0 c.
Proof. intros H w. rewrite (H w). lia. Qed.

Lemma asks_more {A : Type} (a b : nat) (c : M A) :
  (a <= b)%nat -> asks a c -> asks b c.
Proof. intros Hab H w. specialize (H w). lia. Qed.

Lemma silent_refl w : silent w w.
Proof. reflexivity. Qed.

Lemma silent_trans a b c : silent a b -> silent b c -> silent a c.
Proof. unfold silent. congruence. Qed.

Lemma messages_create_asks (r : Request) : asks 1 (messages_create r).
Proof.
  intro w. unfold messages_create.
  destruct (llm_reply env _ r); simpl; rewrite length_app; simpl; lia.
Qed.

Lemma classifyMeeting_asks (data : RawMeetingData) :
  asks 1 (classifyMeeting data).
Proof.
  unfold classifyMeeting.
  destruct (classifyByRules SHERLOCK_DOMAIN data).
  - apply (asks_more 0); [lia |]. apply asks_silent.
    apply keeps_ret, silent_refl.
  - unfold classifyByLLM. apply (asks_bind 1 0).
    + apply messages_create_asks.
    + intro text. apply asks_silent, keeps_ret, silent_refl.
Qed.

Lemma extractSalesCall_asks (transcript title summary : string) :
  asks 1 (extractSalesCall transcript title summary).
Proof.
  unfold extractSalesCall. apply (asks_bind 1 0).
  - apply messages_create_asks.
  - intro response. apply asks_silent.
    frame silent_refl silent_trans.
Qed.

Lemma storeExtraction_silent rawMeetingId rawData extraction :
  keeps silent (storeExtraction rawMeetingId rawData extraction).
Proof.
  intro w.
  destruct (storeExtraction_backstage rawMeetingId rawData extraction w)
    as (_ & _ & H).
  exact H.
Qed.

Lemma classify_step_asks i total m stats :
  asks 1 (classify_step i total m stats).
Proof.
  unfold classify_step.
  apply (asks_bind 0 1); [apply asks_silent; frame silent_refl silent_trans |].
  intros _. apply (asks_bind 1 0).
  - apply (asks_try_catch 1 0).
    + apply (asks_bind 1 0); [apply classifyMeeting_asks |].
      intro c. apply asks_silent. frame silent_refl silent_trans.
    + intro e. apply asks_silent. frame silent_refl silent_trans.
  - intro c. apply asks_silent. frame silent_refl silent_trans.
Qed.

Lemma extract_step_asks m c stats : asks 1 (extract_step m c stats).
Proof.
  unfold extract_step.
  destruct c;
    try (apply (asks_more 0); [lia |];
         apply asks_silent, keeps_ret, silent_refl).
  apply (asks_try_catch 1 0).
  - unfold extract_and_store.
    destruct (negb (Str.truthy (transcript_of m))
              || (Str.len (transcript_of m) <? MIN_TRANSCRIPT)%N).
    + apply (asks_more 0); [lia |]. apply asks_silent.
      frame silent_refl silent_trans.
    + apply (asks_bind 0 1);
        [apply asks_silent; frame silent_refl silent_trans |].
      intros _. apply (asks_bind 1 0); [apply extractSalesCall_asks |].
      intro extraction. apply asks_silent.
      split_binds silent_trans.
      all: try (apply keeps_lift, silent_refl).
      all: try (apply keeps_ret, silent_refl).
      all: try (destruct (rm_rawJson m);
                [apply storeExtraction_silent
                | apply keeps_throw, silent_refl]).
      all: frame silent_refl silent_trans.
  - intro e. apply asks_silent. frame silent_refl silent_trans.
Qed.

Lemma process_meeting_asks i total m stats :
  asks 2 (process_meeting i total m stats).
Proof.
  unfold process_meeting.
  apply (asks_bind 1 1); [apply classify_step_asks |].
  intro cs. apply (asks_bind 1 0); [apply extract_step_asks |].
  intro s. apply asks_silent. frame silent_refl silent_trans.
Qed.

Lemma process_from_asks unprocessed :
  forall i total stats,
    asks (2 * length unprocessed) (process_from i total unprocessed stats).
Proof.
  induction unprocessed as [| m rest IH]; intros i total stats;
    cbn [process_from].
  - apply asks_silent, keeps_ret, silent_refl.
  - apply (asks_more (2 + 2 * length rest)); [simpl; lia |].
    apply asks_bind; [apply process_meeting_asks |].
    intro s. apply IH.
Qed.

(** X20.  A run of [main] sends two requests per record of the backlog
    at most, one to classify and one to extract, whatever the answers
    are and whether the run ends normally or not. *)
Theorem main_requests_bounded (w : World) :
  (length (llm_log (snd (main w)))
   <= length (llm_log w)
      + 2 * length (filter is_unprocessed (t_rawMeetings (db w))))%nat.
Proof.
  change (post main w
            (fun _ w' =>
               (length (llm_log w')
                <= length (llm_log w)
                   + 2 * length (filter is_unprocessed
                                   (t_rawMeetings (db w))))%nat)).
  unfold main, select_unprocessed.
  apply post_bind, post_console_log. cbv beta match.
  apply post_bind, post_bind, post_stmt; intros _; cbv beta match;
    [| simpl; lia].
  apply post_bind, post_read_db. cbv beta match.
  apply post_ret. cbv beta match.
  change (db (sent (SqlSelect T_rawMeetings)
                (set_console (console w ++ [LogBanner]) w)))
    with (db w).
  apply post_bind, post_console_log. cbv beta match.
  destruct (filter is_unprocessed (t_rawMeetings (db w))) as [| m rest].
  - wp. simpl. lia.
  - apply post_bind.
    eapply post_weaken;
      [apply (keeps_post
                (fun w0 w' =>
                   (length (llm_log w')
                    <= length (llm_log w0) + 2 * length (m :: rest))%nat)),
         process_from_asks |].
    intros [s1 | e] w1 H1; cbv beta match; simpl in H1.
    + wp. simpl. lia.
    + simpl. lia.
Qed.

(** ** What the driver does to the raw meetings *)

Lemma same_ingestion_refl (rows : list RawMeeting) :
  Forall2 same_ingestion rows rows.
Proof.
  induction rows as [| r rows IH]; constructor; [| exact IH].
  repeat split.
Qed.

Lemma same_ingestion_trans (x y z : list RawMeeting) :
  Forall2 same_ingestion x y -> Forall2 same_ingestion y z ->
  Forall2 same_ingestion x z.
Proof.
  intro Hxy. revert z.
  induction Hxy as [| r r' x y (H1 & H2 & H3 & H4 & H5 & H6) Hxy IH];
    intros z Hyz;
    inversion Hyz as [| r0 r'' y0 z0 (I1 & I2 & I3 & I4 & I5 & I6) Hyz'];
    subst; constructor.
  - repeat split; congruence.
  - now apply IH.
Qed.

Lemma same_meetings_refl w : same_meetings w w.
Proof. apply same_ingestion_refl. Qed.

Lemma same_meetings_trans a b c :
  same_meetings a b -> same_meetings b c -> same_meetings a c.
Proof. apply same_ingestion_trans. Qed.

Lemma update_where_id_same_ingestion (id : N) (f : RawMeeting -> RawMeeting)
  (rows : list RawMeeting) :
  (forall r, same_ingestion r (f r)) ->
  Forall2 same_ingestion rows (update_where_id id f rows).
Proof.
  intro Hf. induction rows as [| r rows IH]; simpl; constructor;
    [| exact IH].
  destruct (rm_id r =? id)%N; [apply Hf | repeat split].
Qed.

Lemma process_meeting_same_meetings i total m stats :
  keeps same_meetings (process_meeting i total m stats).
Proof.
  unfold process_meeting.
  frame same_meetings_refl same_meetings_trans.
  all: unfold same_meetings; simpl; try apply same_ingestion_refl.
  all: apply update_where_id_same_ingestion; intro r; repeat split.
Qed.

Lemma process_from_same_meetings unprocessed :
  forall i total stats,
    keeps same_meetings (process_from i total unprocessed stats).
Proof.
  induction unprocessed as [| m rest IH]; intros i total stats;
    cbn [process_from].
  - apply keeps_ret, same_meetings_refl.
  - apply (keeps_bind _ same_meetings_trans).
    + apply process_meeting_same_meetings.
    + intro s. apply IH.
Qed.

(** X21.  The driver never adds or removes a raw meeting, and never
    changes what the ingestion stored in one (identifier, transcript
    identifier, title, date, duration, JSON): it only writes the
    classification and the processed timestamp.  This holds for every
    run, also for one that ends with an exception. *)
Theorem main_keeps_ingestion (w : World) :
  same_meetings w (snd (main w))
  /\ map rm_rawJson (t_rawMeetings (db (snd (main w))))
     = map rm_rawJson (t_rawMeetings (db w)).
Proof.
  assert (H : keeps same_meetings main).
  { unfold main, select_unprocessed.
    apply (keeps_bind _ same_meetings_trans);
      [frame same_meetings_refl same_meetings_trans;
       apply same_ingestion_refl |].
    intros _. apply (keeps_bind _ same_meetings_trans);
      [frame same_meetings_refl same_meetings_trans;
       apply same_ingestion_refl |].
    intro unprocessed. apply (keeps_bind _ same_meetings_trans);
      [frame same_meetings_refl same_meetings_trans;
       apply same_ingestion_refl |].
    intros _. destruct unprocessed as [| m rest].
    - frame same_meetings_refl same_meetings_trans.
      apply same_ingestion_refl.
    - apply (keeps_bind _ same_meetings_trans);
        [apply process_from_same_meetings |].
      intro s. frame same_meetings_refl same_meetings_trans.
      apply same_ingestion_refl. }
  split; [apply H |].
  specialize (H w). unfold same_meetings in H.
  induction H as [| r r' x y (H1 & H2 & H3 & H4 & H5 & H6) _ IH];
    [reflexivity |].
  simpl. now rewrite H6, IH.
Qed.

(** ** A classifier that cannot be reached *)

(** X22.  When the rules do not settle a record and the request of the
    LLM tier is rejected, the driver does not stop and does not leave the
    record for a later run: it logs the failure, classifies the record as
    [other], counts it there, sends no extraction request, and marks the
    record as processed. *)
Theorem classification_failure_becomes_other i total m stats w :
  raw_meetings_reachable ->
  classifyByRules SHERLOCK_DOMAIN (data_of m) = None ->
  llm_reply env (N.of_nat (length (llm_log w)))
    (classification_request (data_of m)) = None ->
  exists w',
    process_meeting i total m stats w
    = (Ok (count_classification other stats), w')
    /\ llm_log w' = (llm_log w ++ [classification_request (data_of m)])%list
    /\ In LogClassificationFailed (console w')
    /\ Forall (fun r => rm_id r = rm_id m ->
                        rm_classification r = Some "other"
                        /\ is_processed r)
         (t_rawMeetings (db w')).
Proof.
  intros Hraw Hrules Hllm.
  set (w0 := set_console
               (console w ++ [LogMeeting (i + 1) total (title_of m)])%list w).
  set (w1 := set_console
               (console (asked (classification_request (data_of m)) w0)
                  ++ [LogClassificationFailed])%list
               (asked (classification_request (data_of m)) w0)).
  set (w2 := set_db
               (upd_rawMeetings
                  (update_where_id (rm_id m)
                     (with_classification (Classification_name other))))
               (sent (SqlSetClassification (rm_id m)
                        (Classification_name other)) w1)).
  assert (Hstep : classify_step i total m stats w
                  = (Ok (other, count_classification other stats), w2)).
  { apply post_eq. unfold classify_step, set_classification.
    apply post_bind, post_console_log. cbv beta match. fold w0.
    apply post_bind, post_try_catch, post_bind.
    fold (data_of m). unfold classifyMeeting. rewrite Hrules.
    unfold classifyByLLM.
    apply post_bind, post_messages_create;
      [intros text Htext; change (llm_log w0) with (llm_log w) in Htext;
       congruence |].
    intros _. cbv beta match.
    apply post_bind, post_console_log. cbv beta match. fold w1.
    apply post_ret. cbv beta match.
    apply post_bind, post_bind, post_stmt; intro Hf;
      [| rewrite Hraw in Hf by reflexivity; discriminate].
    cbv beta match. apply post_write_db. cbv beta match.
    apply post_ret. split; reflexivity. }
  destruct (process_meeting_after_classification i total m stats w other
              _ w2 Hraw Hstep)
    as (stats2 & w3 & w' & Hex & Hrun & Hdb & Hl & Hc).
  simpl in Hex. injection Hex as <- <-.
  exists w'. split; [exact Hrun |].
  split; [rewrite Hl; reflexivity |].
  split.
  - rewrite Hc. simpl. apply in_or_app. right. now left.
  - rewrite Hdb. simpl.
    induction (t_rawMeetings (db w)) as [| r rows IH]; simpl; constructor;
      [| exact IH].
    intro Hid. simpl in Hid.
    destruct (rm_id r =? rm_id m)%N eqn:E; simpl.
    + rewrite E. simpl. split; [reflexivity | discriminate].
    + simpl in Hid. rewrite E in Hid. simpl in Hid.
      apply N.eqb_neq in E. destruct (rm_id r =? rm_id m)%N eqn:E2;
        simpl in *; contradiction.
Qed.

(** ** From the ingestion to the extractor *)

(** X23.  The transcript the driver reads from a stored meeting is the
    text the ingestion joined from the sentences; when that text is
    shorter than 50 characters, as it is for a transcript pulled without
    sentences, a sales call is skipped: no request is sent and nothing is
    stored. *)
Theorem short_ingested_transcript_is_skipped (id : N)
  (t : FirefliesTranscript) (c : option string) (p : option Z)
  (stats : Stats) (w : World) :
  (Str.len (Ingest.transcriptText t) < MIN_TRANSCRIPT)%N ->
  transcript_of (raw_meeting_of id t c p) = Ingest.transcriptText t
  /\ extract_step (raw_meeting_of id t c p) sales_call stats w
     = (Ok stats, set_console (console w ++ [LogSkipTooShort])%list w).
Proof.
  intro Hshort. split; [reflexivity |].
  unfold extract_step, extract_and_store.
  change (transcript_of (raw_meeting_of id t c p))
    with (Ingest.transcriptText t).
  rewrite too_short_test.
  apply N.ltb_lt in Hshort. rewrite Hshort.
  reflexivity.
Qed.

(** ** The questions of the prospect *)

(** X24.  Only a string that is not blank is stored as a question of the
    prospect, and it is stored trimmed; on any other entry, [null] and a
    number included, the step returns normally and writes nothing. *)
Theorem add_question_stores_trimmed_text (callId : N) (q : value)
  (w : World) :
  fst (add_question callId q w) = Ok tt
  /\ (db (snd (add_question callId q w)) = db w
      \/ exists s,
          q = VStr s
          /\ Str.trim s <> ""
          /\ db (snd (add_question callId q w))
             = upd_prospectQuestions
                 (fun rows =>
                    rows ++ [mkProspectQuestion (next_id w) callId
                               (Str.trim s)])%list
                 (db w)).
Proof.
  change (post (add_question callId q) w
            (fun r w' =>
               r = Ok tt
               /\ (db w' = db w
                   \/ exists s,
                       q = VStr s
                       /\ Str.trim s <> ""
                       /\ db w'
                          = upd_prospectQuestions
                              (fun rows =>
                                 rows ++ [mkProspectQuestion (next_id w)
                                            callId (Str.trim s)])%list
                              (db w)))).
  unfold add_question. apply post_try_catch.
  destruct (truthy q) eqn:Hq; [| apply post_ret; auto].
  destruct q as [| | b | n | s | items | fields];
    try (apply post_bind, post_lift; simpl js_trim; cbv beta match;
         apply post_ret; auto).
  apply post_bind, post_lift. simpl js_trim. cbv beta match.
  destruct (Str.truthy (Str.trim s)) eqn:Hs; [| apply post_ret; auto].
  apply post_bind, post_lift. cbv beta match.
  apply post_bind, post_stmt; intros _; cbv beta match;
    [| apply post_ret; auto].
  apply post_bind, post_gen_random_uuid. cbv beta match.
  apply post_write_db. split; [reflexivity |].
  right. exists s. split; [reflexivity |].
  split; [| reflexivity].
  intro E. rewrite E in Hs. discriminate.
Qed.

(** ** The classification column *)

Lemma classified_or_same_refl (rows : list RawMeeting) :
  Forall2 classified_or_same rows rows.
Proof.
  induction rows as [| r rows IH]; constructor; [now left | exact IH].
Qed.

Lemma classified_or_same_trans (x y z : list RawMeeting) :
  Forall2 classified_or_same x y -> Forall2 classified_or_same y z ->
  Forall2 classified_or_same x z.
Proof.
  intro Hxy. revert z.
  induction Hxy as [| r r' x y H Hxy IH]; intros z Hyz;
    inversion Hyz as [| r0 r'' y0 z0 H' Hyz']; subst; constructor.
  - destruct H' as [H' | H']; [| now right].
    destruct H as [H | [c H]]; [left; congruence |].
    right. exists c. congruence.
  - now apply IH.
Qed.

Lemma category_names_only_refl w : category_names_only w w.
Proof. apply classified_or_same_refl. Qed.

Lemma category_names_only_trans a b c :
  category_names_only a b -> category_names_only b c ->
  category_names_only a c.
Proof. apply classified_or_same_trans. Qed.

Lemma update_where_id_classified (id : N) (f : RawMeeting -> RawMeeting)
  (rows : list RawMeeting) :
  (forall r, classified_or_same r (f r)) ->
  Forall2 classified_or_same rows (update_where_id id f rows).
Proof.
  intro Hf. induction rows as [| r rows IH]; simpl; constructor;
    [| exact IH].
  destruct (rm_id r =? id)%N; [apply Hf | now left].
Qed.

Lemma process_meeting_category_names i total m stats :
  keeps category_names_only (process_meeting i total m stats).
Proof.
  unfold process_meeting.
  frame category_names_only_refl category_names_only_trans.
  all: unfold category_names_only; simpl;
    try apply classified_or_same_refl.
  all: apply update_where_id_classified; intro r;
    first [now left | right; eexists; reflexivity].
Qed.

Lemma process_from_category_names unprocessed :
  forall i total stats,
    keeps category_names_only (process_from i total unprocessed stats).
Proof.
  induction unprocessed as [| m rest IH]; intros i total stats;
    cbn [process_from].
  - apply keeps_ret, category_names_only_refl.
  - apply (keeps_bind _ category_names_only_trans).
    + apply process_meeting_category_names.
    + intro s. apply IH.
Qed.

(** X28.  The driver writes nothing but the four category names to the
    classification column: after any run, the classification of a raw
    meeting is what it was before, or [sales_call], [partner_call],
    [internal] or [other]. *)
Theorem main_writes_category_names (w : World) :
  Forall2
    (fun r r' =>
       rm_classification r' = rm_classification r
       \/ In (rm_classification r')
            [Some "sales_call"; Some "partner_call"; Some "internal";
             Some "other"])
    (t_rawMeetings (db w)) (t_rawMeetings (db (snd (main w)))).
Proof.
  assert (H : keeps category_names_only main).
  { unfold main, select_unprocessed.
    apply (keeps_bind _ category_names_only_trans);
      [frame category_names_only_refl category_names_only_trans;
       apply classified_or_same_refl |].
    intros _. apply (keeps_bind _ category_names_only_trans);
      [frame category_names_only_refl category_names_only_trans;
       apply classified_or_same_refl |].
    intro unprocessed. apply (keeps_bind _ category_names_only_trans);
      [frame category_names_only_refl category_names_only_trans;
       apply classified_or_same_refl |].
    intros _. destruct unprocessed as [| m rest].
    - frame category_names_only_refl category_names_only_trans.
      apply classified_or_same_refl.
    - apply (keeps_bind _ category_names_only_trans);
        [apply process_from_category_names |].
      intro s. frame category_names_only_refl category_names_only_trans.
      apply classified_or_same_refl. }
  specialize (H w). unfold category_names_only in H.
  induction H as [| r r' x y [Hsame | [c Hc]] _ IH]; constructor;
    try exact IH.
  - now left.
  - right. rewrite Hc. destruct c; simpl; auto.
Qed.
End Pipeline.

(** * The properties on concrete inputs *)

Import Sample.

Example fifty_has_50 : Str.len fifty = 50%N.
Proof. reflexivity. Qed.

(** ** C7 *)

Lemma classifyByRules_all_internal_witness :
  classifyByRules "sherlock.xyz" internal_data = Some internal.
Proof.
  apply (classifyByRules_all_internal "sherlock.xyz" internal_data).
  - vm_compute. discriminate.
  - vm_compute. intros e [<- | [<- | []]]; reflexivity.
Defined.

(** C7 as first stated, on the empty meeting.  With no address collected,
    every collected address is internal, and yet the rule tier does not
    answer [internal]: the guard
    [sherlockEmails.length > 0] sends it on to the text, which is empty
    here. *)
Lemma classifyByRules_no_emails_not_internal :
  getAllEmails empty_data = []
  /\ (forall e, In e (getAllEmails empty_data) ->
                Str.endsWith e "@sherlock.xyz" = true)
  /\ classifyByRules "sherlock.xyz" empty_data = None
  /\ classifyByRules "sherlock.xyz" empty_data <> Some internal.
Proof.
  split; [reflexivity |].
  split; [intros e [] |].
  split; [reflexivity | discriminate].
Qed.

(** ** C3 *)

(** the rules answer for the sales meeting: no request; they do not
    answer for the vague meeting: one request, and the answer
    [" Sales_Call."] with a line break, cleaned to [sales_call], gives the
    category *)
Lemma classifyMeeting_llm_tier_witness :
  classifyMeeting env_says_sales sales_data (world [sales_meeting])
  = (Ok sales_call, world [sales_meeting])
  /\ llm_log (snd (classifyMeeting env_says_sales vague_data
                     (world [vague_meeting])))
     = [classification_request vague_data]
  /\ clean_token (" Sales_Call." ++ Str.nl) = "sales_call"
  /\ fst (classifyMeeting env_says_sales vague_data (world [vague_meeting]))
     = Ok sales_call.
Proof.
  destruct (classifyMeeting_llm_tier env_says_sales sales_data
              (world [sales_meeting])) as [Hrules _].
  destruct (classifyMeeting_llm_tier env_says_sales vague_data
              (world [vague_meeting])) as [_ [Hlog [_ [_ Hllm]]]].
  destruct (Hllm (" Sales_Call." ++ Str.nl) eq_refl eq_refl)
    as (Hres & _ & _ & _ & _ & Hname).
  destruct (Hname " " "Sales_Call" ("." ++ Str.nl) sales_call
              eq_refl eq_refl eq_refl eq_refl) as [Hclean Hcat].
  split; [exact (Hrules sales_call eq_refl) |].
  split; [exact (Hlog eq_refl) |].
  split; [exact Hclean |].
  rewrite Hres, Hcat. reflexivity.
Defined.

(** a sentence that holds a category name is not a category *)
Example sentence_is_other :
  fst (classifyMeeting env_says_sentence vague_data (world [vague_meeting]))
  = Ok other
  /\ clean_token "This looks like a sales_call."
     = "thislookslikeasales_call".
Proof. split; reflexivity. Qed.

Example category_of_answer_examples :
  category_of_answer " Sales_Call." = sales_call
  /\ category_of_answer "partner_call" = partner_call
  /\ category_of_answer "The category is: internal" = other
  /\ category_of_answer "sales call" = other.
Proof. repeat split. Qed.

(** ** C4 *)

Lemma normalizeResult_score_clamped_witness :
  exists r,
    normalizeResult odd_answer = Ok r
    /\ call_quality_score r = num 10.
Proof.
  destruct (normalizeResult odd_answer) as [r |] eqn:E; [| discriminate].
  exists r. split; [reflexivity |].
  destruct (normalizeResult_score_clamped odd_answer r eq_refl E)
    as [_ [Hnum _]].
  destruct (Hnum (inject_Z 12) eq_refl) as [_ [Hhigh _]].
  apply Hhigh. reflexivity.
Defined.

(** ** C8 *)

Lemma extractSalesCall_truncation_witness :
  truncate (userContent long_transcript "" "")
  = Str.take 100000 (userContent long_transcript "" "") ++ TRUNCATION_MARKER
  /\ Str.len (Str.take 100000 (userContent long_transcript "" ""))
     = 100000%N.
Proof.
  destruct (extractSalesCall_truncation env_ok long_transcript "" ""
              (world [])) as [_ [_ [_ [Hlong _]]]].
  assert (H : (100000 < Str.len (userContent long_transcript "" ""))%N)
    by (vm_compute; reflexivity).
  destruct (Hlong H) as [H1 [H2 _]]. split; assumption.
Defined.

(** ** C10 *)

(** three strings outside the documented values, from the parsed object
    to the one Call row of a run that returns normally *)
Lemma normalizeResult_enums_pass_through_witness :
  exists r c,
    normalizeResult odd_answer = Ok r
    /\ call_type r = VStr "demo"
    /\ offering_pitched r = VStr "bug bounty"
    /\ call_outcome r = VStr "ghosted"
    /\ t_calls (db (snd (storeExtraction env_ok 1 sales_data r
                           (world [sales_meeting]))))
       = [c]
    /\ ca_callType c = Some "demo"
    /\ ca_offeringPitched c = Some "bug bounty"
    /\ ca_callOutcome c = Some "ghosted".
Proof.
  destruct (normalizeResult odd_answer) as [r |] eqn:E; [| discriminate].
  destruct (normalizeResult_enums_pass_through env_ok odd_answer r E)
    as [[H1 _] [[H2 _] [[H3 _] [H4 _]]]].
  destruct (H4 1%N sales_data (world [sales_meeting]))
    as [c (Hcalls & _ & C1 & C2 & C3)].
  { injection E as <-. vm_compute. reflexivity. }
  exists r, c.
  split; [reflexivity |].
  split; [apply H1; [reflexivity | discriminate] |].
  split; [apply H2; [reflexivity | discriminate] |].
  split; [apply H3; [reflexivity | discriminate] |].
  split; [exact Hcalls |].
  split; [apply C1; [reflexivity | discriminate] |].
  split; [apply C2; [reflexivity | discriminate] |].
  apply C3; [reflexivity | discriminate].
Defined.

(** the three strings in the Call row *)
Example odd_strings_reach_the_call_row :
  exists r,
    normalizeResult odd_answer = Ok r
    /\ map (fun c => (ca_callType c, ca_offeringPitched c, ca_callOutcome c,
                      ca_callQualityScore c))
         (t_calls (db (snd (storeExtraction env_ok 1 sales_data r
                              (world [sales_meeting])))))
       = [(Some "demo", Some "bug bounty", Some "ghosted", Some 10%Z)].
Proof. eexists. split; reflexivity. Qed.

(** ** C5 *)

Lemma storeExtraction_closed_vocabulary_witness :
  fst (link_technology env_ok 7 (VStr "Haskell") (world [])) = Ok tt
  /\ db (snd (link_technology env_ok 7 (VStr "Haskell") (world [])))
     = db (world []).
Proof.
  apply (proj1 (storeExtraction_closed_vocabulary env_ok)).
  intros k H. injection H as <-. reflexivity.
Defined.

(** of two technologies and no objection, only the seeded technology is
    linked *)
Example only_solidity_is_linked :
  exists r,
    normalizeResult odd_answer = Ok r
    /\ map cte_technologyId
         (t_callTechnologies
            (db (snd (storeExtraction env_ok 1 sales_data r
                        (world [sales_meeting])))))
       = [200%N].
Proof. eexists. split; reflexivity. Qed.

(** ** C6 *)


(** ** C1 *)

Lemma reachable_no_fault (e : Env) :
  db_fault e = no_fault -> raw_meetings_reachable e.
Proof. intros H n st _. now rewrite H. Qed.

Lemma reachable_calls_fault : raw_meetings_reachable env_calls_fault.
Proof. intros n st H. destruct st as [[] | [] | |]; try reflexivity; discriminate. Qed.

(** a backlog of two records, one that the classifier cannot classify
    (its request rejects) and one sales call whose Call row the store
    rejects, next to a record processed before *)
Lemma main_marks_backlog_once_witness :
  exists r w1,
    main env_calls_fault (world [sales_meeting; vague_meeting; old_meeting])
    = (Ok r, w1)
    /\ marks 1 (db_log w1) = 1%nat
    /\ marks 2 (db_log w1) = 1%nat
    /\ marks 3 (db_log w1) = 0%nat
    /\ Forall (is_processed) (t_rawMeetings (db w1))
    /\ exists w2, main env_calls_fault w1 = (Ok None, w2) /\ db w2 = db w1.
Proof.
  assert (Hnodup : NoDup (map rm_id
                            (t_rawMeetings
                               (db (world [sales_meeting; vague_meeting;
                                           old_meeting]))))).
  { simpl. repeat constructor; simpl; intuition discriminate. }
  destruct (main_marks_backlog_once env_calls_fault _ Hnodup
              reachable_calls_fault)
    as [r [w1 [Hrun [Hnew [Hold [_ [Hall [w2 [Hrun2 [Hdb2 _]]]]]]]]]].
  exists r, w1. split; [exact Hrun |].
  split; [apply (Hnew sales_meeting); [now left | reflexivity] |].
  split; [apply (Hnew vague_meeting); [right; now left | reflexivity] |].
  split; [apply (Hold old_meeting); [right; right; now left | discriminate] |].
  split; [exact Hall |].
  exists w2. now split.
Defined.

(** ** C2 *)

(** the model answers in prose: the answer does not parse, and no Call
    row is written *)
Lemma extraction_failure_is_caught_witness :
  exists stats' w',
    process_meeting env_prose 0 1 sales_meeting no_stats
      (world [sales_meeting]) = (Ok stats', w')
    /\ st_extractionErrors stats' = 1%nat
    /\ st_extracted stats' = 0%nat
    /\ t_calls (db w') = []
    /\ Forall (fun r => rm_id r = 1%N -> is_processed r)
         (t_rawMeetings (db w')).
Proof.
  pose (stats1 := count_classification sales_call no_stats).
  pose (w1 := snd (classify_step env_prose 0 1 sales_meeting no_stats
                     (world [sales_meeting]))).
  pose (w2 := snd (extract_and_store env_prose sales_meeting stats1 w1)).
  destruct (extraction_failure_is_caught env_prose 0 1 sales_meeting
              no_stats (world [sales_meeting]) stats1 w1 ParseError w2
              (reachable_no_fault env_prose eq_refl))
    as [stats' [w' [Hrun [Herr [Hext [_ [Hdone [_ Hcalls]]]]]]]].
  - vm_compute. reflexivity.
  - vm_compute. reflexivity.
  - exists stats', w'.
    split; [exact Hrun |]. split; [exact Herr |]. split; [exact Hext |].
    split; [| exact Hdone].
    apply Hcalls.
    exists ParseError,
      (snd (extractSalesCall env_prose (transcript_of sales_meeting)
              (title_of sales_meeting) (overview_of sales_meeting)
              (set_now (now w1 + API_DELAY)%N w1))).
    vm_compute. reflexivity.
Defined.

(** the model lists a team member that is [null]: the store writer fails
    after the Call row, the driver counts an extraction error and no
    extraction, marks the record, and the Call row of the record stays *)
Lemma extraction_error_with_call_row :
  exists stats' w' c,
    process_meeting env_null_member 0 1 sales_meeting no_stats
      (world [sales_meeting]) = (Ok stats', w')
    /\ st_extractionErrors stats' = 1%nat
    /\ st_extracted stats' = 0%nat
    /\ In LogExtractionError (console w')
    /\ Forall (fun r => rm_id r = 1%N -> is_processed r)
         (t_rawMeetings (db w'))
    /\ t_calls (db w') = [c]
    /\ ca_rawMeetingId c = Some 1%N.
Proof.
  eexists. eexists. eexists.
  split; [vm_compute; reflexivity |].
  split; [reflexivity |]. split; [reflexivity |].
  split; [simpl; tauto |].
  split; [repeat constructor; intros _; discriminate |].
  split; reflexivity.
Qed.

(** ** C9 *)

Lemma short_transcript_is_skipped_witness :
  exists stats' w',
    process_meeting env_ok 0 1 short_meeting no_stats
      (world [short_meeting]) = (Ok stats', w')
    /\ llm_log w' = []
    /\ In LogSkipTooShort (console w')
    /\ st_extractionErrors stats' = 0%nat
    /\ st_extracted stats' = 0%nat.
Proof.
  destruct (classify_step env_ok 0 1 short_meeting no_stats
              (world [short_meeting])) as [[[c stats1] | e1] w1] eqn:Hclass;
    [| discriminate].
  assert (Hc : c = sales_call /\ llm_log w1 = [])
    by (vm_compute in Hclass; injection Hclass as <- _ <-; now split).
  destruct Hc as [-> Hllm1].
  destruct (short_transcript_is_skipped env_ok 0 1 short_meeting no_stats
              (world [short_meeting]) stats1 w1
              (reachable_no_fault env_ok eq_refl) Hclass) as [Hshort _].
  destruct (Hshort ltac:(vm_compute; reflexivity))
    as [w' [Hrun [Hllm [Hlog [Herr [Hext _]]]]]].
  exists stats1, w'. rewrite Hllm1 in Hllm. repeat split; assumption.
Defined.

(** C9 as first stated, on a transcript of exactly 50 characters: it does
    not exceed 50 characters, and it is extracted, since the test is
    [transcript.length < 50]. *)
Lemma fifty_characters_are_extracted :
  fst (classify_step env_ok 0 1 fifty_meeting no_stats
         (world [fifty_meeting]))
  = Ok (sales_call, mkStats 1 1 0 0 0 0 0 0)
  /\ Str.len (transcript_of fifty_meeting) = 50%N
  /\ ~ (MIN_TRANSCRIPT < Str.len (transcript_of fifty_meeting))%N
  /\ llm_log (snd (process_meeting env_ok 0 1 fifty_meeting no_stats
                     (world [fifty_meeting])))
     = [extraction_request env_ok (transcript_of fifty_meeting)
          (title_of fifty_meeting) (overview_of fifty_meeting)]
  /\ fst (process_meeting env_ok 0 1 fifty_meeting no_stats
            (world [fifty_meeting]))
     = Ok (mkStats 1 1 0 0 0 1 0 0).
Proof.
  split; [reflexivity |].
  split; [reflexivity |].
  split; [vm_compute; discriminate |].
  split; reflexivity.
Qed.

(** ** A failure of the store writer after the Call row

    The warnings of loops 3 and 4 read [tm.name] and [pc.name] again, so a
    [null] entry throws out of the handler and out of [storeExtraction]:
    the driver counts an extraction error although the Call row is
    there.  This is a failure of the store writer, not of the extractor. *)
Example null_entry_fails_after_call_insert :
  fst (process_meeting env_null_member 0 1 sales_meeting no_stats
         (world [sales_meeting]))
  = Ok (mkStats 1 1 0 0 0 0 1 0)
  /\ length (t_calls (db (snd (process_meeting env_null_member 0 1
                                 sales_meeting no_stats
                                 (world [sales_meeting])))))
     = 1%nat.
Proof. split; reflexivity. Qed.

(** * The further properties on concrete inputs *)

(** ** The rule tier *)

Lemma classifyByRules_without_text_witness :
  classifyByRules "sherlock.xyz" vague_data = Some internal
  \/ classifyByRules "sherlock.xyz" vague_data = None.
Proof.
  apply (classifyByRules_without_text "sherlock.xyz" vague_data).
  repeat split.
Defined.

(** ** The extractor *)

Lemma normalizeResult_not_an_object_witness :
  normalizeResult (VArr [VStr "discovery"]) = Ok all_defaults.
Proof.
  apply (proj2 (normalizeResult_not_an_object (VArr [VStr "discovery"])));
    intros; discriminate.
Defined.

(** ** The ingestion *)

Example filter_keeps_sales_and_bare :
  Ingest.filter_transcripts "sherlock.xyz" []
    [Pulled.sales; Pulled.standup; Pulled.bare]
  = (Ingest.mkFilterStats 3 0 1 0 2, [Pulled.sales; Pulled.bare]).
Proof. vm_compute. reflexivity. Qed.

Lemma passed_transcript_is_not_all_internal_witness :
  classifyByRules "sherlock.xyz" (Ingest.storedJson Pulled.bare) = None.
Proof.
  apply (passed_transcript_is_not_all_internal "sherlock.xyz" []
           [Pulled.sales; Pulled.standup; Pulled.bare] Pulled.bare).
  - vm_compute. right. left. reflexivity.
  - repeat split.
Defined.

Lemma pull_terminates_witness :
  Ingest.pull Pulled.api 250 = Ingest.pull Pulled.api 200.
Proof.
  apply (pull_terminates Pulled.api 250). lia.
Defined.

Example pull_ends_on_empty_batch :
  Ingest.pull Pulled.api 200
  = Ingest.Pulled [Pulled.sales; Pulled.standup; Pulled.bare] 2 1000.
Proof. vm_compute. reflexivity. Qed.

Lemma upsert_raw_meeting_idempotent_witness :
  db (snd (upsert_raw_meeting env_ok Pulled.sales
             (snd (upsert_raw_meeting env_ok Pulled.sales (world [])))))
  = db (snd (upsert_raw_meeting env_ok Pulled.sales (world []))).
Proof.
  apply (upsert_raw_meeting_idempotent env_ok Pulled.sales (world [])
           (snd (upsert_raw_meeting env_ok Pulled.sales (world [])))).
  - vm_compute. reflexivity.
  - reflexivity.
Defined.


(** ** The seed script *)

Lemma seed_installs_vocabulary_witness :
  fst (seed env_ok (world [])) = Ok tt.
Proof.
  apply (seed_installs_vocabulary env_ok (world [])).
  intro n. split; reflexivity.
Defined.

Lemma seed_twice_is_seed_once_witness :
  db (snd (seed env_ok (snd (seed env_ok (world [])))))
  = db (snd (seed env_ok (world []))).
Proof.
  apply (proj2 (seed_twice_is_seed_once env_ok (world []))).
  - intro n. split; reflexivity.
  - reflexivity.
Defined.

(** the two rows of the sample store keep their identifiers, and the
    fourteen other technologies and six other objections are added *)
Example seed_on_sample_store :
  map ob_id (t_objections (db (snd (seed env_ok (world [])))))
  = [100; 101; 1; 2; 3; 4; 5; 6]%N
  /\ length (t_technologies (db (snd (seed env_ok (world []))))) = 16%nat.
Proof. vm_compute. split; reflexivity. Qed.

(** ** Resolving companies, team members and contacts *)

Lemma getOrCreateProspectContact_by_name_only_witness :
  getOrCreateProspectContact env_ok (VStr " Bob ") (VStr "CTO") 11
    Pulled.crm_world
  = (Ok 30%N, sent env_ok (SqlSelect T_prospectContacts) Pulled.crm_world).
Proof.
  apply (getOrCreateProspectContact_by_name_only env_ok " Bob " (VStr "CTO")
           11 Pulled.crm_world (mkProspectContact 30 "Bob" None (Some 10%N))).
  - reflexivity.
  - reflexivity.
Defined.

Lemma getOrCreateTeamMember_by_address_only_witness :
  getOrCreateTeamMember env_ok VNull (VStr " Jane@Sherlock.XYZ ")
    Pulled.crm_world
  = (Ok 20%N, sent env_ok (SqlSelect T_teamMembers) Pulled.crm_world).
Proof.
  apply (getOrCreateTeamMember_by_address_only env_ok VNull
           " Jane@Sherlock.XYZ " Pulled.crm_world
           (mkTeamMember 20 "Jane" "jane@sherlock.xyz")).
  - reflexivity.
  - reflexivity.
  - reflexivity.
Defined.

Lemma getOrCreateCompany_unknown_is_new_witness :
  post (getOrCreateCompany env_ok (VStr " Unknown ") None) Pulled.crm_world
    (fun r w' =>
       ~ In (SqlSelect T_companies)
           (skipn (length (db_log Pulled.crm_world)) (db_log w'))
       /\ forall id, r = Ok id ->
            id = 40%N
            /\ find_company Pulled.crm "Unknown-1000" = None
            /\ exists ts,
                t_companies (db w')
                = (t_companies Pulled.crm
                     ++ [mkCompany id "Unknown-1000" None (Some ts)])%list).
Proof.
  apply (getOrCreateCompany_unknown_is_new env_ok " Unknown " None
           Pulled.crm_world).
  right. reflexivity.
Defined.

(** a first call for Nova Labs, a call for another company, and a
    second call for Nova Labs *)
Lemma getOrCreateCompany_round_trip_witness :
  let with_nova :=
    snd (getOrCreateCompany env_ok (VStr "Nova Labs ") None
           Pulled.crm_world) in
  let with_zeta :=
    snd (getOrCreateCompany env_ok (VStr "Zeta") None with_nova) in
  map co_name (t_companies (db with_zeta))
  = ["Acme"; "Other"; "Nova Labs"; "Zeta"]
  /\ getOrCreateCompany env_ok (VStr "  Nova Labs") (Some (num 5))
       with_zeta
     = (Ok 40%N, sent env_ok (SqlSelect T_companies) with_zeta).
Proof.
  intros with_nova with_zeta.
  split; [reflexivity |].
  apply (getOrCreateCompany_round_trip env_ok "Nova Labs " "  Nova Labs"
           None (Some (num 5)) Pulled.crm_world with_nova with_zeta).
  - vm_compute. discriminate.
  - vm_compute. discriminate.
  - vm_compute. reflexivity.
  - reflexivity.
  - intros c H. vm_compute in H. vm_compute. exact H.
  - reflexivity.
Defined.

(** ** Where the store writer can fail *)

(** a team member with a name and a prospect without one, in a store
    that rejects the calls *)
Lemma storeExtraction_fails_before_call_witness :
  companies_only (world [sales_meeting])
    (snd (storeExtraction env_calls_fault 1 sales_data
            (mkExtractionResult (VStr "discovery") (VStr "none")
               (VStr "Acme") [VObj [("role", VStr "CTO")]]
               [VObj [("name", VStr "Jane")]] [] (VStr "neutral") VNull
               (num 5) (VStr "") [] [] [] [] [])
            (world [sales_meeting]))).
Proof.
  apply (storeExtraction_fails_before_call env_calls_fault 1 sales_data
           (mkExtractionResult (VStr "discovery") (VStr "none")
              (VStr "Acme") [VObj [("role", VStr "CTO")]]
              [VObj [("name", VStr "Jane")]] [] (VStr "neutral") VNull
              (num 5) (VStr "") [] [] [] [] [])
           (world [sales_meeting]) DbError).
  - constructor; [| constructor].
    exists (VStr "Jane"). split; reflexivity.
  - constructor; [| constructor].
    exists VUndef. split; reflexivity.
  - vm_compute. reflexivity.
Defined.

(** a team member whose name does not convert to a string: the store
    writer fails behind the Call row *)
Example unprintable_name_fails_after_call_insert :
  renders (VObj [("toString", VNum (num 0))]) = false
  /\ fst (storeExtraction env_ok 1 sales_data
            (mkExtractionResult (VStr "discovery") (VStr "none")
               (VStr "Acme") []
               [VObj [("name", VObj [("toString", VNum (num 0))])]] []
               (VStr "neutral") VNull (num 5) (VStr "") [] [] [] [] [])
            (world [sales_meeting]))
     = Throw TypeError
  /\ length
       (t_calls
          (db (snd (storeExtraction env_ok 1 sales_data
                      (mkExtractionResult (VStr "discovery") (VStr "none")
                         (VStr "Acme") []
                         [VObj [("name",
                                 VObj [("toString", VNum (num 0))])]] []
                         (VStr "neutral") VNull (num 5) (VStr "")
                         [] [] [] [] [])
                      (world [sales_meeting])))))
     = 1%nat.
Proof. vm_compute. repeat split. Qed.

(** the company of the failed call stays behind *)
Example failed_call_leaves_company :
  length (t_companies
            (db (snd (storeExtraction env_calls_fault 1 sales_data
                        all_defaults (world [sales_meeting])))))
  = 1%nat.
Proof. vm_compute. reflexivity. Qed.

(** ** The driver *)

Lemma main_counts_add_up_witness :
  st_total (mkStats 2 1 0 0 1 1 0 0) = 2%nat
  /\ st_classificationLLMCalls (mkStats 2 1 0 0 1 1 0 0) = 0%nat.
Proof.
  destruct (main_counts_add_up env_ok (world [sales_meeting; vague_meeting])
              (mkStats 2 1 0 0 1 1 0 0))
    as (H1 & _ & _ & _ & H5).
  - vm_compute. reflexivity.
  - split; [exact H1 | exact H5].
Defined.

Lemma classification_failure_becomes_other_witness :
  exists w',
    process_meeting env_ok 0 1 vague_meeting no_stats (world [vague_meeting])
    = (Ok (count_classification other no_stats), w').
Proof.
  destruct (classification_failure_becomes_other env_ok 0 1 vague_meeting
              no_stats (world [vague_meeting]))
    as [w' [Hrun _]].
  - intros n st Hst. reflexivity.
  - vm_compute. reflexivity.
  - reflexivity.
  - exists w'. exact Hrun.
Defined.

Lemma short_ingested_transcript_is_skipped_witness :
  extract_step env_ok (raw_meeting_of 7 Pulled.bare None None) sales_call
    no_stats (world [])
  = (Ok no_stats,
     set_console (console (world []) ++ [LogSkipTooShort])%list (world [])).
Proof.
  apply (short_ingested_transcript_is_skipped env_ok 7 Pulled.bare None None
           no_stats (world [])).
  vm_compute. reflexivity.
Defined.

(** ** Replies without a fence *)

Lemma strip_fences_without_fence_witness :
  strip_fences (" {} " ++ Str.nl) = "{}".
Proof.
  apply (strip_fences_without_fence (" {} " ++ Str.nl)).
  - reflexivity.
  - reflexivity.
Defined.
